(** * Azure Firewall Analyzer: rule ordering and duplicate/conflict analysis

    A shallow embedding of [RuleProcessor] (utils/ruleProcessor.ts) and
    [RuleAnalyzer] (utils/ruleAnalyzer.ts), with the properties of the
    ordering engine and of the analyzer established on the embedding.

    Conventions of the embedding.
    - A JavaScript [number] that holds a priority, a processing order or a
      counter is a [Z]; a length or an array index is a [nat].
    - A JavaScript string is a [string] of 8-bit characters.  Case mapping and
      white space are modelled on the ASCII range (codes 0..127); characters
      outside it are left untouched.
    - An optional property ([sourceAddresses?: string[]]) is an [option].
    - [Array.prototype.sort] is stable (ECMAScript 2019); it is modelled by a
      stable insertion sort, which returns the same array as any other stable
      sort whenever the comparator is a total preorder. *)

From Stdlib Require Import List String Ascii ZArith NArith Arith Bool Lia.
From Stdlib Require Import Permutation Sorted DecimalString.
Import ListNotations.

(* ================================================================== *)
(** * JavaScript primitives used by the two modules *)
(* ================================================================== *)

Module JS.

(** [String.prototype.toLowerCase] on the ASCII range. *)
Definition isUpper (c : ascii) : bool :=
  let n := N_of_ascii c in (65 <=? n)%N && (n <=? 90)%N.

Definition lowerChar (c : ascii) : ascii :=
  if isUpper c then ascii_of_N (N_of_ascii c + 32) else c.

Fixpoint toLowerCase (s : string) : string :=
  match s with
  | EmptyString => EmptyString
  | String c s' => String (lowerChar c) (toLowerCase s')
  end.

(** [String.prototype.trim]: TAB, LF, VT, FF, CR and SPACE are stripped
    from both ends. *)
Definition isWhiteSpace (c : ascii) : bool :=
  let n := N_of_ascii c in
  ((9 <=? n)%N && (n <=? 13)%N) || (n =? 32)%N.

Fixpoint trimStart (s : string) : string :=
  match s with
  | EmptyString => EmptyString
  | String c s' => if isWhiteSpace c then trimStart s' else s
  end.

Fixpoint trimEnd (s : string) : string :=
  match s with
  | EmptyString => EmptyString
  | String c s' =>
      match trimEnd s' with
      | EmptyString => if isWhiteSpace c then EmptyString
                       else String c EmptyString
      | t => String c t
      end
  end.

Definition trim (s : string) : string := trimEnd (trimStart s).

(** [String.prototype.includes]: [includes s t] holds when [t] occurs in
    [s] as a contiguous substring. *)
Fixpoint includes (s t : string) : bool :=
  if String.prefix t s then true
  else match s with
       | EmptyString => false
       | String _ s' => includes s' t
       end.

(** Template-literal rendering of a non-negative integer. *)
Definition showNat (n : nat) : string :=
  NilZero.string_of_uint (Nat.to_uint n).

(** [Array.prototype.some], [every], [includes] on arrays of strings. *)
Definition arrayIncludes (arr : list string) (item : string) : bool :=
  existsb (String.eqb item) arr.

(** [x || []] for an optional array. *)
Definition orEmpty {A : Type} (x : option (list A)) : list A :=
  match x with Some l => l | None => [] end.

Section Sort.
Context {A : Type}.

(** Stable insertion: [x] (which stood before every element of [l] in
    the source array) goes in front of the first element it does not
    have to follow. *)
Fixpoint insertBy (le : A -> A -> bool) (x : A) (l : list A) : list A :=
  match l with
  | [] => [x]
  | y :: l' => if le x y then x :: l else y :: insertBy le x l'
  end.

Fixpoint sortBy (le : A -> A -> bool) (l : list A) : list A :=
  match l with
  | [] => []
  | x :: l' => insertBy le x (sortBy le l')
  end.

(** [arr.sort(compareFn)]: [a] stays in front of [b] when
    [compareFn(a, b) <= 0]. *)
Definition sortWith (compareFn : A -> A -> Z) (l : list A) : list A :=
  sortBy (fun a b => (compareFn a b <=? 0)%Z) l.
End Sort.

(** [arr.sort()] on strings: ascending by code units. *)
Definition sortStrings (l : list string) : list string :=
  sortBy String.leb l.

End JS.

(* ================================================================== *)
(** * The data model (types/firewall.types.ts) *)
(* ================================================================== *)

Inductive RuleCollectionType :=
| FirewallPolicyFilterRuleCollection
| FirewallPolicyNatRuleCollection.

Inductive ActionType := Allow | Deny | Dnat.

Inductive RuleCategory := DNAT | Network | Application.

Definition RuleCategory_eqb (a b : RuleCategory) : bool :=
  match a, b with
  | DNAT, DNAT | Network, Network | Application, Application => true
  | _, _ => false
  end.

(** [FirewallRule].  [ruleType] is the run-time discriminant, a string: the
    TypeScript union [RuleType] names the three values the parser lets
    through.  The properties that the ordering engine copies but that no
    modelled function reads ([description], [protocols], [fqdnTags],
    [webCategories], [targetUrls], [terminateTLS], [httpHeadersToInsert],
    [translatedAddress], [translatedPort], [sourceIpGroups],
    [destinationIpGroups]) are left out of the records. *)
Module FirewallRule.
Record t := mk {
  ruleType : string;
  name : string;
  sourceAddresses : option (list string);
  destinationAddresses : option (list string);
  ipProtocols : option (list string);
  destinationPorts : option (list string);
  destinationFqdns : option (list string);
  targetFqdns : option (list string)
}.
End FirewallRule.

Module RuleCollection.
Record t := mk {
  ruleCollectionType : RuleCollectionType;
  name : string;
  priority : Z;
  action : ActionType;
  rules : list FirewallRule.t
}.
End RuleCollection.

Module RuleCollectionGroup.
Record t := mk {
  name : string;
  priority : Z;
  ruleCollections : list RuleCollection.t
}.
End RuleCollectionGroup.

Module FirewallPolicy.
Record t := mk {
  name : string;
  ruleCollectionGroups : list RuleCollectionGroup.t
}.
End FirewallPolicy.

Module ProcessedRule.
Record t := mk {
  ruleType : string;
  name : string;
  sourceAddresses : option (list string);
  destinationAddresses : option (list string);
  ipProtocols : option (list string);
  destinationPorts : option (list string);
  destinationFqdns : option (list string);
  targetFqdns : option (list string);
  id : string;
  collectionName : string;
  collectionGroupName : string;
  processingOrder : Z;
  ruleCategory : RuleCategory;
  groupPriority : Z;
  collectionPriority : Z;
  isParentPolicy : bool
}.
End ProcessedRule.

(** [{ ...collection, id, groupName, groupPriority, ruleCategory,
    processedRules }]: the spread collection is kept as one field. *)
Module ProcessedRuleCollection.
Record t := mk {
  collection : RuleCollection.t;
  id : string;
  groupName : string;
  groupPriority : Z;
  ruleCategory : RuleCategory;
  processedRules : list ProcessedRule.t
}.
Definition priority (c : t) : Z := RuleCollection.priority (collection c).
Definition name (c : t) : string := RuleCollection.name (collection c).
End ProcessedRuleCollection.

Module ProcessedRuleCollectionGroup.
Record t := mk {
  id : string;
  name : string;
  priority : Z;
  ruleCollections : list RuleCollection.t;
  processedCollections : list ProcessedRuleCollection.t;
  isParentPolicy : bool
}.
End ProcessedRuleCollectionGroup.

(* ================================================================== *)
(** * RuleProcessor (utils/ruleProcessor.ts) *)
(* ================================================================== *)

Module RuleProcessor.
Import JS.
Local Open Scope Z_scope.
Local Open Scope string_scope.

Definition hasRuleType (ty : string) (rule : FirewallRule.t) : bool :=
  String.eqb (FirewallRule.ruleType rule) ty.

(** The [switch (ruleCategory)] of the rule filter. *)
Definition isRelevant (ruleCategory : RuleCategory) (rule : FirewallRule.t)
  : bool :=
  match ruleCategory with
  | DNAT => hasRuleType "NatRule" rule
  | Network => hasRuleType "NetworkRule" rule
  | Application => hasRuleType "ApplicationRule" rule
  end.

(** One iteration of [relevantRules.map((rule, index) => ...)]; the
    counter is read for [processingOrder] and the caller advances it
    ([currentOrder++]). *)
Definition processRule (ruleCategory : RuleCategory) (groupName : string)
    (groupPriority : Z) (isParentPolicy : bool)
    (collection : RuleCollection.t) (rule : FirewallRule.t) (index : nat)
    (currentOrder : Z) : ProcessedRule.t :=
  let ty := FirewallRule.ruleType rule in
  let isApp := String.eqb ty "ApplicationRule" in
  let isNet := String.eqb ty "NetworkRule" in
  let isNat := String.eqb ty "NatRule" in
  {| ProcessedRule.ruleType := ty;
     ProcessedRule.name := FirewallRule.name rule;
     ProcessedRule.sourceAddresses := FirewallRule.sourceAddresses rule;
     ProcessedRule.destinationAddresses :=
       FirewallRule.destinationAddresses rule;
     ProcessedRule.ipProtocols :=
       if isApp then None
       else if isNet then FirewallRule.ipProtocols rule
       else if isNat then FirewallRule.ipProtocols rule
       else None;
     ProcessedRule.destinationPorts :=
       if isApp then None
       else if isNet then FirewallRule.destinationPorts rule
       else if isNat then FirewallRule.destinationPorts rule
       else None;
     ProcessedRule.destinationFqdns :=
       if isApp then None
       else if isNet then FirewallRule.destinationFqdns rule
       else None;
     ProcessedRule.targetFqdns :=
       if isApp then FirewallRule.targetFqdns rule else None;
     ProcessedRule.id :=
       "rule_" ++ groupName ++ "_" ++ RuleCollection.name collection
         ++ "_" ++ FirewallRule.name rule ++ "_" ++ showNat index;
     ProcessedRule.collectionName := RuleCollection.name collection;
     ProcessedRule.collectionGroupName := groupName;
     ProcessedRule.processingOrder := currentOrder;
     ProcessedRule.ruleCategory := ruleCategory;
     ProcessedRule.groupPriority := groupPriority;
     ProcessedRule.collectionPriority := RuleCollection.priority collection;
     ProcessedRule.isParentPolicy := isParentPolicy |}.

(** [relevantRules.map(...)] with the captured counter [currentOrder]
    threaded through: the result is the processed rules and the counter
    after the last [currentOrder++]. *)
Fixpoint mapRules (ruleCategory : RuleCategory) (groupName : string)
    (groupPriority : Z) (isParentPolicy : bool)
    (collection : RuleCollection.t) (relevantRules : list FirewallRule.t)
    (index : nat) (currentOrder : Z) : list ProcessedRule.t * Z :=
  match relevantRules with
  | [] => ([], currentOrder)
  | rule :: rest =>
      let pr := processRule ruleCategory groupName groupPriority
                  isParentPolicy collection rule index currentOrder in
      let '(prs, o) := mapRules ruleCategory groupName groupPriority
                         isParentPolicy collection rest (S index)
                         (currentOrder + 1) in
      (pr :: prs, o)
  end.

(** [sortedCollections.map(collection => ...)], same threading. *)
Fixpoint mapCollections (ruleCategory : RuleCategory) (groupName : string)
    (groupPriority : Z) (isParentPolicy : bool)
    (sortedCollections : list RuleCollection.t) (currentOrder : Z)
  : list ProcessedRuleCollection.t * Z :=
  match sortedCollections with
  | [] => ([], currentOrder)
  | collection :: rest =>
      let relevantRules :=
        filter (isRelevant ruleCategory) (RuleCollection.rules collection) in
      let '(processedRules, o) :=
        mapRules ruleCategory groupName groupPriority isParentPolicy
          collection relevantRules 0 currentOrder in
      let pc :=
        {| ProcessedRuleCollection.collection := collection;
           ProcessedRuleCollection.id :=
             "collection_" ++ groupName ++ "_"
               ++ RuleCollection.name collection;
           ProcessedRuleCollection.groupName := groupName;
           ProcessedRuleCollection.groupPriority := groupPriority;
           ProcessedRuleCollection.ruleCategory := ruleCategory;
           ProcessedRuleCollection.processedRules := processedRules |} in
      let '(pcs, o') :=
        mapCollections ruleCategory groupName groupPriority isParentPolicy
          rest o in
      (pc :: pcs, o')
  end.

Definition processRuleCollectionsByType
    (collections : list RuleCollection.t) (ruleCategory : RuleCategory)
    (groupName : string) (groupPriority : Z) (isParentPolicy : bool)
    (startingOrder : Z) : list ProcessedRuleCollection.t :=
  let sortedCollections :=
    sortWith (fun a b => RuleCollection.priority a
                         - RuleCollection.priority b) collections in
  fst (mapCollections ruleCategory groupName groupPriority isParentPolicy
         sortedCollections startingOrder).

(** The two nested [forEach] loops of [getMaxProcessingOrder...]. *)
Definition maxOverRules (maxOrder : Z) (rules : list ProcessedRule.t) : Z :=
  fold_left (fun m rule =>
               if ProcessedRule.processingOrder rule >? m
               then ProcessedRule.processingOrder rule else m)
            rules maxOrder.

Definition getMaxProcessingOrderFromCollections
    (collections : list ProcessedRuleCollection.t) : Z :=
  fold_left (fun m c =>
               maxOverRules m (ProcessedRuleCollection.processedRules c))
            collections 0.

Definition getMaxProcessingOrder (group : ProcessedRuleCollectionGroup.t)
  : Z :=
  fold_left (fun m c =>
               maxOverRules m (ProcessedRuleCollection.processedRules c))
            (ProcessedRuleCollectionGroup.processedCollections group) 0.

Definition hasSome (ty : string) (collection : RuleCollection.t) : bool :=
  existsb (hasRuleType ty) (RuleCollection.rules collection).

Definition processRuleCollectionGroup (group : RuleCollectionGroup.t)
    (isParentPolicy : bool) (startingOrder : Z)
  : ProcessedRuleCollectionGroup.t :=
  let currentOrder := startingOrder in
  let cols := RuleCollectionGroup.ruleCollections group in
  let dnatCollections := filter (hasSome "NatRule") cols in
  let networkCollections := filter (hasSome "NetworkRule") cols in
  let applicationCollections := filter (hasSome "ApplicationRule") cols in
  let gname := RuleCollectionGroup.name group in
  let gprio := RuleCollectionGroup.priority group in
  let processedDnatCollections :=
    processRuleCollectionsByType dnatCollections DNAT gname gprio
      isParentPolicy currentOrder in
  let currentOrder :=
    getMaxProcessingOrderFromCollections processedDnatCollections + 1 in
  let processedNetworkCollections :=
    processRuleCollectionsByType networkCollections Network gname gprio
      isParentPolicy currentOrder in
  let currentOrder :=
    getMaxProcessingOrderFromCollections processedNetworkCollections + 1 in
  let processedApplicationCollections :=
    processRuleCollectionsByType applicationCollections Application gname
      gprio isParentPolicy currentOrder in
  {| ProcessedRuleCollectionGroup.id := "group_" ++ gname;
     ProcessedRuleCollectionGroup.name := gname;
     ProcessedRuleCollectionGroup.priority := gprio;
     ProcessedRuleCollectionGroup.ruleCollections := cols;
     ProcessedRuleCollectionGroup.processedCollections :=
       processedDnatCollections ++ processedNetworkCollections
         ++ processedApplicationCollections;
     ProcessedRuleCollectionGroup.isParentPolicy := isParentPolicy |}.

(** The comparator handed to [allGroups.sort]. *)
Definition compareGroups (a b : RuleCollectionGroup.t * bool) : Z :=
  if snd a && negb (snd b) then -1
  else if negb (snd a) && snd b then 1
  else RuleCollectionGroup.priority (fst a)
       - RuleCollectionGroup.priority (fst b).

(** [allGroups.map(...)] with [globalProcessingOrder] threaded through. *)
Fixpoint mapGroups (allGroups : list (RuleCollectionGroup.t * bool))
    (globalProcessingOrder : Z) : list ProcessedRuleCollectionGroup.t :=
  match allGroups with
  | [] => []
  | (group, isParent) :: rest =>
      let processedGroup :=
        processRuleCollectionGroup group isParent globalProcessingOrder in
      processedGroup
        :: mapGroups rest (getMaxProcessingOrder processedGroup + 1)
  end.

Definition collectGroups (policy : FirewallPolicy.t)
    (parentPolicy : option FirewallPolicy.t)
  : list (RuleCollectionGroup.t * bool) :=
  (match parentPolicy with
   | Some parent =>
       map (fun g => (g, true)) (FirewallPolicy.ruleCollectionGroups parent)
   | None => []
   end)
  ++ map (fun g => (g, false)) (FirewallPolicy.ruleCollectionGroups policy).

Definition processFirewallPolicy (policy : FirewallPolicy.t)
    (parentPolicy : option FirewallPolicy.t)
  : list ProcessedRuleCollectionGroup.t :=
  let allGroups := sortWith compareGroups (collectGroups policy parentPolicy) in
  mapGroups allGroups 1.

(** How a call ends.  [processFirewallPolicy] and the functions it calls
    contain no [throw]; on a policy of the declared shape every property
    access is defined, so the call always returns. *)
Inductive completion (A : Type) :=
| Returned (value : A)
| Thrown (message : string).
Arguments Returned {A} value.
Arguments Thrown {A} message.

Definition runProcessFirewallPolicy (policy : FirewallPolicy.t)
    (parentPolicy : option FirewallPolicy.t)
  : completion (list ProcessedRuleCollectionGroup.t) :=
  Returned (processFirewallPolicy policy parentPolicy).

(** The rules of the output in emission order (the two nested [forEach]
    of [getAllRulesInProcessingOrder], before its final sort). *)
Definition emittedRules (groups : list ProcessedRuleCollectionGroup.t)
  : list ProcessedRule.t :=
  flat_map (fun g =>
              flat_map ProcessedRuleCollection.processedRules
                (ProcessedRuleCollectionGroup.processedCollections g))
           groups.

Definition getAllRulesInProcessingOrder
    (groups : list ProcessedRuleCollectionGroup.t) : list ProcessedRule.t :=
  sortWith (fun a b => ProcessedRule.processingOrder a
                       - ProcessedRule.processingOrder b)
           (emittedRules groups).

(** [getProcessingStatistics], the [rulesByCategory] counters. *)
Record RulesByCategory := mkRulesByCategory {
  statDNAT : nat;
  statNetwork : nat;
  statApplication : nat
}.

Definition bump (stats : RulesByCategory) (rule : ProcessedRule.t)
  : RulesByCategory :=
  match ProcessedRule.ruleCategory rule with
  | DNAT => mkRulesByCategory (S (statDNAT stats)) (statNetwork stats)
              (statApplication stats)
  | Network => mkRulesByCategory (statDNAT stats) (S (statNetwork stats))
                 (statApplication stats)
  | Application => mkRulesByCategory (statDNAT stats) (statNetwork stats)
                     (S (statApplication stats))
  end.

Record ProcessingStatistics := mkProcessingStatistics {
  totalGroups : nat;
  totalCollections : nat;
  totalRules : nat;
  parentPolicyGroups : nat;
  childPolicyGroups : nat;
  rulesByCategory : RulesByCategory
}.

Definition statsCollection (stats : ProcessingStatistics)
    (c : ProcessedRuleCollection.t) : ProcessingStatistics :=
  let rules := ProcessedRuleCollection.processedRules c in
  mkProcessingStatistics (totalGroups stats) (totalCollections stats)
    (totalRules stats + List.length rules)%nat
    (parentPolicyGroups stats) (childPolicyGroups stats)
    (fold_left bump rules (rulesByCategory stats)).

Definition statsGroup (stats : ProcessingStatistics)
    (g : ProcessedRuleCollectionGroup.t) : ProcessingStatistics :=
  let pcs := ProcessedRuleCollectionGroup.processedCollections g in
  let isP := ProcessedRuleCollectionGroup.isParentPolicy g in
  let stats1 :=
    mkProcessingStatistics (totalGroups stats)
      (totalCollections stats + List.length pcs)%nat
      (totalRules stats)
      (if isP then S (parentPolicyGroups stats)
       else parentPolicyGroups stats)
      (if isP then childPolicyGroups stats
       else S (childPolicyGroups stats))
      (rulesByCategory stats) in
  fold_left statsCollection pcs stats1.

(** The [priorityRanges] members (which start at [Infinity]) are not
    modelled. *)
Definition getProcessingStatistics
    (groups : list ProcessedRuleCollectionGroup.t) : ProcessingStatistics :=
  fold_left statsGroup groups
    (mkProcessingStatistics (List.length groups) 0 0 0 0
       (mkRulesByCategory 0 0 0)).

(** [getRulesByCategory]. *)
Definition getRulesByCategory (groups : list ProcessedRuleCollectionGroup.t)
    (category : RuleCategory) : list ProcessedRule.t :=
  let allRules := getAllRulesInProcessingOrder groups in
  filter (fun rule => RuleCategory_eqb (ProcessedRule.ruleCategory rule)
                        category) allRules.

(** [findRuleById]: the two nested [for ... of] loops; [find] gives the
    first rule of a collection with the id, and the first hit is returned. *)
Fixpoint findInCollections (collections : list ProcessedRuleCollection.t)
    (ruleId : string) : option ProcessedRule.t :=
  match collections with
  | [] => None
  | collection :: rest =>
      match find (fun r => String.eqb (ProcessedRule.id r) ruleId)
                 (ProcessedRuleCollection.processedRules collection) with
      | Some rule => Some rule
      | None => findInCollections rest ruleId
      end
  end.

Fixpoint findRuleById (groups : list ProcessedRuleCollectionGroup.t)
    (ruleId : string) : option ProcessedRule.t :=
  match groups with
  | [] => None
  | group :: rest =>
      match findInCollections
              (ProcessedRuleCollectionGroup.processedCollections group)
              ruleId with
      | Some rule => Some rule
      | None => findRuleById rest ruleId
      end
  end.

(** The [priorityRanges] members of [getProcessingStatistics].  A range
    starts at [{ min: Infinity, max: -Infinity }] and is narrowed with
    [Math.min] and [Math.max]. *)
Inductive Extended := NegInfinity | Finite (z : Z) | PosInfinity.

Definition mathMin (a : Extended) (b : Z) : Extended :=
  match a with
  | NegInfinity => NegInfinity
  | Finite x => Finite (Z.min x b)
  | PosInfinity => Finite b
  end.

Definition mathMax (a : Extended) (b : Z) : Extended :=
  match a with
  | NegInfinity => Finite b
  | Finite x => Finite (Z.max x b)
  | PosInfinity => PosInfinity
  end.

Record PriorityRange := mkPriorityRange {
  rangeMin : Extended;
  rangeMax : Extended
}.

Definition narrow (range : PriorityRange) (priority : Z) : PriorityRange :=
  mkPriorityRange (mathMin (rangeMin range) priority)
    (mathMax (rangeMax range) priority).

Definition emptyRange : PriorityRange :=
  mkPriorityRange PosInfinity NegInfinity.

(** [stats.priorityRanges.groups]. *)
Definition groupPriorityRange (groups : list ProcessedRuleCollectionGroup.t)
  : PriorityRange :=
  fold_left (fun range group =>
               narrow range (ProcessedRuleCollectionGroup.priority group))
            groups emptyRange.

(** [stats.priorityRanges.collections]. *)
Definition collectionPriorityRange
    (groups : list ProcessedRuleCollectionGroup.t) : PriorityRange :=
  fold_left
    (fun range group =>
       fold_left (fun range collection =>
                    narrow range (ProcessedRuleCollection.priority collection))
                 (ProcessedRuleCollectionGroup.processedCollections group)
                 range)
    groups emptyRange.

(** Template-literal rendering of an integer. *)
Definition showZ (z : Z) : string :=
  match z with
  | Z0 => "0"
  | Zpos p => showNat (Pos.to_nat p)
  | Zneg p => "-" ++ showNat (Pos.to_nat p)
  end.

(** [validateProcessingOrder]. *)
Module ValidationWarning.
Record t := mk {
  type : string;
  message : string
}.
End ValidationWarning.

Definition gapWarning (previous current : ProcessedRule.t)
  : ValidationWarning.t :=
  {| ValidationWarning.type := "processing_gap";
     ValidationWarning.message :=
       "Processing order gap between rules "
         ++ ProcessedRule.name previous ++ " (order: "
         ++ showZ (ProcessedRule.processingOrder previous) ++ ") and "
         ++ ProcessedRule.name current ++ " (order: "
         ++ showZ (ProcessedRule.processingOrder current) ++ ")" |}.

(** [for (let i = 1; i < allRules.length; i++)]: [previous] is
    [allRules[i - 1]] and the head of [remaining] is [allRules[i]]. *)
Fixpoint gapLoop (previous : ProcessedRule.t)
    (remaining : list ProcessedRule.t) : list ValidationWarning.t :=
  match remaining with
  | [] => []
  | current :: rest =>
      if negb (ProcessedRule.processingOrder current
               =? ProcessedRule.processingOrder previous + 1)%Z
      then gapWarning previous current :: gapLoop current rest
      else gapLoop current rest
  end.

Definition processingGaps (allRules : list ProcessedRule.t)
  : list ValidationWarning.t :=
  match allRules with
  | [] => []
  | first :: rest => gapLoop first rest
  end.

(** The [Map<number, string[]>] of group names by priority, in insertion
    order. *)
Fixpoint pushName (priority : Z) (name : string)
    (groupPriorities : list (Z * list string)) : list (Z * list string) :=
  match groupPriorities with
  | [] => [(priority, [name])]
  | (p, groupNames) :: rest =>
      if (p =? priority)%Z then (p, (groupNames ++ [name])%list) :: rest
      else (p, groupNames) :: pushName priority name rest
  end.

Definition collectGroupPriorities
    (groups : list ProcessedRuleCollectionGroup.t) : list (Z * list string) :=
  fold_left (fun groupPriorities group =>
               pushName (ProcessedRuleCollectionGroup.priority group)
                 (ProcessedRuleCollectionGroup.name group) groupPriorities)
            groups [].

Definition duplicatePriorityWarning (priority : Z) (groupNames : list string)
  : ValidationWarning.t :=
  {| ValidationWarning.type := "duplicate_priority";
     ValidationWarning.message :=
       "Multiple rule collection groups have the same priority "
         ++ showZ priority ++ ": " ++ String.concat ", " groupNames |}.

Fixpoint duplicatePriorities (groupPriorities : list (Z * list string))
  : list ValidationWarning.t :=
  match groupPriorities with
  | [] => []
  | (priority, groupNames) :: rest =>
      if (1 <? List.length groupNames)%nat
      then duplicatePriorityWarning priority groupNames
             :: duplicatePriorities rest
      else duplicatePriorities rest
  end.

Definition validateProcessingOrder
    (groups : list ProcessedRuleCollectionGroup.t)
  : list ValidationWarning.t :=
  let allRules := getAllRulesInProcessingOrder groups in
  (processingGaps allRules
   ++ duplicatePriorities (collectGroupPriorities groups))%list.

End RuleProcessor.


(* ================================================================== *)
(** * RuleAnalyzer (utils/ruleAnalyzer.ts) *)
(* ================================================================== *)

Module RuleFingerprint.
Record t := mk {
  sourceAddresses : list string;
  destinationAddresses : list string;
  destinationPorts : list string;
  ipProtocols : list string;
  targetFqdns : list string;
  ruleType : string
}.

Definition eq_dec (a b : t) : {a = b} + {a <> b}.
Proof.
  decide equality;
    first [ apply string_dec | apply (list_eq_dec string_dec) ].
Defined.
End RuleFingerprint.

Inductive DuplicateType := exact_duplicate | similar_rules.

Inductive ConflictType :=
| allow_deny_conflict
| priority_conflict
| overlapping_rules.

Inductive Severity := high | medium | low.

(** The [description] strings of duplicate groups and conflicts are
    display text derived from the other members; they are not modelled. *)
Module DuplicateGroup.
Record t := mk {
  id : string;
  fingerprint : RuleFingerprint.t;
  rules : list ProcessedRule.t;
  type : DuplicateType
}.
End DuplicateGroup.

(** [rules: { primary, conflicting }] is flattened into two members. *)
Module RuleConflict.
Record t := mk {
  id : string;
  conflictType : ConflictType;
  primary : ProcessedRule.t;
  conflicting : ProcessedRule.t;
  severity : Severity
}.
End RuleConflict.

Module Statistics.
Record t := mk {
  totalRules : nat;
  duplicateRules : nat;
  conflictingRules : nat;
  duplicateGroups : nat;
  conflicts : nat
}.
End Statistics.

Module RuleAnalysis.
Record t := mk {
  duplicates : list DuplicateGroup.t;
  conflicts : list RuleConflict.t;
  statistics : Statistics.t
}.
End RuleAnalysis.

Module RuleAnalyzer.
Import JS.
Local Open Scope string_scope.

Definition getAllRulesFlat (groups : list ProcessedRuleCollectionGroup.t)
  : list ProcessedRule.t :=
  flat_map (fun group =>
              flat_map ProcessedRuleCollection.processedRules
                (ProcessedRuleCollectionGroup.processedCollections group))
           groups.

Definition normalizeAddresses (addresses : list string) : list string :=
  sortStrings (map (fun addr => trim (toLowerCase addr)) addresses).

Definition normalizePorts (ports : list string) : list string :=
  sortStrings (map (fun port => trim port) ports).

Definition normalizeProtocols (protocols : list string) : list string :=
  sortStrings (map (fun proto => trim (toLowerCase proto)) protocols).

Definition normalizeFqdns (fqdns : list string) : list string :=
  sortStrings (map (fun fqdn => trim (toLowerCase fqdn)) fqdns).

Definition generateRuleFingerprint (rule : ProcessedRule.t)
  : RuleFingerprint.t :=
  {| RuleFingerprint.sourceAddresses :=
       normalizeAddresses (orEmpty (ProcessedRule.sourceAddresses rule));
     RuleFingerprint.destinationAddresses :=
       normalizeAddresses (orEmpty (ProcessedRule.destinationAddresses rule));
     RuleFingerprint.destinationPorts :=
       normalizePorts (orEmpty (ProcessedRule.destinationPorts rule));
     RuleFingerprint.ipProtocols :=
       normalizeProtocols (orEmpty (ProcessedRule.ipProtocols rule));
     RuleFingerprint.targetFqdns :=
       normalizeFqdns (orEmpty (ProcessedRule.targetFqdns rule));
     RuleFingerprint.ruleType := ProcessedRule.ruleType rule |}.

(** [serializeFingerprint] is [JSON.stringify] of an object holding the six
    members in a fixed order; it is injective on fingerprints, and
    [deserializeFingerprint] is its inverse.  A map key is therefore
    modelled by the fingerprint it encodes. *)
Definition serializeFingerprint (fingerprint : RuleFingerprint.t)
  : RuleFingerprint.t := fingerprint.

Definition deserializeFingerprint (fingerprintKey : RuleFingerprint.t)
  : RuleFingerprint.t := fingerprintKey.

(** The [Map<string, ProcessedRule[]>], in insertion order.  One step of
    the grouping loop: create the entry at the end when the key is new,
    then push the rule on the entry's array. *)
Fixpoint pushRule (fingerprintKey : RuleFingerprint.t)
    (rule : ProcessedRule.t)
    (fingerprintMap : list (RuleFingerprint.t * list ProcessedRule.t))
  : list (RuleFingerprint.t * list ProcessedRule.t) :=
  match fingerprintMap with
  | [] => [(fingerprintKey, [rule])]
  | (k, groupRules) :: rest =>
      if RuleFingerprint.eq_dec k fingerprintKey
      then (k, (groupRules ++ [rule])%list) :: rest
      else (k, groupRules) :: pushRule fingerprintKey rule rest
  end.

Definition groupByFingerprint (rules : list ProcessedRule.t)
  : list (RuleFingerprint.t * list ProcessedRule.t) :=
  fold_left (fun fingerprintMap rule =>
               pushRule (serializeFingerprint (generateRuleFingerprint rule))
                 rule fingerprintMap)
            rules [].

Definition areRulesExactDuplicates (rules : list ProcessedRule.t) : bool :=
  if (List.length rules <? 2)%nat then false
  else match rules with
       | [] => false
       | firstRule :: _ =>
           forallb (fun rule =>
                      String.eqb (ProcessedRule.name rule)
                        (ProcessedRule.name firstRule)
                      && String.eqb (ProcessedRule.collectionName rule)
                           (ProcessedRule.collectionName firstRule))
                   rules
       end.

(** [fingerprintMap.forEach(...)] with the counter [duplicateGroupId]. *)
Fixpoint collectDuplicates
    (entries : list (RuleFingerprint.t * list ProcessedRule.t))
    (duplicateGroupId : nat) : list DuplicateGroup.t :=
  match entries with
  | [] => []
  | (fingerprintKey, groupRules) :: rest =>
      if (1 <? List.length groupRules)%nat then
        {| DuplicateGroup.id := "duplicate_" ++ showNat duplicateGroupId;
           DuplicateGroup.fingerprint := deserializeFingerprint fingerprintKey;
           DuplicateGroup.rules := groupRules;
           DuplicateGroup.type :=
             if areRulesExactDuplicates groupRules then exact_duplicate
             else similar_rules |}
          :: collectDuplicates rest (S duplicateGroupId)
      else collectDuplicates rest duplicateGroupId
  end.

Definition findDuplicateRules (rules : list ProcessedRule.t)
  : list DuplicateGroup.t :=
  collectDuplicates (groupByFingerprint rules) 1.

Definition getRuleAction (rule : ProcessedRule.t) : string :=
  let ruleName := toLowerCase (ProcessedRule.name rule) in
  let collectionName := toLowerCase (ProcessedRule.collectionName rule) in
  if includes ruleName "deny" || includes ruleName "block"
     || includes collectionName "deny" || includes collectionName "block"
  then "Deny"
  else "Allow".

Definition hasArrayOverlap (arr1 arr2 : list string) : bool :=
  if (List.length arr1 =? 0)%nat || (List.length arr2 =? 0)%nat then true
  else existsb (fun item => arrayIncludes arr2 item) arr1.

Definition arraysEqual (arr1 arr2 : list string) : bool :=
  if negb (List.length arr1 =? List.length arr2)%nat then false
  else forallb (fun item => arrayIncludes arr2 item) arr1.

Definition hasOverlappingTrafficPattern (fp1 fp2 : RuleFingerprint.t) : bool :=
  if negb (hasArrayOverlap (RuleFingerprint.sourceAddresses fp1)
             (RuleFingerprint.sourceAddresses fp2)) then false
  else
    let dest1 := (RuleFingerprint.destinationAddresses fp1
                  ++ RuleFingerprint.targetFqdns fp1)%list in
    let dest2 := (RuleFingerprint.destinationAddresses fp2
                  ++ RuleFingerprint.targetFqdns fp2)%list in
    if negb (hasArrayOverlap dest1 dest2) then false
    else if negb (hasArrayOverlap (RuleFingerprint.destinationPorts fp1)
                    (RuleFingerprint.destinationPorts fp2)) then false
    else if negb (hasArrayOverlap (RuleFingerprint.ipProtocols fp1)
                    (RuleFingerprint.ipProtocols fp2)) then false
    else true.

Definition areTrafficPatternsIdentical (fp1 fp2 : RuleFingerprint.t) : bool :=
  arraysEqual (RuleFingerprint.sourceAddresses fp1)
    (RuleFingerprint.sourceAddresses fp2)
  && arraysEqual (RuleFingerprint.destinationAddresses fp1)
       (RuleFingerprint.destinationAddresses fp2)
  && arraysEqual (RuleFingerprint.targetFqdns fp1)
       (RuleFingerprint.targetFqdns fp2)
  && arraysEqual (RuleFingerprint.destinationPorts fp1)
       (RuleFingerprint.destinationPorts fp2)
  && arraysEqual (RuleFingerprint.ipProtocols fp1)
       (RuleFingerprint.ipProtocols fp2).

(** [null] is [None]; the result carries the conflict type and severity. *)
Definition detectConflictBetweenRules (rule1 rule2 : ProcessedRule.t)
  : option (ConflictType * Severity) :=
  if negb (String.eqb (ProcessedRule.ruleType rule1)
             (ProcessedRule.ruleType rule2)) then None
  else
    let fingerprint1 := generateRuleFingerprint rule1 in
    let fingerprint2 := generateRuleFingerprint rule2 in
    let hasOverlappingTraffic :=
      hasOverlappingTrafficPattern fingerprint1 fingerprint2 in
    if negb hasOverlappingTraffic then None
    else if (String.eqb (ProcessedRule.ruleType rule1) "NetworkRule"
             || String.eqb (ProcessedRule.ruleType rule1) "ApplicationRule")
            && negb (String.eqb (getRuleAction rule1) (getRuleAction rule2))
    then Some (allow_deny_conflict, high)
    else if (ProcessedRule.processingOrder rule1
             <? ProcessedRule.processingOrder rule2)%Z
            && areTrafficPatternsIdentical fingerprint1 fingerprint2
    then Some (priority_conflict, medium)
    else Some (overlapping_rules, low).

(** The loop state of [findRuleConflicts]: the [conflicts] array and the
    counter [conflictId]. *)
Definition conflictState : Type := (list RuleConflict.t * nat)%type.

(** The body of the inner loop for one pair. *)
Definition comparePair (rule1 rule2 : ProcessedRule.t) (st : conflictState)
  : conflictState :=
  match detectConflictBetweenRules rule1 rule2 with
  | Some (ty, sev) =>
      ((fst st ++ [ {| RuleConflict.id := "conflict_" ++ showNat (snd st);
                       RuleConflict.conflictType := ty;
                       RuleConflict.primary := rule1;
                       RuleConflict.conflicting := rule2;
                       RuleConflict.severity := sev |} ])%list,
       S (snd st))
  | None => st
  end.

(** [for (j = i + 1; ...)]: [rule1] against every later rule. *)
Fixpoint innerLoop (rule1 : ProcessedRule.t) (later : list ProcessedRule.t)
    (st : conflictState) : conflictState :=
  match later with
  | [] => st
  | rule2 :: rest => innerLoop rule1 rest (comparePair rule1 rule2 st)
  end.

(** [for (i = 0; ...)]. *)
Fixpoint outerLoop (sortedRules : list ProcessedRule.t) (st : conflictState)
  : conflictState :=
  match sortedRules with
  | [] => st
  | rule1 :: later => outerLoop later (innerLoop rule1 later st)
  end.

Definition sortByProcessingOrder (rules : list ProcessedRule.t)
  : list ProcessedRule.t :=
  sortWith (fun a b => (ProcessedRule.processingOrder a
                        - ProcessedRule.processingOrder b)%Z) rules.

Definition findRuleConflicts (rules : list ProcessedRule.t)
  : list RuleConflict.t :=
  fst (outerLoop (sortByProcessingOrder rules) ([], 1%nat)).

(** [new Set(xs).size]: the number of distinct strings of [xs]. *)
Definition setSize (xs : list string) : nat :=
  List.length (nodup string_dec xs).

Definition analyzeRules (groups : list ProcessedRuleCollectionGroup.t)
  : RuleAnalysis.t :=
  let allRules := getAllRulesFlat groups in
  let duplicates := findDuplicateRules allRules in
  let conflicts := findRuleConflicts allRules in
  let duplicateRulesCount :=
    fold_left (fun sum group =>
                 (sum + List.length (DuplicateGroup.rules group))%nat)
              duplicates 0%nat in
  let conflictingRulesCount :=
    setSize (map (fun c => ProcessedRule.id (RuleConflict.primary c)) conflicts
             ++ map (fun c => ProcessedRule.id (RuleConflict.conflicting c))
                  conflicts)%list in
  {| RuleAnalysis.duplicates := duplicates;
     RuleAnalysis.conflicts := conflicts;
     RuleAnalysis.statistics :=
       {| Statistics.totalRules := List.length allRules;
          Statistics.duplicateRules := duplicateRulesCount;
          Statistics.conflictingRules := conflictingRulesCount;
          Statistics.duplicateGroups := List.length duplicates;
          Statistics.conflicts := List.length conflicts |} |}.

(** [findDuplicatesOfRule]. *)
Definition findDuplicatesOfRule (rule : ProcessedRule.t)
    (allRules : list ProcessedRule.t) : list ProcessedRule.t :=
  let ruleFingerprintKey :=
    serializeFingerprint (generateRuleFingerprint rule) in
  filter (fun r =>
            if String.eqb (ProcessedRule.id r) (ProcessedRule.id rule)
            then false
            else
              let otherFingerprintKey :=
                serializeFingerprint (generateRuleFingerprint r) in
              if RuleFingerprint.eq_dec ruleFingerprintKey otherFingerprintKey
              then true else false)
         allRules.

(** [findConflictsInvolvingRule]. *)
Definition findConflictsInvolvingRule (rule : ProcessedRule.t)
    (allRules : list ProcessedRule.t) : list RuleConflict.t :=
  let conflicts := findRuleConflicts allRules in
  filter (fun conflict =>
            String.eqb (ProcessedRule.id (RuleConflict.primary conflict))
              (ProcessedRule.id rule)
            || String.eqb
                 (ProcessedRule.id (RuleConflict.conflicting conflict))
                 (ProcessedRule.id rule))
         conflicts.

End RuleAnalyzer.

(* ================================================================== *)
(** * FirewallPolicyParser (utils/parser.ts): validation and summary *)
(* ================================================================== *)

Module FirewallPolicyParser.
Import JS RuleProcessor.
Local Open Scope string_scope.
Local Open Scope Z_scope.

(** A double quote character. *)
Definition quote : string := String (ascii_of_nat 34) EmptyString.

(** [typeof priority !== 'number' || priority < 100 || priority > 65000];
    a priority of the model is always a number. *)
Definition invalidPriority (priority : Z) : bool :=
  (priority <? 100) || (priority >? 65000).

(** [!name]: the empty string is the only falsy string. *)
Definition missing (name : string) : bool := String.eqb name "".

(** [group.ruleCollections.forEach((collection, collectionIndex) => ...)];
    a [throw] ends the traversal. *)
Fixpoint validateRuleCollections (groupName : string)
    (collections : list RuleCollection.t) (collectionIndex : nat)
  : completion unit :=
  match collections with
  | [] => Returned tt
  | collection :: rest =>
      if missing (RuleCollection.name collection) then
        Thrown ("Rule collection at index " ++ showNat collectionIndex
                ++ " in group " ++ quote ++ groupName ++ quote
                ++ " is missing a name")
      else if invalidPriority (RuleCollection.priority collection) then
        Thrown ("Rule collection " ++ quote ++ RuleCollection.name collection
                ++ quote ++ " has invalid priority: "
                ++ showZ (RuleCollection.priority collection))
      else validateRuleCollections groupName rest (S collectionIndex)
  end.

(** [policy.ruleCollectionGroups.forEach((group, groupIndex) => ...)]. *)
Fixpoint validateRuleCollectionGroups (groups : list RuleCollectionGroup.t)
    (groupIndex : nat) : completion unit :=
  match groups with
  | [] => Returned tt
  | group :: rest =>
      if missing (RuleCollectionGroup.name group) then
        Thrown ("Rule collection group at index " ++ showNat groupIndex
                ++ " is missing a name")
      else if invalidPriority (RuleCollectionGroup.priority group) then
        Thrown ("Rule collection group " ++ quote
                ++ RuleCollectionGroup.name group ++ quote
                ++ " has invalid priority: "
                ++ showZ (RuleCollectionGroup.priority group))
      else
        match validateRuleCollections (RuleCollectionGroup.name group)
                (RuleCollectionGroup.ruleCollections group) 0 with
        | Thrown message => Thrown message
        | Returned _ => validateRuleCollectionGroups rest (S groupIndex)
        end
  end.

Definition validateParsedPolicy (policy : FirewallPolicy.t)
  : completion unit :=
  if missing (FirewallPolicy.name policy) then
    Thrown "Policy name is required"
  else if (List.length (FirewallPolicy.ruleCollectionGroups policy) =? 0)%nat
  then Thrown "No rule collection groups found"
  else validateRuleCollectionGroups
         (FirewallPolicy.ruleCollectionGroups policy) 0.

(** [getPolicySummary].  The members [threatIntelMode], [idpsMode] and
    [sku], copied from [policy.properties], are left out with that
    record. *)
Record RulesByType := mkRulesByType {
  typeDNAT : nat;
  typeNetwork : nat;
  typeApplication : nat
}.

Record PolicySummary := mkPolicySummary {
  totalRuleGroups : nat;
  totalRuleCollections : nat;
  summaryTotalRules : nat;
  rulesByType : RulesByType
}.

(** The counters [totalRules], [natRules], [networkRules],
    [applicationRules]. *)
Record Counters := mkCounters {
  totalRules : nat;
  natRules : nat;
  networkRules : nat;
  applicationRules : nat
}.

(** The [switch (rule.ruleType)]. *)
Definition countRule (k : Counters) (rule : FirewallRule.t) : Counters :=
  let ty := FirewallRule.ruleType rule in
  if String.eqb ty "NatRule" then
    mkCounters (totalRules k) (S (natRules k)) (networkRules k)
      (applicationRules k)
  else if String.eqb ty "NetworkRule" then
    mkCounters (totalRules k) (natRules k) (S (networkRules k))
      (applicationRules k)
  else if String.eqb ty "ApplicationRule" then
    mkCounters (totalRules k) (natRules k) (networkRules k)
      (S (applicationRules k))
  else k.

Definition countCollection (k : Counters) (collection : RuleCollection.t)
  : Counters :=
  let rules := RuleCollection.rules collection in
  fold_left countRule rules
    (mkCounters (totalRules k + List.length rules)%nat (natRules k)
       (networkRules k) (applicationRules k)).

Definition countGroup (k : Counters) (group : RuleCollectionGroup.t)
  : Counters :=
  fold_left countCollection (RuleCollectionGroup.ruleCollections group) k.

Definition getPolicySummary (policy : FirewallPolicy.t) : PolicySummary :=
  let groups := FirewallPolicy.ruleCollectionGroups policy in
  let k := fold_left countGroup groups (mkCounters 0 0 0 0) in
  {| totalRuleGroups := List.length groups;
     totalRuleCollections :=
       fold_left (fun sum group =>
                    (sum + List.length
                             (RuleCollectionGroup.ruleCollections group))%nat)
                 groups 0%nat;
     summaryTotalRules := totalRules k;
     rulesByType := mkRulesByType (natRules k) (networkRules k)
                      (applicationRules k) |}.

End FirewallPolicyParser.


(* ================================================================== *)
(** * Sample policies and rules *)
(* ================================================================== *)

Module Fixtures.
Local Open Scope string_scope.
Local Open Scope Z_scope.

(** The builders of __tests__/testUtils.ts, with their defaults. *)
Definition createNetworkRule (name : string)
    (ipProtocols sourceAddresses destinationAddresses destinationPorts
     : list string) : FirewallRule.t :=
  {| FirewallRule.ruleType := "NetworkRule";
     FirewallRule.name := name;
     FirewallRule.sourceAddresses := Some sourceAddresses;
     FirewallRule.destinationAddresses := Some destinationAddresses;
     FirewallRule.ipProtocols := Some ipProtocols;
     FirewallRule.destinationPorts := Some destinationPorts;
     FirewallRule.destinationFqdns := None;
     FirewallRule.targetFqdns := None |}.

Definition createApplicationRule (name : string)
    (sourceAddresses targetFqdns : list string) : FirewallRule.t :=
  {| FirewallRule.ruleType := "ApplicationRule";
     FirewallRule.name := name;
     FirewallRule.sourceAddresses := Some sourceAddresses;
     FirewallRule.destinationAddresses := None;
     FirewallRule.ipProtocols := None;
     FirewallRule.destinationPorts := None;
     FirewallRule.destinationFqdns := None;
     FirewallRule.targetFqdns := Some targetFqdns |}.

Definition createNatRule (name : string)
    (ipProtocols sourceAddresses destinationAddresses destinationPorts
     : list string) : FirewallRule.t :=
  {| FirewallRule.ruleType := "NatRule";
     FirewallRule.name := name;
     FirewallRule.sourceAddresses := Some sourceAddresses;
     FirewallRule.destinationAddresses := Some destinationAddresses;
     FirewallRule.ipProtocols := Some ipProtocols;
     FirewallRule.destinationPorts := Some destinationPorts;
     FirewallRule.destinationFqdns := None;
     FirewallRule.targetFqdns := None |}.

Definition createFilterRuleCollection (name : string) (priority : Z)
    (action : ActionType) (rules : list FirewallRule.t) : RuleCollection.t :=
  RuleCollection.mk FirewallPolicyFilterRuleCollection name priority action
    rules.

Definition createNatRuleCollection (name : string) (priority : Z)
    (rules : list FirewallRule.t) : RuleCollection.t :=
  RuleCollection.mk FirewallPolicyNatRuleCollection name priority Dnat rules.

Definition allowHTTP : FirewallRule.t :=
  createNetworkRule "AllowHTTP" ["TCP"] ["10.0.0.0/8"] ["*"] ["80"].

(** Scenario A: one group, one Network collection, one rule. *)
Definition minimalPolicy : FirewallPolicy.t :=
  FirewallPolicy.mk "test-policy"
    [ RuleCollectionGroup.mk "TestRuleCollectionGroup" 200
        [ createFilterRuleCollection "TestNetworkRuleCollection" 1000 Allow
            [ allowHTTP ] ] ].

(** Scenario B, parameterised by the priorities of its collections. *)
Definition webServerNAT : FirewallRule.t :=
  createNatRule "WebServerNAT" ["TCP"] ["*"] ["203.0.113.10"] ["8080"].

Definition allowHTTPS : FirewallRule.t :=
  createNetworkRule "AllowHTTPS" ["TCP"] ["10.0.0.0/8"] ["*"] ["443"].

Definition allowMicrosoft : FirewallRule.t :=
  createApplicationRule "AllowMicrosoft" ["10.0.0.0/8"]
    ["*.microsoft.com"; "*.windows.com"].

Definition denyAll : FirewallRule.t :=
  createNetworkRule "DenyAll" ["Any"] ["*"] ["*"] ["*"].

Definition dnatRulesCollection (pNat : Z) : RuleCollection.t :=
  createNatRuleCollection "DNATRules" pNat [ webServerNAT ].

Definition networkRulesCollection (pNet : Z) : RuleCollection.t :=
  createFilterRuleCollection "NetworkRules" pNet Allow
    [ allowHTTP; allowHTTPS ].

Definition applicationRulesCollection (pApp : Z) : RuleCollection.t :=
  createFilterRuleCollection "ApplicationRules" pApp Allow [ allowMicrosoft ].

Definition highPriorityGroup (pNat pNet pApp : Z) : RuleCollectionGroup.t :=
  RuleCollectionGroup.mk "HighPriorityGroup" 100
    [ dnatRulesCollection pNat; networkRulesCollection pNet;
      applicationRulesCollection pApp ].

Definition lowPriorityGroup (pDeny : Z) : RuleCollectionGroup.t :=
  RuleCollectionGroup.mk "LowPriorityGroup" 1000
    [ createFilterRuleCollection "DenyRules" pDeny Deny [ denyAll ] ].

Definition complexPolicy (pNat pNet pApp pDeny : Z) : FirewallPolicy.t :=
  FirewallPolicy.mk "complex-test-policy"
    [ highPriorityGroup pNat pNet pApp; lowPriorityGroup pDeny ].

(** The first processed group of scenario B and two of its members. *)
Definition processedHighPriorityGroup : ProcessedRuleCollectionGroup.t :=
  RuleProcessor.processRuleCollectionGroup (highPriorityGroup 100 200 300)
    false 1.

Definition processedWebServerNAT : ProcessedRule.t :=
  RuleProcessor.processRule DNAT "HighPriorityGroup" 100 false
    (dnatRulesCollection 100) webServerNAT 0 1.

Definition processedAllowHTTP : ProcessedRule.t :=
  RuleProcessor.processRule Network "HighPriorityGroup" 100 false
    (networkRulesCollection 200) allowHTTP 0 2.

Definition processedAllowHTTPS : ProcessedRule.t :=
  RuleProcessor.processRule Network "HighPriorityGroup" 100 false
    (networkRulesCollection 200) allowHTTPS 1 3.

Definition processedDnatRules : ProcessedRuleCollection.t :=
  ProcessedRuleCollection.mk (dnatRulesCollection 100)
    "collection_HighPriorityGroup_DNATRules" "HighPriorityGroup" 100 DNAT
    [ processedWebServerNAT ].

Definition processedNetworkRules : ProcessedRuleCollection.t :=
  ProcessedRuleCollection.mk (networkRulesCollection 200)
    "collection_HighPriorityGroup_NetworkRules" "HighPriorityGroup" 100
    Network [ processedAllowHTTP; processedAllowHTTPS ].

(** The two rules emitted when [minimalPolicy] is both parent and child. *)
Definition minimalCollection : RuleCollection.t :=
  createFilterRuleCollection "TestNetworkRuleCollection" 1000 Allow
    [ allowHTTP ].

Definition minimalGroup : RuleCollectionGroup.t :=
  RuleCollectionGroup.mk "TestRuleCollectionGroup" 200 [ minimalCollection ].

Definition processedMinimalRule (isParentPolicy : bool) : ProcessedRule.t :=
  RuleProcessor.processRule Network "TestRuleCollectionGroup" 200
    isParentPolicy minimalCollection allowHTTP 0 1.

(** Two groups that each hold a single Network rule. *)
Definition twoNetworkGroups : FirewallPolicy.t :=
  FirewallPolicy.mk "two-groups"
    [ RuleCollectionGroup.mk "First" 100
        [ createFilterRuleCollection "NetA" 100 Allow [ allowHTTP ] ];
      RuleCollectionGroup.mk "Second" 200
        [ createFilterRuleCollection "NetB" 100 Allow
            [ createNetworkRule "AllowDNS" ["UDP"] ["10.0.0.0/8"] ["*"]
                ["53"] ] ] ].

(** One group with a NAT collection and an Application collection and no
    Network rule. *)
Definition natAndApplicationPolicy : FirewallPolicy.t :=
  FirewallPolicy.mk "nat-and-application"
    [ RuleCollectionGroup.mk "Edge" 100
        [ dnatRulesCollection 100; applicationRulesCollection 200 ] ].

(** One group with two NAT rules and an Application rule and no Network
    rule, and what the engine makes of the group and of two of its rules. *)
Definition sshNAT : FirewallRule.t :=
  createNatRule "SshNAT" ["TCP"] ["*"] ["203.0.113.10"] ["22"].

Definition twoNatRulesCollection : RuleCollection.t :=
  createNatRuleCollection "DNATRules" 100 [ webServerNAT; sshNAT ].

Definition edgeGroup : RuleCollectionGroup.t :=
  RuleCollectionGroup.mk "Edge" 100
    [ twoNatRulesCollection; applicationRulesCollection 200 ].

Definition twoNatAndApplicationPolicy : FirewallPolicy.t :=
  FirewallPolicy.mk "two-nat-and-application" [ edgeGroup ].

Definition processedEdgeGroup : ProcessedRuleCollectionGroup.t :=
  RuleProcessor.processRuleCollectionGroup edgeGroup false 1.

Definition processedSshNAT : ProcessedRule.t :=
  RuleProcessor.processRule DNAT "Edge" 100 false twoNatRulesCollection
    sshNAT 1 2.

Definition processedAllowMicrosoft : ProcessedRule.t :=
  RuleProcessor.processRule Application "Edge" 100 false
    (applicationRulesCollection 200) allowMicrosoft 0 1.

(** A policy made of [HighPriorityGroup] alone: its only group holds a NAT
    rule and a Network rule. *)
Definition highOnlyPolicy : FirewallPolicy.t :=
  FirewallPolicy.mk "high-only" [ highPriorityGroup 100 200 300 ].

(** A policy whose only rule carries a kind outside the three known ones. *)
Definition futureRule : FirewallRule.t :=
  {| FirewallRule.ruleType := "FutureRule";
     FirewallRule.name := "Mystery";
     FirewallRule.sourceAddresses := Some ["10.0.0.0/8"];
     FirewallRule.destinationAddresses := Some ["*"];
     FirewallRule.ipProtocols := Some ["TCP"];
     FirewallRule.destinationPorts := Some ["80"];
     FirewallRule.destinationFqdns := None;
     FirewallRule.targetFqdns := None |}.

Definition futurePolicy : FirewallPolicy.t :=
  FirewallPolicy.mk "future-policy"
    [ RuleCollectionGroup.mk "G" 100
        [ createFilterRuleCollection "C" 100 Allow [ futureRule ] ] ].

(** A processed Network rule as the ordering engine would emit it. *)
Definition networkProcessed (name collectionName : string)
    (processingOrder : Z)
    (sourceAddresses destinationAddresses destinationPorts ipProtocols
     : list string) (destinationFqdns : option (list string))
  : ProcessedRule.t :=
  {| ProcessedRule.ruleType := "NetworkRule";
     ProcessedRule.name := name;
     ProcessedRule.sourceAddresses := Some sourceAddresses;
     ProcessedRule.destinationAddresses := Some destinationAddresses;
     ProcessedRule.ipProtocols := Some ipProtocols;
     ProcessedRule.destinationPorts := Some destinationPorts;
     ProcessedRule.destinationFqdns := destinationFqdns;
     ProcessedRule.targetFqdns := None;
     ProcessedRule.id := "rule_G_" ++ collectionName ++ "_" ++ name ++ "_0";
     ProcessedRule.collectionName := collectionName;
     ProcessedRule.collectionGroupName := "G";
     ProcessedRule.processingOrder := processingOrder;
     ProcessedRule.ruleCategory := Network;
     ProcessedRule.groupPriority := 100;
     ProcessedRule.collectionPriority := 100;
     ProcessedRule.isParentPolicy := false |}.

(** Two Network rules that agree on sources, ports and protocols, have no
    destination address, and name different destination FQDNs. *)
Definition toSiteA : ProcessedRule.t :=
  networkProcessed "ToSiteA" "Web" 1 ["10.0.0.0/24"] [] ["443"] ["TCP"]
    (Some ["a.example.com"]).

Definition toSiteB : ProcessedRule.t :=
  networkProcessed "ToSiteB" "Web" 2 ["10.0.0.0/24"] [] ["443"] ["TCP"]
    (Some ["b.example.com"]).

(** Two Network rules that agree on sources, ports and protocols and name
    the same destination FQDN, with different destination addresses; the
    name of the second mentions deny. *)
Definition allowX : ProcessedRule.t :=
  networkProcessed "AllowX" "Web" 1 ["10.0.0.0/8"] ["1.1.1.1"] ["443"]
    ["TCP"] (Some ["site.example.com"]).

Definition denyX : ProcessedRule.t :=
  networkProcessed "DenyX" "Web" 2 ["10.0.0.0/8"] ["2.2.2.2"] ["443"]
    ["TCP"] (Some ["site.example.com"]).

(** Two Network rules whose source lists are [a; a] and [a; b]. *)
Definition allowA : ProcessedRule.t :=
  networkProcessed "AllowA" "Web" 1 ["10.0.0.1"; "10.0.0.1"]
    ["10.1.0.0/16"] ["443"] ["TCP"] None.

Definition allowB : ProcessedRule.t :=
  networkProcessed "AllowB" "Web" 2 ["10.0.0.1"; "10.0.0.2"]
    ["10.1.0.0/16"] ["443"] ["TCP"] None.

(** "AllowWeb" and "DenyWeb" with identical addressing. *)
Definition allowWeb : ProcessedRule.t :=
  networkProcessed "AllowWeb" "Web" 1 ["10.0.0.0/8"] ["*"] ["80"] ["TCP"]
    None.

Definition denyWeb : ProcessedRule.t :=
  networkProcessed "DenyWeb" "Web" 2 ["10.0.0.0/8"] ["*"] ["80"] ["TCP"]
    None.

(** Two Network rules that differ in the case of a destination port only,
    and a pair that differs in case, white space and order everywhere but
    in the case of the ports. *)
Definition portUpper : ProcessedRule.t :=
  networkProcessed "PortUpper" "Web" 1 ["10.0.0.0/24"] ["*"] ["HTTPS"]
    ["TCP"] None.

Definition portLower : ProcessedRule.t :=
  networkProcessed "PortLower" "Web" 2 ["10.0.0.0/24"] ["*"] ["https"]
    ["TCP"] None.

Definition tidyRule : ProcessedRule.t :=
  networkProcessed "Tidy" "Web" 1 ["10.0.0.0/24"; "vnet-a"] ["*"]
    ["443"; "80"] ["tcp"] None.

Definition untidyRule : ProcessedRule.t :=
  networkProcessed "Untidy" "Web" 2 [" VNet-A"; "10.0.0.0/24 "] ["*"]
    ["80 "; " 443"] ["TCP"] None.

(** The duplicate group and the conflict record of the two pairs above. *)
Definition tidyGroup : DuplicateGroup.t :=
  {| DuplicateGroup.id := "duplicate_1";
     DuplicateGroup.fingerprint :=
       RuleAnalyzer.generateRuleFingerprint tidyRule;
     DuplicateGroup.rules := [tidyRule; untidyRule];
     DuplicateGroup.type := similar_rules |}.

Definition allowDenyRecord : RuleConflict.t :=
  {| RuleConflict.id := "conflict_1";
     RuleConflict.conflictType := allow_deny_conflict;
     RuleConflict.primary := allowWeb;
     RuleConflict.conflicting := denyWeb;
     RuleConflict.severity := high |}.

(** Two Network rules with disjoint sources. *)
Definition fromLeft : ProcessedRule.t :=
  networkProcessed "FromLeft" "Web" 1 ["10.0.0.0/24"] ["*"] ["80"] ["TCP"]
    None.

Definition fromRight : ProcessedRule.t :=
  networkProcessed "FromRight" "Web" 2 ["10.9.0.0/24"] ["*"] ["80"] ["TCP"]
    None.

End Fixtures.



(* ================================================================== *)
(** * Vocabulary of the statements *)
(* ================================================================== *)

Module Vocabulary.
Import RuleProcessor.
Local Open Scope string_scope.
Local Open Scope Z_scope.

(** The processed rules of a list of processed collections, in order. *)
Definition flatRules (pcs : list ProcessedRuleCollection.t)
  : list ProcessedRule.t :=
  flat_map ProcessedRuleCollection.processedRules pcs.

Definition groupRules (pg : ProcessedRuleCollectionGroup.t)
  : list ProcessedRule.t :=
  flatRules (ProcessedRuleCollectionGroup.processedCollections pg).

(** How many rules of the collections fall in a category. *)
Definition relevantCount (ruleCategory : RuleCategory)
    (cols : list RuleCollection.t) : nat :=
  list_sum (map (fun c => List.length (filter (isRelevant ruleCategory)
                                         (RuleCollection.rules c))) cols).

(** The kind discriminant is one of the three the engine knows. *)
Definition knownKind (ty : string) : Prop :=
  ty = "NatRule" \/ ty = "NetworkRule" \/ ty = "ApplicationRule".

Definition knownKindb (rule : FirewallRule.t) : bool :=
  hasRuleType "NatRule" rule || hasRuleType "NetworkRule" rule
  || hasRuleType "ApplicationRule" rule.

Definition rulesOfGroup (g : RuleCollectionGroup.t) : list FirewallRule.t :=
  flat_map RuleCollection.rules (RuleCollectionGroup.ruleCollections g).

Definition rulesOfPolicy (p : FirewallPolicy.t) : list FirewallRule.t :=
  flat_map rulesOfGroup (FirewallPolicy.ruleCollectionGroups p).

(** Every rule handed to [processFirewallPolicy]. *)
Definition inputRules (policy : FirewallPolicy.t)
    (parentPolicy : option FirewallPolicy.t) : list FirewallRule.t :=
  (match parentPolicy with
   | Some parent => rulesOfPolicy parent
   | None => []
   end) ++ rulesOfPolicy policy.

(** The three stages of [processRuleCollectionGroup] and the value of
    [currentOrder] between them. *)
Definition dnatStage (g : RuleCollectionGroup.t) (isP : bool) (s : Z) :=
  processRuleCollectionsByType
    (filter (hasSome "NatRule") (RuleCollectionGroup.ruleCollections g))
    DNAT (RuleCollectionGroup.name g) (RuleCollectionGroup.priority g) isP s.

Definition networkStart (g : RuleCollectionGroup.t) (isP : bool) (s : Z) :=
  getMaxProcessingOrderFromCollections (dnatStage g isP s) + 1.

Definition networkStage (g : RuleCollectionGroup.t) (isP : bool) (s : Z) :=
  processRuleCollectionsByType
    (filter (hasSome "NetworkRule") (RuleCollectionGroup.ruleCollections g))
    Network (RuleCollectionGroup.name g) (RuleCollectionGroup.priority g) isP
    (networkStart g isP s).

Definition applicationStart (g : RuleCollectionGroup.t) (isP : bool) (s : Z) :=
  getMaxProcessingOrderFromCollections (networkStage g isP s) + 1.

Definition applicationStage (g : RuleCollectionGroup.t) (isP : bool) (s : Z) :=
  processRuleCollectionsByType
    (filter (hasSome "ApplicationRule")
       (RuleCollectionGroup.ruleCollections g))
    Application (RuleCollectionGroup.name g) (RuleCollectionGroup.priority g)
    isP (applicationStart g isP s).

(** The number of rules of a recognised kind in a tagged group. *)
Definition knownOf (p : RuleCollectionGroup.t * bool) : nat :=
  List.length (filter knownKindb (rulesOfGroup (fst p))).

(** The number of rules of a category in a tagged group. *)
Definition relevantOf (cat : RuleCategory)
    (p : RuleCollectionGroup.t * bool) : nat :=
  relevantCount cat (RuleCollectionGroup.ruleCollections (fst p)).

(** What every rule emitted by one stage carries: an order inside the
    stage's window, the stage's category, the group's policy flag and a
    recognised kind. *)
Definition stamped (cat : RuleCategory) (isP : bool) (lo hi : Z)
    (pr : ProcessedRule.t) : Prop :=
  lo <= ProcessedRule.processingOrder pr < hi
  /\ ProcessedRule.ruleCategory pr = cat
  /\ ProcessedRule.isParentPolicy pr = isP
  /\ knownKind (ProcessedRule.ruleType pr).

(** The pairs visited by the two nested loops of [findRuleConflicts], in
    the order they are visited: each rule with every rule after it. *)
Fixpoint allPairs (sortedRules : list ProcessedRule.t)
  : list (ProcessedRule.t * ProcessedRule.t) :=
  match sortedRules with
  | [] => []
  | rule1 :: later => (map (pair rule1) later ++ allPairs later)%list
  end.

(** A conflict record without its [id]. *)
Definition verdict (c : RuleConflict.t)
  : ConflictType * Severity * ProcessedRule.t * ProcessedRule.t :=
  (RuleConflict.conflictType c, RuleConflict.severity c,
   RuleConflict.primary c, RuleConflict.conflicting c).

(** What one visited pair contributes: nothing or one verdict. *)
Definition pairVerdict (p : ProcessedRule.t * ProcessedRule.t)
  : list (ConflictType * Severity * ProcessedRule.t * ProcessedRule.t) :=
  match RuleAnalyzer.detectConflictBetweenRules (fst p) (snd p) with
  | Some (ty, sev) => [(ty, sev, fst p, snd p)]
  | None => []
  end.

(** Two arrays of strings hold the same strings once each string is
    normalised by [norm], whatever their order. *)
Definition sameUpTo (norm : string -> string) (l1 l2 : list string) : Prop :=
  Permutation (map norm l1) (map norm l2).

(** Lower-cased, then trimmed. *)
Definition canon (s : string) : string := JS.trim (JS.toLowerCase s).

(** [w] (a lower-case word) occurs in [s] when case is ignored. *)
Definition containsIgnoringCase (s w : string) : Prop :=
  exists pre mid post,
    s = (pre ++ mid ++ post)%string /\ JS.toLowerCase mid = w.

Definition mentionsDenyOrBlock (rule : ProcessedRule.t) : Prop :=
  containsIgnoringCase (ProcessedRule.name rule) "deny"
  \/ containsIgnoringCase (ProcessedRule.name rule) "block"
  \/ containsIgnoringCase (ProcessedRule.collectionName rule) "deny"
  \/ containsIgnoringCase (ProcessedRule.collectionName rule) "block".

(** Two arrays overlap: one of them is empty ("any") or they share a
    string. *)
Definition overlaps (a b : list string) : Prop :=
  a = [] \/ b = [] \/ exists x, In x a /\ In x b.

(** The destination dimension in the words of the specification:
    destination addresses together with destination FQDNs, normalised. *)
Definition specDestinations (rule : ProcessedRule.t) : list string :=
  (map canon (JS.orEmpty (ProcessedRule.destinationAddresses rule))
   ++ map canon (JS.orEmpty (ProcessedRule.destinationFqdns rule)))%list.

(** The destination dimension the analyzer compares: the fingerprint's
    destination addresses together with its target FQDNs. *)
Definition fingerprintDestinations (fp : RuleFingerprint.t) : list string :=
  (RuleFingerprint.destinationAddresses fp
   ++ RuleFingerprint.targetFqdns fp)%list.

(** The fingerprint in the words of the specification: every list,
    destination ports included, lower-cased, trimmed and sorted. *)
Definition specFingerprint (rule : ProcessedRule.t) : RuleFingerprint.t :=
  {| RuleFingerprint.sourceAddresses :=
       JS.sortStrings
         (map canon (JS.orEmpty (ProcessedRule.sourceAddresses rule)));
     RuleFingerprint.destinationAddresses :=
       JS.sortStrings
         (map canon (JS.orEmpty (ProcessedRule.destinationAddresses rule)));
     RuleFingerprint.destinationPorts :=
       JS.sortStrings
         (map canon (JS.orEmpty (ProcessedRule.destinationPorts rule)));
     RuleFingerprint.ipProtocols :=
       JS.sortStrings
         (map canon (JS.orEmpty (ProcessedRule.ipProtocols rule)));
     RuleFingerprint.targetFqdns :=
       JS.sortStrings
         (map canon (JS.orEmpty (ProcessedRule.targetFqdns rule)));
     RuleFingerprint.ruleType := ProcessedRule.ruleType rule |}.

(** The member count of a duplicate group. *)
Definition memberCount (group : DuplicateGroup.t) : nat :=
  List.length (DuplicateGroup.rules group).

(** The five lists of a fingerprint hold no string twice. *)
Definition withoutRepeats (fp : RuleFingerprint.t) : Prop :=
  NoDup (RuleFingerprint.sourceAddresses fp)
  /\ NoDup (RuleFingerprint.destinationAddresses fp)
  /\ NoDup (RuleFingerprint.targetFqdns fp)
  /\ NoDup (RuleFingerprint.destinationPorts fp)
  /\ NoDup (RuleFingerprint.ipProtocols fp).

(** Ascending by code units. *)
Definition ascending (l : list string) : Prop :=
  Sorted (fun a b => String.leb a b = true) l.

(** [s; s + 1; ...], [n] numbers. *)
Fixpoint countFrom (s : Z) (n : nat) : list Z :=
  match n with
  | O => []
  | S n' => s :: countFrom (s + 1) n'
  end.

(** Name, priority and policy flag of a processed group, and of a tagged
    input group. *)
Definition groupSummary (pg : ProcessedRuleCollectionGroup.t)
  : string * Z * bool :=
  (ProcessedRuleCollectionGroup.name pg,
   ProcessedRuleCollectionGroup.priority pg,
   ProcessedRuleCollectionGroup.isParentPolicy pg).

Definition taggedSummary (p : RuleCollectionGroup.t * bool)
  : string * Z * bool :=
  (RuleCollectionGroup.name (fst p), RuleCollectionGroup.priority (fst p),
   snd p).

(** Parent groups before child groups, then ascending priority. *)
Definition tierLe (a b : string * Z * bool) : Prop :=
  (snd a = true /\ snd b = false)
  \/ (snd a = snd b /\ snd (fst a) <= snd (fst b)).

(** The groups of one tier and one priority. *)
Definition sameTier (isP : bool) (priority : Z) (a : string * Z * bool)
  : bool :=
  Bool.eqb (snd a) isP && (snd (fst a) =? priority).

(** [a] may stay in front of [b] in [allGroups.sort(...)]. *)
Definition groupsLe (a b : RuleCollectionGroup.t * bool) : bool :=
  compareGroups a b <=? 0.

Definition categoryRank (cat : RuleCategory) : Z :=
  match cat with DNAT => 0 | Network => 1 | Application => 2 end.

(** DNAT collections before Network collections before Application
    collections, then ascending priority. *)
Definition collectionLe (a b : ProcessedRuleCollection.t) : Prop :=
  categoryRank (ProcessedRuleCollection.ruleCategory a)
  < categoryRank (ProcessedRuleCollection.ruleCategory b)
  \/ (ProcessedRuleCollection.ruleCategory a
      = ProcessedRuleCollection.ruleCategory b
      /\ ProcessedRuleCollection.priority a
         <= ProcessedRuleCollection.priority b).

(** The category that goes with a kind. *)
Definition categoryOfKind (ty : string) : option RuleCategory :=
  if String.eqb ty "NatRule" then Some DNAT
  else if String.eqb ty "NetworkRule" then Some Network
  else if String.eqb ty "ApplicationRule" then Some Application
  else None.

(** A processed rule stems from rule [r] of collection [c] of group [g]. *)
Definition stemsFrom (pr : ProcessedRule.t) (g : RuleCollectionGroup.t)
    (isP : bool) (c : RuleCollection.t) (r : FirewallRule.t) : Prop :=
  ProcessedRule.ruleType pr = FirewallRule.ruleType r
  /\ ProcessedRule.name pr = FirewallRule.name r
  /\ ProcessedRule.sourceAddresses pr = FirewallRule.sourceAddresses r
  /\ ProcessedRule.destinationAddresses pr
     = FirewallRule.destinationAddresses r
  /\ ProcessedRule.collectionName pr = RuleCollection.name c
  /\ ProcessedRule.collectionPriority pr = RuleCollection.priority c
  /\ ProcessedRule.collectionGroupName pr = RuleCollectionGroup.name g
  /\ ProcessedRule.groupPriority pr = RuleCollectionGroup.priority g
  /\ ProcessedRule.isParentPolicy pr = isP
  /\ categoryOfKind (FirewallRule.ruleType r)
     = Some (ProcessedRule.ruleCategory pr).

(** Group [g] is handed to [processFirewallPolicy], as a parent-policy
    group ([isP = true]) or as a group of the policy itself. *)
Definition groupOf (policy : FirewallPolicy.t)
    (parentPolicy : option FirewallPolicy.t) (g : RuleCollectionGroup.t)
    (isP : bool) : Prop :=
  (isP = true
   /\ exists parent, parentPolicy = Some parent
                     /\ In g (FirewallPolicy.ruleCollectionGroups parent))
  \/ (isP = false /\ In g (FirewallPolicy.ruleCollectionGroups policy)).

(** One processed collection of a stage: built from [c], it carries the
    stage's labels and the processed rules of [c]'s relevant rules. *)
Definition builtFrom (cat : RuleCategory) (gname : string) (gprio : Z)
    (isP : bool) (pc : ProcessedRuleCollection.t) : Prop :=
  ProcessedRuleCollection.ruleCategory pc = cat
  /\ ProcessedRuleCollection.groupName pc = gname
  /\ ProcessedRuleCollection.groupPriority pc = gprio
  /\ exists s',
       ProcessedRuleCollection.processedRules pc
       = fst (mapRules cat gname gprio isP
                (ProcessedRuleCollection.collection pc)
                (filter (isRelevant cat)
                   (RuleCollection.rules
                      (ProcessedRuleCollection.collection pc)))
                0 s').

(** Group [g] holds a rule of kind [ty]. *)
Definition holdsKind (ty : string) (g : RuleCollectionGroup.t) : Prop :=
  exists c r,
    In c (RuleCollectionGroup.ruleCollections g)
    /\ In r (RuleCollection.rules c) /\ FirewallRule.ruleType r = ty.

(** The number of rules of a category in a list of processed rules. *)
Definition countCategory (cat : RuleCategory) (rules : list ProcessedRule.t)
  : nat :=
  List.length
    (filter (fun r => RuleCategory_eqb (ProcessedRule.ruleCategory r) cat)
       rules).

(** A range narrowed with each of the priorities [zs] in turn. *)
Definition narrowAll (zs : list Z) (range : PriorityRange) : PriorityRange :=
  fold_left narrow zs range.

(** What a priority range says of the priorities [zs] it was narrowed
    with: nothing when there are none, otherwise their least and their
    greatest. *)
Definition rangeOver (zs : list Z) (range : PriorityRange) : Prop :=
  (zs = [] /\ range = emptyRange)
  \/ exists lo hi,
       range = mkPriorityRange (Finite lo) (Finite hi)
       /\ In lo zs /\ In hi zs /\ forall z, In z zs -> lo <= z <= hi.

(** The processed collections of a list of processed groups. *)
Definition allCollections (groups : list ProcessedRuleCollectionGroup.t)
  : list ProcessedRuleCollection.t :=
  flat_map ProcessedRuleCollectionGroup.processedCollections groups.

(** The number of groups flagged as parent-policy groups, or not. *)
Definition flagged (isP : bool)
    (groups : list ProcessedRuleCollectionGroup.t) : nat :=
  List.length
    (filter (fun g => Bool.eqb (ProcessedRuleCollectionGroup.isParentPolicy g)
                        isP) groups).

(** Grouping by key in insertion order, as both [Map]s of arrays are
    filled: [push] is one step, [assoc] the lookup, [valuesOf] the values
    filed under a key. *)
Fixpoint push {K V : Type} (eqb : K -> K -> bool) (k : K) (v : V)
    (m : list (K * list V)) : list (K * list V) :=
  match m with
  | [] => [(k, [v])]
  | (k', vs) :: rest =>
      if eqb k' k then (k', (vs ++ [v])%list) :: rest
      else (k', vs) :: push eqb k v rest
  end.

Fixpoint assoc {K V : Type} (eqb : K -> K -> bool) (k : K)
    (m : list (K * list V)) : option (list V) :=
  match m with
  | [] => None
  | (k', vs) :: rest => if eqb k' k then Some vs else assoc eqb k rest
  end.

Definition valuesOf {K V : Type} (eqb : K -> K -> bool) (k : K)
    (items : list (K * V)) : list V :=
  map snd (filter (fun x => eqb (fst x) k) items).

(** What a key holds after [items] were pushed on [m]. *)
Definition extend {V : Type} (o : option (list V)) (l : list V)
  : option (list V) :=
  match l with
  | [] => o
  | _ => Some (match o with Some vs => (vs ++ l)%list | None => l end)
  end.

Definition fingerprintEqb (a b : RuleFingerprint.t) : bool :=
  if RuleFingerprint.eq_dec a b then true else false.

(** The rules of [rules] whose fingerprint is [fp], in order. *)
Definition rulesWith (fp : RuleFingerprint.t) (rules : list ProcessedRule.t)
  : list ProcessedRule.t :=
  filter (fun r => fingerprintEqb (RuleAnalyzer.generateRuleFingerprint r) fp)
         rules.

(** Priority and name of a processed group. *)
Definition priorityAndName (g : ProcessedRuleCollectionGroup.t)
  : Z * string :=
  (ProcessedRuleCollectionGroup.priority g,
   ProcessedRuleCollectionGroup.name g).

(** A rule paired with its fingerprint, as the grouping loop files it. *)
Definition keyed (r : ProcessedRule.t) : RuleFingerprint.t * ProcessedRule.t :=
  (RuleAnalyzer.generateRuleFingerprint r, r).

(** All members agree on name and collection name. *)
Definition sameNameAndCollection (rules : list ProcessedRule.t) : Prop :=
  forall r1 r2, In r1 rules -> In r2 rules ->
    ProcessedRule.name r1 = ProcessedRule.name r2
    /\ ProcessedRule.collectionName r1 = ProcessedRule.collectionName r2.

(** The severity that goes with a conflict type. *)
Definition severityOf (ty : ConflictType) : Severity :=
  match ty with
  | allow_deny_conflict => high
  | priority_conflict => medium
  | overlapping_rules => low
  end.

(** The ids [prefix1], [prefix2], ... handed out by a counter. *)
Definition numberedIds (prefix : string) (n : nat) : list string :=
  map (fun i => (prefix ++ JS.showNat i)%string) (seq 1 n).

(** The type of every warning [validateProcessingOrder] can issue. *)
Definition warningsOfType (ty : string) (ws : list ValidationWarning.t)
  : list ValidationWarning.t :=
  filter (fun w => String.eqb (ValidationWarning.type w) ty) ws.

(** Consecutive processing orders: each rule's order is the order of the
    rule before it plus one. *)
Fixpoint consecutive (orders : list Z) : Prop :=
  match orders with
  | [] => True
  | a :: rest =>
      match rest with
      | [] => True
      | b :: _ => b = a + 1 /\ consecutive rest
      end
  end.

(** A policy passes [validateParsedPolicy]. *)
Definition wellFormedCollection (c : RuleCollection.t) : Prop :=
  RuleCollection.name c <> ""
  /\ 100 <= RuleCollection.priority c <= 65000.

Definition wellFormedGroup (g : RuleCollectionGroup.t) : Prop :=
  RuleCollectionGroup.name g <> ""
  /\ 100 <= RuleCollectionGroup.priority g <= 65000
  /\ Forall wellFormedCollection (RuleCollectionGroup.ruleCollections g).

Definition wellFormedPolicy (p : FirewallPolicy.t) : Prop :=
  FirewallPolicy.name p <> ""
  /\ FirewallPolicy.ruleCollectionGroups p <> []
  /\ Forall wellFormedGroup (FirewallPolicy.ruleCollectionGroups p).

(** The two rules a conflict record names, and whether a pair of rules
    gets a record. *)
Definition pairOf (c : RuleConflict.t) : ProcessedRule.t * ProcessedRule.t :=
  (RuleConflict.primary c, RuleConflict.conflicting c).

Definition inConflict (p : ProcessedRule.t * ProcessedRule.t) : bool :=
  match RuleAnalyzer.detectConflictBetweenRules (fst p) (snd p) with
  | Some _ => true
  | None => false
  end.

(** The state of the conflict loops after some steps: records are appended
    and the counter advances by their number, each record taking the
    counter's value as its id. *)
Definition grows (st st' : RuleAnalyzer.conflictState) : Prop :=
  exists added,
    fst st' = (fst st ++ added)%list
    /\ snd st' = (snd st + List.length added)%nat
    /\ map RuleConflict.id added
       = map (fun i => ("conflict_" ++ JS.showNat i)%string)
             (seq (snd st) (List.length added)).

End Vocabulary.

(* ================================================================== *)
(** * Facts about the JavaScript primitives *)
(* ================================================================== *)

Section SortFacts.
Context {A : Type} (le : A -> A -> bool).

Lemma insertBy_perm (x : A) (l : list A) :
  Permutation (x :: l) (JS.insertBy le x l).
Proof.
  induction l as [|y l IH]; simpl.
  - apply Permutation_refl.
  - destruct (le x y).
    + apply Permutation_refl.
    + eapply perm_trans; [apply perm_swap|].
      now apply perm_skip.
Qed.

Lemma sortBy_perm (l : list A) : Permutation l (JS.sortBy le l).
Proof.
  induction l as [|x l IH]; simpl.
  - constructor.
  - eapply perm_trans; [apply perm_skip, IH | apply insertBy_perm].
Qed.

Lemma sortBy_In (l : list A) (x : A) : In x (JS.sortBy le l) <-> In x l.
Proof.
  split; apply Permutation_in;
    [apply Permutation_sym|]; apply sortBy_perm.
Qed.

Lemma sortBy_length (l : list A) : List.length (JS.sortBy le l) = List.length l.
Proof. symmetry. apply Permutation_length, sortBy_perm. Qed.

(** When [le] is a total order, the sorted array depends on the multiset
    of the elements only. *)
Hypothesis le_total : forall a b, le a b = true \/ le b a = true.
Hypothesis le_antisym : forall a b, le a b = true -> le b a = true -> a = b.
Hypothesis le_trans :
  forall a b c, le a b = true -> le b c = true -> le a c = true.

Lemma insertBy_comm (a b : A) (l : list A) :
  JS.insertBy le a (JS.insertBy le b l) = JS.insertBy le b (JS.insertBy le a l).
Proof.
  induction l as [|y l IH]; simpl.
  - destruct (le a b) eqn:Hab, (le b a) eqn:Hba; simpl;
      try rewrite Hab; try rewrite Hba; try reflexivity.
    + now rewrite (le_antisym _ _ Hab Hba).
    + destruct (le_total a b); congruence.
  - destruct (le b y) eqn:Hby, (le a y) eqn:Hay; simpl.
    + destruct (le a b) eqn:Hab, (le b a) eqn:Hba;
        rewrite ?Hay, ?Hby; try reflexivity.
      * now rewrite (le_antisym _ _ Hab Hba).
      * destruct (le_total a b); congruence.
    + rewrite Hby.
      destruct (le a b) eqn:Hab.
      * rewrite (le_trans _ _ _ Hab Hby) in Hay. discriminate.
      * now rewrite Hay.
    + rewrite Hay.
      destruct (le b a) eqn:Hba.
      * rewrite (le_trans _ _ _ Hba Hay) in Hby. discriminate.
      * now rewrite Hby.
    + rewrite Hay, Hby. now rewrite IH.
Qed.

Lemma sortBy_perm_eq (l1 l2 : list A) :
  Permutation l1 l2 -> JS.sortBy le l1 = JS.sortBy le l2.
Proof.
  induction 1; simpl.
  - reflexivity.
  - now rewrite IHPermutation.
  - apply insertBy_comm.
  - congruence.
Qed.
End SortFacts.

Section StringOrder.

Lemma ascii_compare_refl (c : ascii) : Ascii.compare c c = Eq.
Proof. unfold Ascii.compare. apply N.compare_refl. Qed.

Lemma string_compare_refl (s : string) : String.compare s s = Eq.
Proof.
  induction s as [|c s IH]; simpl; [reflexivity|].
  now rewrite ascii_compare_refl.
Qed.

Lemma string_compare_lt_trans (s1 s2 s3 : string) :
  String.compare s1 s2 = Lt -> String.compare s2 s3 = Lt ->
  String.compare s1 s3 = Lt.
Proof.
  revert s2 s3.
  induction s1 as [|c1 s1 IH]; intros [|c2 s2] [|c3 s3]; simpl;
    try congruence.
  unfold Ascii.compare.
  destruct (N.compare_spec (N_of_ascii c1) (N_of_ascii c2)) as [E12|L12|G12];
    destruct (N.compare_spec (N_of_ascii c2) (N_of_ascii c3)) as [E23|L23|G23];
    try congruence; intros H12 H23.
  - rewrite E12, E23, N.compare_refl. eauto.
  - rewrite E12. now apply N.compare_lt_iff in L23 as ->.
  - rewrite <- E23. now apply N.compare_lt_iff in L12 as ->.
  - assert (L13 : (N_of_ascii c1 < N_of_ascii c3)%N) by lia.
    now apply N.compare_lt_iff in L13 as ->.
Qed.

Lemma string_leb_trans (a b c : string) :
  String.leb a b = true -> String.leb b c = true -> String.leb a c = true.
Proof.
  unfold String.leb.
  destruct (String.compare a b) eqn:Hab; try discriminate;
    destruct (String.compare b c) eqn:Hbc; try discriminate; intros _ _.
  - apply String.compare_eq_iff in Hab, Hbc. subst.
    now rewrite string_compare_refl.
  - apply String.compare_eq_iff in Hab. subst. now rewrite Hbc.
  - apply String.compare_eq_iff in Hbc. subst. now rewrite Hab.
  - now rewrite (string_compare_lt_trans _ _ _ Hab Hbc).
Qed.

(** [arr.sort()] returns the same array for every ordering of the same
    strings. *)
Lemma sortStrings_perm_eq (l1 l2 : list string) :
  Permutation l1 l2 -> JS.sortStrings l1 = JS.sortStrings l2.
Proof.
  apply sortBy_perm_eq.
  - apply String.leb_total.
  - apply String.leb_antisym.
  - apply string_leb_trans.
Qed.

Lemma sortStrings_perm (l : list string) : Permutation l (JS.sortStrings l).
Proof. apply sortBy_perm. Qed.

End StringOrder.

Section IncludesFacts.

Lemma prefix_append (t s : string) :
  String.prefix t s = true <-> exists post, s = (t ++ post)%string.
Proof.
  revert s. induction t as [|c t IH]; intros s.
  - split; [intros _; now exists s | intros _; now destruct s].
  - destruct s as [|d s]; simpl.
    + split; [discriminate | intros [post H]; discriminate].
    + destruct (Ascii.ascii_dec c d) as [->|Hne].
      * rewrite IH. split; intros [post H]; exists post; congruence.
      * split; [discriminate | intros [post H]; congruence].
Qed.

Lemma includes_unfold (s t : string) :
  JS.includes s t =
  if String.prefix t s then true
  else match s with
       | EmptyString => false
       | String _ s' => JS.includes s' t
       end.
Proof. destruct s; reflexivity. Qed.

(** [includes] decides the occurrence of a contiguous substring. *)
Lemma includes_spec (s t : string) :
  JS.includes s t = true <->
  exists pre post, s = (pre ++ t ++ post)%string.
Proof.
  induction s as [|c s IH]; rewrite includes_unfold.
  - destruct (String.prefix t "") eqn:Hp.
    + split; [intros _|reflexivity].
      apply prefix_append in Hp as [post Hp]. now exists ""%string, post.
    + split; [discriminate|].
      intros [pre [post H]].
      destruct pre; simpl in H; [|discriminate].
      assert (String.prefix t "" = true)
        by (apply prefix_append; now exists post).
      congruence.
  - destruct (String.prefix t (String c s)) eqn:Hp.
    + split; [intros _|reflexivity].
      apply prefix_append in Hp as [post Hp]. now exists ""%string, post.
    + rewrite IH. split.
      * intros [pre [post H]]. exists (String c pre), post. simpl. now f_equal.
      * intros [pre [post H]].
        destruct pre as [|d pre]; simpl in H.
        -- assert (String.prefix t (String c s) = true)
             by (apply prefix_append; now exists post).
           congruence.
        -- injection H as _ H. now exists pre, post.
Qed.

End IncludesFacts.


(* ================================================================== *)
(** * The ordering engine: counters, bounds and categories *)
(* ================================================================== *)

Section MaxFacts.
Import RuleProcessor Vocabulary.
Local Open Scope Z_scope.

Lemma fold_max_ge_init (l : list Z) (m : Z) : m <= fold_left Z.max l m.
Proof.
  revert m. induction l as [|x l IH]; intros m; simpl; [lia|].
  specialize (IH (Z.max m x)). lia.
Qed.

Lemma fold_max_ge_elem (l : list Z) (m x : Z) :
  In x l -> x <= fold_left Z.max l m.
Proof.
  revert m. induction l as [|y l IH]; intros m; simpl; [tauto|].
  intros [->|Hin].
  - pose proof (fold_max_ge_init l (Z.max m x)). lia.
  - now apply IH.
Qed.

Lemma fold_max_cases (l : list Z) (m : Z) :
  fold_left Z.max l m = m \/ In (fold_left Z.max l m) l.
Proof.
  revert m. induction l as [|y l IH]; intros m; simpl; [now left|].
  destruct (IH (Z.max m y)) as [E|Hin].
  - rewrite E. destruct (Z.max_spec m y) as [[_ ->]|[_ ->]]; auto.
  - auto.
Qed.

Lemma maxOverRules_fold (m : Z) (rules : list ProcessedRule.t) :
  maxOverRules m rules
  = fold_left Z.max (map ProcessedRule.processingOrder rules) m.
Proof.
  unfold maxOverRules. revert m.
  induction rules as [|r rules IH]; intros m; simpl; [reflexivity|].
  rewrite IH. f_equal.
  destruct (Z.gtb_spec (ProcessedRule.processingOrder r) m); lia.
Qed.

Lemma maxOverCollections_fold (pcs : list ProcessedRuleCollection.t) (m : Z) :
  fold_left (fun m c =>
               maxOverRules m (ProcessedRuleCollection.processedRules c))
            pcs m
  = fold_left Z.max (map ProcessedRule.processingOrder (flatRules pcs)) m.
Proof.
  revert m. induction pcs as [|c pcs IH]; intros m; simpl; [reflexivity|].
  rewrite IH, map_app, fold_left_app, maxOverRules_fold. reflexivity.
Qed.

Lemma getMax_fold (pcs : list ProcessedRuleCollection.t) :
  getMaxProcessingOrderFromCollections pcs
  = fold_left Z.max (map ProcessedRule.processingOrder (flatRules pcs)) 0.
Proof. apply maxOverCollections_fold. Qed.

Lemma getMax_nonneg (pcs : list ProcessedRuleCollection.t) :
  0 <= getMaxProcessingOrderFromCollections pcs.
Proof. rewrite getMax_fold. apply fold_max_ge_init. Qed.

Lemma getMax_ge (pcs : list ProcessedRuleCollection.t) (pr : ProcessedRule.t) :
  In pr (flatRules pcs) ->
  ProcessedRule.processingOrder pr <= getMaxProcessingOrderFromCollections pcs.
Proof.
  intros Hin. rewrite getMax_fold.
  apply fold_max_ge_elem, in_map, Hin.
Qed.

Lemma getMax_cases (pcs : list ProcessedRuleCollection.t) :
  getMaxProcessingOrderFromCollections pcs = 0
  \/ exists pr, In pr (flatRules pcs)
                /\ ProcessedRule.processingOrder pr
                   = getMaxProcessingOrderFromCollections pcs.
Proof.
  rewrite getMax_fold.
  destruct (fold_max_cases
              (map ProcessedRule.processingOrder (flatRules pcs)) 0)
    as [E|Hin]; [now left|right].
  apply in_map_iff in Hin as [pr [E Hin]]. now exists pr.
Qed.

Lemma getMaxProcessingOrder_group (pg : ProcessedRuleCollectionGroup.t) :
  getMaxProcessingOrder pg
  = getMaxProcessingOrderFromCollections
      (ProcessedRuleCollectionGroup.processedCollections pg).
Proof. reflexivity. Qed.

End MaxFacts.

Section StageFacts.
Import RuleProcessor Vocabulary.
Local Open Scope Z_scope.

Variables (cat : RuleCategory) (gname : string) (gprio : Z) (isP : bool).

Lemma stamped_weaken (lo hi lo' hi' : Z) (pr : ProcessedRule.t) :
  lo' <= lo -> hi <= hi' ->
  stamped cat isP lo hi pr -> stamped cat isP lo' hi' pr.
Proof. unfold stamped. intuition lia. Qed.

Lemma isRelevant_known (rule : FirewallRule.t) :
  isRelevant cat rule = true -> knownKind (FirewallRule.ruleType rule).
Proof.
  unfold isRelevant, hasRuleType, knownKind.
  destruct cat; intros H; apply String.eqb_eq in H; auto.
Qed.

Lemma mapRules_snd (c : RuleCollection.t) (rules : list FirewallRule.t)
    (idx : nat) (s : Z) :
  snd (mapRules cat gname gprio isP c rules idx s)
  = s + Z.of_nat (List.length rules).
Proof.
  revert idx s. induction rules as [|r rules IH]; intros idx s.
  - simpl. lia.
  - cbn [mapRules].
    specialize (IH (S idx) (s + 1)).
    destruct (mapRules cat gname gprio isP c rules (S idx) (s + 1))
      as [prs o]. simpl in *. lia.
Qed.

Lemma mapRules_length (c : RuleCollection.t) (rules : list FirewallRule.t)
    (idx : nat) (s : Z) :
  List.length (fst (mapRules cat gname gprio isP c rules idx s))
  = List.length rules.
Proof.
  revert idx s. induction rules as [|r rules IH]; intros idx s.
  - reflexivity.
  - cbn [mapRules].
    specialize (IH (S idx) (s + 1)).
    destruct (mapRules cat gname gprio isP c rules (S idx) (s + 1))
      as [prs o]. simpl in *. lia.
Qed.

Lemma mapRules_stamped (c : RuleCollection.t) (rules : list FirewallRule.t)
    (idx : nat) (s : Z) :
  Forall (fun r => isRelevant cat r = true) rules ->
  Forall (stamped cat isP s (s + Z.of_nat (List.length rules)))
         (fst (mapRules cat gname gprio isP c rules idx s)).
Proof.
  revert idx s. induction rules as [|r rules IH]; intros idx s Hrel.
  - constructor.
  - cbn [mapRules].
    inversion Hrel as [|? ? Hr Hrest]; subst.
    specialize (IH (S idx) (s + 1) Hrest).
    destruct (mapRules cat gname gprio isP c rules (S idx) (s + 1))
      as [prs o]. simpl fst in *.
    constructor.
    + unfold stamped, processRule; simpl.
      repeat split; try lia. now apply isRelevant_known.
    + eapply Forall_impl; [|exact IH].
      intros pr. apply stamped_weaken; simpl List.length; lia.
Qed.

Lemma mapCollections_snd (cols : list RuleCollection.t) (s : Z) :
  snd (mapCollections cat gname gprio isP cols s)
  = s + Z.of_nat (relevantCount cat cols).
Proof.
  revert s. induction cols as [|c cols IH]; intros s.
  - simpl. lia.
  - cbn [mapCollections].
    pose proof (mapRules_snd c
                  (filter (isRelevant cat) (RuleCollection.rules c)) 0 s)
      as Hs.
    destruct (mapRules cat gname gprio isP c
                (filter (isRelevant cat) (RuleCollection.rules c)) 0 s)
      as [prs o]. simpl in Hs.
    specialize (IH o).
    destruct (mapCollections cat gname gprio isP cols o) as [pcs o'].
    simpl in *. unfold relevantCount in *. simpl. lia.
Qed.

Lemma mapCollections_count (cols : list RuleCollection.t) (s : Z) :
  List.length (flatRules (fst (mapCollections cat gname gprio isP cols s)))
  = relevantCount cat cols.
Proof.
  revert s. induction cols as [|c cols IH]; intros s.
  - reflexivity.
  - cbn [mapCollections].
    pose proof (mapRules_length c
                  (filter (isRelevant cat) (RuleCollection.rules c)) 0 s)
      as Hl.
    destruct (mapRules cat gname gprio isP c
                (filter (isRelevant cat) (RuleCollection.rules c)) 0 s)
      as [prs o]. simpl in Hl.
    specialize (IH o).
    destruct (mapCollections cat gname gprio isP cols o) as [pcs o'].
    simpl in *. unfold flatRules, relevantCount in *. simpl.
    rewrite length_app. lia.
Qed.

Lemma mapCollections_stamped (cols : list RuleCollection.t) (s : Z) :
  Forall (stamped cat isP s (s + Z.of_nat (relevantCount cat cols)))
         (flatRules (fst (mapCollections cat gname gprio isP cols s))).
Proof.
  revert s. induction cols as [|c cols IH]; intros s.
  - constructor.
  - cbn [mapCollections].
    set (rel := filter (isRelevant cat) (RuleCollection.rules c)).
    assert (Hrel : Forall (fun r => isRelevant cat r = true) rel).
    { apply Forall_forall. intros r Hr. now apply filter_In in Hr. }
    pose proof (mapRules_snd c rel 0 s) as Hs.
    pose proof (mapRules_stamped c rel 0 s Hrel) as Hst.
    destruct (mapRules cat gname gprio isP c rel 0 s) as [prs o].
    simpl in Hs, Hst.
    specialize (IH o).
    destruct (mapCollections cat gname gprio isP cols o) as [pcs o'].
    simpl in *. unfold flatRules in *. simpl.
    assert (Hc : relevantCount cat (c :: cols)
                 = (List.length rel + relevantCount cat cols)%nat)
      by reflexivity.
    rewrite Hc. apply Forall_app. split.
    + eapply Forall_impl; [|exact Hst].
      intros pr. apply stamped_weaken; lia.
    + eapply Forall_impl; [|exact IH].
      intros pr. apply stamped_weaken; lia.
Qed.

Lemma relevantCount_perm (l1 l2 : list RuleCollection.t) :
  Permutation l1 l2 -> relevantCount cat l1 = relevantCount cat l2.
Proof.
  unfold relevantCount. induction 1; simpl; lia.
Qed.

Lemma byType_count (cols : list RuleCollection.t) (s : Z) :
  List.length
    (flatRules (processRuleCollectionsByType cols cat gname gprio isP s))
  = relevantCount cat cols.
Proof.
  unfold processRuleCollectionsByType, JS.sortWith.
  rewrite mapCollections_count.
  symmetry. apply relevantCount_perm, sortBy_perm.
Qed.

Lemma byType_stamped (cols : list RuleCollection.t) (s : Z) :
  Forall (stamped cat isP s (s + Z.of_nat (relevantCount cat cols)))
         (flatRules (processRuleCollectionsByType cols cat gname gprio isP s)).
Proof.
  unfold processRuleCollectionsByType, JS.sortWith.
  match goal with
  | |- context [JS.sortBy ?le cols] =>
      rewrite (relevantCount_perm _ _ (sortBy_perm le cols))
  end.
  apply mapCollections_stamped.
Qed.

(** The counter value recomputed after a stage never runs ahead of the
    old counter advanced by the number of rules emitted. *)
Lemma byType_next_bounds (cols : list RuleCollection.t) (s : Z) :
  1 <= s ->
  1 <= getMaxProcessingOrderFromCollections
         (processRuleCollectionsByType cols cat gname gprio isP s) + 1
    <= s + Z.of_nat (relevantCount cat cols).
Proof.
  intros Hs.
  set (pcs := processRuleCollectionsByType cols cat gname gprio isP s).
  pose proof (byType_stamped cols s) as Hst. fold pcs in Hst.
  rewrite Forall_forall in Hst.
  pose proof (getMax_nonneg pcs).
  destruct (getMax_cases pcs) as [E|[pr [Hin E]]].
  - lia.
  - apply Hst in Hin. unfold stamped in Hin. lia.
Qed.

End StageFacts.


Section GroupFacts.
Import RuleProcessor Vocabulary.
Local Open Scope string_scope.
Local Open Scope Z_scope.
Local Open Scope list_scope.

Lemma filter_nil_existsb {A : Type} (f : A -> bool) (l : list A) :
  existsb f l = false -> filter f l = [].
Proof.
  induction l as [|x l IH]; simpl; [reflexivity|].
  destruct (f x); simpl; [discriminate|exact IH].
Qed.

(** A bucket holds every collection that contributes a rule of its
    category, so bucketing loses none of them. *)
Lemma relevantCount_bucket (cat : RuleCategory) (ty : string)
    (cols : list RuleCollection.t) :
  (forall r, isRelevant cat r = hasRuleType ty r) ->
  relevantCount cat (filter (hasSome ty) cols) = relevantCount cat cols.
Proof.
  intros Hty. unfold relevantCount.
  induction cols as [|c cols IH]; simpl; [reflexivity|].
  destruct (hasSome ty c) eqn:Hs; simpl.
  - now rewrite IH.
  - rewrite IH.
    unfold hasSome in Hs.
    rewrite (filter_ext _ _ Hty), (filter_nil_existsb _ _ Hs).
    reflexivity.
Qed.

Lemma relevant_split (rules : list FirewallRule.t) :
  (List.length (filter (isRelevant DNAT) rules)
   + List.length (filter (isRelevant Network) rules)
   + List.length (filter (isRelevant Application) rules))%nat
  = List.length (filter knownKindb rules).
Proof.
  induction rules as [|r rules IH]; simpl; [reflexivity|].
  unfold knownKindb, hasRuleType in *.
  destruct (String.eqb_spec (FirewallRule.ruleType r) "NatRule") as [E|N1];
    [rewrite E; simpl; lia|].
  destruct (String.eqb_spec (FirewallRule.ruleType r) "NetworkRule")
    as [E|N2]; [rewrite E; simpl; lia|].
  destruct (String.eqb_spec (FirewallRule.ruleType r) "ApplicationRule")
    as [E|N3]; simpl; lia.
Qed.

Lemma relevantCount_known (cols : list RuleCollection.t) :
  (relevantCount DNAT cols + relevantCount Network cols
   + relevantCount Application cols)%nat
  = List.length (filter knownKindb (flat_map RuleCollection.rules cols)).
Proof.
  unfold relevantCount.
  induction cols as [|c cols IH]; simpl; [reflexivity|].
  rewrite filter_app, length_app, <- IH, <- relevant_split. lia.
Qed.

Variables (g : RuleCollectionGroup.t) (isP : bool) (s : Z).

Lemma group_collections :
  ProcessedRuleCollectionGroup.processedCollections
    (processRuleCollectionGroup g isP s)
  = dnatStage g isP s ++ networkStage g isP s ++ applicationStage g isP s.
Proof. reflexivity. Qed.

Lemma groupRules_stages :
  groupRules (processRuleCollectionGroup g isP s)
  = flatRules (dnatStage g isP s) ++ flatRules (networkStage g isP s)
    ++ flatRules (applicationStage g isP s).
Proof.
  unfold groupRules. rewrite group_collections.
  unfold flatRules. now rewrite !flat_map_app.
Qed.

Let cols := RuleCollectionGroup.ruleCollections g.
Let cD := relevantCount DNAT cols.
Let cN := relevantCount Network cols.
Let cA := relevantCount Application cols.

Lemma dnatStage_stamped :
  Forall (stamped DNAT isP s (s + Z.of_nat cD)) (flatRules (dnatStage g isP s)).
Proof.
  unfold dnatStage, cD.
  rewrite <- (relevantCount_bucket DNAT "NatRule" cols) by reflexivity.
  apply byType_stamped.
Qed.

Lemma networkStage_stamped :
  Forall (stamped Network isP (networkStart g isP s)
            (networkStart g isP s + Z.of_nat cN))
         (flatRules (networkStage g isP s)).
Proof.
  unfold networkStage, cN.
  rewrite <- (relevantCount_bucket Network "NetworkRule" cols) by reflexivity.
  apply byType_stamped.
Qed.

Lemma applicationStage_stamped :
  Forall (stamped Application isP (applicationStart g isP s)
            (applicationStart g isP s + Z.of_nat cA))
         (flatRules (applicationStage g isP s)).
Proof.
  unfold applicationStage, cA.
  rewrite <- (relevantCount_bucket Application "ApplicationRule" cols)
    by reflexivity.
  apply byType_stamped.
Qed.

Lemma networkStart_bounds :
  1 <= s -> 1 <= networkStart g isP s <= s + Z.of_nat cD.
Proof.
  intros Hs. unfold networkStart, dnatStage, cD.
  rewrite <- (relevantCount_bucket DNAT "NatRule" cols) by reflexivity.
  now apply byType_next_bounds.
Qed.

Lemma applicationStart_bounds :
  1 <= s ->
  1 <= applicationStart g isP s <= s + Z.of_nat cD + Z.of_nat cN.
Proof.
  intros Hs. pose proof (networkStart_bounds Hs) as Hn.
  unfold applicationStart, networkStage.
  pose proof (byType_next_bounds Network (RuleCollectionGroup.name g)
                (RuleCollectionGroup.priority g) isP
                (filter (hasSome "NetworkRule") cols)
                (networkStart g isP s) (proj1 Hn)) as Hb.
  rewrite (relevantCount_bucket Network "NetworkRule" cols) in Hb
    by reflexivity.
  fold cN in Hb. unfold cols in *. lia.
Qed.

Lemma group_emitted_count :
  List.length (groupRules (processRuleCollectionGroup g isP s))
  = List.length (filter knownKindb (rulesOfGroup g)).
Proof.
  rewrite groupRules_stages, !length_app.
  unfold dnatStage, networkStage, applicationStage.
  rewrite !byType_count.
  rewrite (relevantCount_bucket DNAT "NatRule") by reflexivity.
  rewrite (relevantCount_bucket Network "NetworkRule") by reflexivity.
  rewrite (relevantCount_bucket Application "ApplicationRule") by reflexivity.
  unfold rulesOfGroup. rewrite <- relevantCount_known. lia.
Qed.

(** Every rule of a processed group: its order lies between 1 and the
    starting order advanced by the rules the group emits; it carries the
    group's policy flag and a recognised kind. *)
Lemma group_rule_bounds (pr : ProcessedRule.t) :
  1 <= s ->
  In pr (groupRules (processRuleCollectionGroup g isP s)) ->
  1 <= ProcessedRule.processingOrder pr
    < s + Z.of_nat (List.length (filter knownKindb (rulesOfGroup g)))
  /\ ProcessedRule.isParentPolicy pr = isP
  /\ knownKind (ProcessedRule.ruleType pr).
Proof.
  intros Hs Hin.
  unfold rulesOfGroup. rewrite <- relevantCount_known.
  fold cols. fold cD cN cA.
  pose proof (networkStart_bounds Hs) as HN.
  pose proof (applicationStart_bounds Hs) as HA.
  rewrite groupRules_stages in Hin.
  apply in_app_or in Hin as [Hin|Hin]; [|apply in_app_or in Hin as [Hin|Hin]].
  - pose proof dnatStage_stamped as H. rewrite Forall_forall in H.
    apply H in Hin. unfold stamped in Hin. intuition lia.
  - pose proof networkStage_stamped as H. rewrite Forall_forall in H.
    apply H in Hin. unfold stamped in Hin. intuition lia.
  - pose proof applicationStage_stamped as H. rewrite Forall_forall in H.
    apply H in Hin. unfold stamped in Hin. intuition lia.
Qed.

Lemma group_next_start :
  1 <= getMaxProcessingOrder (processRuleCollectionGroup g isP s) + 1.
Proof.
  rewrite getMaxProcessingOrder_group.
  pose proof (getMax_nonneg
                (ProcessedRuleCollectionGroup.processedCollections
                   (processRuleCollectionGroup g isP s))). lia.
Qed.

(** Inside one processed group the three categories occupy consecutive
    stages, and each stage starts above the largest order of the stage
    before it. *)
Lemma group_category_order (r1 r2 : ProcessedRule.t) :
  In r1 (groupRules (processRuleCollectionGroup g isP s)) ->
  In r2 (groupRules (processRuleCollectionGroup g isP s)) ->
  (ProcessedRule.ruleCategory r1 = DNAT ->
   ProcessedRule.ruleCategory r2 = Network ->
   ProcessedRule.processingOrder r1 < ProcessedRule.processingOrder r2)
  /\ (ProcessedRule.ruleCategory r1 = Network ->
      ProcessedRule.ruleCategory r2 = Application ->
      ProcessedRule.processingOrder r1 < ProcessedRule.processingOrder r2).
Proof.
  intros H1 H2.
  pose proof dnatStage_stamped as HD. rewrite Forall_forall in HD.
  pose proof networkStage_stamped as HN. rewrite Forall_forall in HN.
  pose proof applicationStage_stamped as HA. rewrite Forall_forall in HA.
  rewrite groupRules_stages in H1, H2.
  split; intros C1 C2.
  - assert (I1 : In r1 (flatRules (dnatStage g isP s))).
    { apply in_app_or in H1 as [H1|H1]; [exact H1|].
      apply in_app_or in H1 as [H1|H1];
        [apply HN in H1|apply HA in H1]; unfold stamped in H1;
        destruct H1 as (_ & E & _); congruence. }
    assert (I2 : In r2 (flatRules (networkStage g isP s))).
    { apply in_app_or in H2 as [H2|H2];
        [apply HD in H2; unfold stamped in H2;
         destruct H2 as (_ & E & _); congruence|].
      apply in_app_or in H2 as [H2|H2]; [exact H2|].
      apply HA in H2. unfold stamped in H2.
      destruct H2 as (_ & E & _); congruence. }
    apply getMax_ge in I1. apply HN in I2. unfold stamped in I2.
    unfold networkStart in I2. lia.
  - assert (I1 : In r1 (flatRules (networkStage g isP s))).
    { apply in_app_or in H1 as [H1|H1];
        [apply HD in H1; unfold stamped in H1;
         destruct H1 as (_ & E & _); congruence|].
      apply in_app_or in H1 as [H1|H1]; [exact H1|].
      apply HA in H1. unfold stamped in H1.
      destruct H1 as (_ & E & _); congruence. }
    assert (I2 : In r2 (flatRules (applicationStage g isP s))).
    { apply in_app_or in H2 as [H2|H2];
        [apply HD in H2; unfold stamped in H2;
         destruct H2 as (_ & E & _); congruence|].
      apply in_app_or in H2 as [H2|H2]; [|exact H2].
      apply HN in H2. unfold stamped in H2.
      destruct H2 as (_ & E & _); congruence. }
    apply getMax_ge in I1. apply HA in I2. unfold stamped in I2.
    unfold applicationStart in I2. lia.
Qed.

End GroupFacts.


Section PolicyFacts.
Import RuleProcessor Vocabulary.
Local Open Scope string_scope.
Local Open Scope Z_scope.
Local Open Scope list_scope.

Lemma emittedRules_groupRules (pgs : list ProcessedRuleCollectionGroup.t) :
  emittedRules pgs = flat_map groupRules pgs.
Proof. reflexivity. Qed.

(** Every processed group is [processRuleCollectionGroup] of an input group
    at a starting order of at least 1. *)
Lemma mapGroups_In (gs : list (RuleCollectionGroup.t * bool)) (s : Z)
    (pg : ProcessedRuleCollectionGroup.t) :
  1 <= s -> In pg (mapGroups gs s) ->
  exists g isP s',
    In (g, isP) gs /\ 1 <= s' /\ pg = processRuleCollectionGroup g isP s'.
Proof.
  revert s. induction gs as [|[g isP] gs IH]; intros s Hs Hin; simpl in Hin.
  - contradiction.
  - destruct Hin as [<-|Hin].
    + exists g, isP, s. simpl. auto.
    + apply IH in Hin; [|apply group_next_start].
      destruct Hin as (g' & isP' & s' & Hin & Hs' & E).
      exists g', isP', s'. simpl. auto.
Qed.

Lemma processFirewallPolicy_In (policy : FirewallPolicy.t)
    (parentPolicy : option FirewallPolicy.t)
    (pg : ProcessedRuleCollectionGroup.t) :
  In pg (processFirewallPolicy policy parentPolicy) ->
  exists g isP s',
    In (g, isP) (collectGroups policy parentPolicy)
    /\ 1 <= s' /\ pg = processRuleCollectionGroup g isP s'.
Proof.
  unfold processFirewallPolicy. intros Hin.
  apply mapGroups_In in Hin; [|lia].
  destruct Hin as (g & isP & s' & Hin & Hs & E).
  exists g, isP, s'. split; [|auto].
  unfold JS.sortWith in Hin. now apply sortBy_In in Hin.
Qed.

Lemma mapGroups_count (gs : list (RuleCollectionGroup.t * bool)) (s : Z) :
  List.length (emittedRules (mapGroups gs s)) = list_sum (map knownOf gs).
Proof.
  revert s. induction gs as [|[g isP] gs IH]; intros s.
  - reflexivity.
  - cbn [mapGroups map list_sum].
    rewrite emittedRules_groupRules. cbn [flat_map].
    rewrite length_app, <- emittedRules_groupRules, IH, group_emitted_count.
    reflexivity.
Qed.

Lemma knownOf_perm (l1 l2 : list (RuleCollectionGroup.t * bool)) :
  Permutation l1 l2 -> list_sum (map knownOf l1) = list_sum (map knownOf l2).
Proof. induction 1; simpl; lia. Qed.

Lemma knownOf_tagged (b : bool) (gs : list RuleCollectionGroup.t) :
  list_sum (map knownOf (map (fun g => (g, b)) gs))
  = List.length (filter knownKindb (flat_map rulesOfGroup gs)).
Proof.
  induction gs as [|g gs IH]; simpl; [reflexivity|].
  rewrite filter_app, length_app, IH. reflexivity.
Qed.

Lemma processFirewallPolicy_count (policy : FirewallPolicy.t)
    (parentPolicy : option FirewallPolicy.t) :
  List.length (emittedRules (processFirewallPolicy policy parentPolicy))
  = List.length (filter knownKindb (inputRules policy parentPolicy)).
Proof.
  unfold processFirewallPolicy, JS.sortWith.
  rewrite mapGroups_count.
  rewrite <- (knownOf_perm _ _ (sortBy_perm _ _)).
  unfold collectGroups, inputRules, rulesOfPolicy.
  rewrite map_app, list_sum_app, filter_app, length_app, knownOf_tagged.
  destruct parentPolicy as [parent|]; simpl.
  - now rewrite knownOf_tagged.
  - reflexivity.
Qed.

End PolicyFacts.

(* ================================================================== *)
(** * Properties of the ordering engine *)
(* ================================================================== *)

Section OrderingClaims.
Import RuleProcessor Vocabulary Fixtures.
Local Open Scope string_scope.
Local Open Scope Z_scope.
Local Open Scope list_scope.

(** C1 (evaluation at a failing input).  For the policy [twoNetworkGroups]
    (two groups, each holding one Network rule) the processing orders read
    in emission order are 1, 1: the counter restarts at 1 in the second
    group because the DNAT stage of that group emits nothing, so the orders
    are neither unique nor strictly increasing. *)
Theorem processingOrder_reused_across_groups :
  map ProcessedRule.processingOrder
      (emittedRules (processFirewallPolicy twoNetworkGroups None))
  = [1; 1]
  /\ ~ NoDup (map ProcessedRule.processingOrder
                (emittedRules (processFirewallPolicy twoNetworkGroups None))).
Proof.
  assert (E : map ProcessedRule.processingOrder
                (emittedRules (processFirewallPolicy twoNetworkGroups None))
              = [1; 1]) by (vm_compute; reflexivity).
  split; [exact E|].
  rewrite E. intros H. inversion H as [|? ? Hnot _]; subst.
  apply Hnot. now left.
Qed.

(** C2 (evaluation at the scenario-B input).  Whatever the priorities of
    the four collections, the engine emits five rules in the order NAT,
    Network, Network, Application, Network(deny), and the statistics count
    DNAT 1, Network 3, Application 1; the processing orders however are
    1, 2, 3, 4, 1 and not 1..5, because the counter restarts at 1 in
    LowPriorityGroup. *)
Theorem scenario_B_evaluation (pNat pNet pApp pDeny : Z) :
  let out := processFirewallPolicy (complexPolicy pNat pNet pApp pDeny) None in
  map (fun r => (ProcessedRule.name r, ProcessedRule.ruleCategory r,
                 ProcessedRule.processingOrder r))
      (emittedRules out)
  = [ ("WebServerNAT", DNAT, 1); ("AllowHTTP", Network, 2);
      ("AllowHTTPS", Network, 3); ("AllowMicrosoft", Application, 4);
      ("DenyAll", Network, 1) ]
  /\ rulesByCategory (getProcessingStatistics out) = mkRulesByCategory 1 3 1.
Proof.
  split; vm_compute; reflexivity.
Qed.

(** Neighbouring categories.  In every processed group of the output of
    [processFirewallPolicy], each DNAT-category rule has a smaller
    [processingOrder] than each Network-category rule of the group, and
    each Network-category rule a smaller one than each Application-category
    rule of the group. *)
Lemma neighbouring_categories_in_order
    (policy : FirewallPolicy.t) (parentPolicy : option FirewallPolicy.t)
    (pg : ProcessedRuleCollectionGroup.t)
    (c1 c2 : ProcessedRuleCollection.t) (r1 r2 : ProcessedRule.t) :
  In pg (processFirewallPolicy policy parentPolicy) ->
  In c1 (ProcessedRuleCollectionGroup.processedCollections pg) ->
  In r1 (ProcessedRuleCollection.processedRules c1) ->
  In c2 (ProcessedRuleCollectionGroup.processedCollections pg) ->
  In r2 (ProcessedRuleCollection.processedRules c2) ->
  (ProcessedRule.ruleCategory r1 = DNAT ->
   ProcessedRule.ruleCategory r2 = Network ->
   ProcessedRule.processingOrder r1 < ProcessedRule.processingOrder r2)
  /\ (ProcessedRule.ruleCategory r1 = Network ->
      ProcessedRule.ruleCategory r2 = Application ->
      ProcessedRule.processingOrder r1 < ProcessedRule.processingOrder r2).
Proof.
  intros Hpg Hc1 Hr1 Hc2 Hr2.
  apply processFirewallPolicy_In in Hpg as (g & isP & s & _ & _ & ->).
  apply (group_category_order g isP s); unfold groupRules, flatRules;
    apply in_flat_map; eauto.
Qed.

(** C3 (evaluation at a failing input).  The policy
    [twoNatAndApplicationPolicy] has one group, Edge, with the NAT rules
    WebServerNAT and SshNAT and the Application rule AllowMicrosoft, and no
    Network rule.  The engine gives them the processing orders 1, 2 and 1:
    the Network stage of the group emits nothing, so the counter restarts
    at 1 for the Application stage, and the Application rule AllowMicrosoft
    carries a smaller processing order than the DNAT rule SshNAT of the
    same group. *)
Theorem application_rule_overtakes_dnat_rule :
  let out := processFirewallPolicy twoNatAndApplicationPolicy None in
  map ProcessedRuleCollectionGroup.name out = ["Edge"]
  /\ map (fun r => (ProcessedRule.name r, ProcessedRule.ruleCategory r,
                    ProcessedRule.processingOrder r))
         (emittedRules out)
     = [ ("WebServerNAT", DNAT, 1); ("SshNAT", DNAT, 2);
         ("AllowMicrosoft", Application, 1) ]
  /\ exists (pg : ProcessedRuleCollectionGroup.t) (d a : ProcessedRule.t),
       In pg out
       /\ In d (groupRules pg) /\ In a (groupRules pg)
       /\ ProcessedRule.ruleCategory d = DNAT
       /\ ProcessedRule.ruleCategory a = Application
       /\ ProcessedRule.processingOrder a < ProcessedRule.processingOrder d.
Proof.
  cbv zeta. split; [vm_compute; reflexivity|].
  split; [vm_compute; reflexivity|].
  exists processedEdgeGroup, processedSshNAT, processedAllowMicrosoft.
  split; [vm_compute; left; reflexivity|].
  split; [vm_compute; right; left; reflexivity|].
  split; [vm_compute; right; right; left; reflexivity|].
  split; [reflexivity|]. split; [reflexivity|].
  vm_compute. reflexivity.
Qed.

(** A group with one NAT rule and one Application rule and no Network rule
    gives both the order 1. *)
Remark dnat_and_application_may_share_an_order :
  map (fun r => (ProcessedRule.ruleCategory r,
                 ProcessedRule.processingOrder r))
      (emittedRules (processFirewallPolicy natAndApplicationPolicy None))
  = [(DNAT, 1); (Application, 1)].
Proof. vm_compute. reflexivity. Qed.

(** C4 (as amended).  [processFirewallPolicy] returns for every input and
    never raises; every rule it emits has one of the three recognised
    kinds, and it emits exactly as many rules as the input holds rules of
    a recognised kind: a rule of any other kind is left out silently. *)
Theorem unknown_kinds_are_skipped
    (policy : FirewallPolicy.t) (parentPolicy : option FirewallPolicy.t) :
  let out := processFirewallPolicy policy parentPolicy in
  runProcessFirewallPolicy policy parentPolicy = Returned out
  /\ (forall pr, In pr (emittedRules out) ->
                 knownKind (ProcessedRule.ruleType pr))
  /\ List.length (emittedRules out)
     = List.length (filter knownKindb (inputRules policy parentPolicy)).
Proof.
  cbv zeta. split; [reflexivity|]. split.
  - intros pr Hin. rewrite emittedRules_groupRules in Hin.
    apply in_flat_map in Hin as (pg & Hpg & Hin).
    apply processFirewallPolicy_In in Hpg as (g & isP & s & _ & Hs & ->).
    now apply (group_rule_bounds g isP s pr Hs) in Hin.
  - apply processFirewallPolicy_count.
Qed.

(** C4 (counterexample).  [futurePolicy] holds a rule of kind "FutureRule";
    the call returns, raises nothing, and the rule is absent from the
    output. *)
Lemma unknown_kind_not_rejected :
  In futureRule (inputRules futurePolicy None)
  /\ ~ knownKind (FirewallRule.ruleType futureRule)
  /\ (forall message,
        runProcessFirewallPolicy futurePolicy None <> Thrown message)
  /\ exists out,
       runProcessFirewallPolicy futurePolicy None = Returned out
       /\ emittedRules out = [].
Proof.
  split; [simpl; auto|]. split.
  - unfold knownKind. simpl. intros [H|[H|H]]; discriminate.
  - split; [intros message; discriminate|].
    eexists. split; [reflexivity|]. vm_compute. reflexivity.
Qed.

(** C8.  When the parent policy and the child policy each consist of one
    rule collection group holding one rule, every rule that the output
    flags as coming from the parent has a [processingOrder] not above that
    of any rule flagged as coming from the child, whatever the priorities
    of the two groups. *)
Theorem parent_precedes_child
    (child parent : FirewallPolicy.t) (gp gc : RuleCollectionGroup.t)
    (rp rc : ProcessedRule.t) :
  FirewallPolicy.ruleCollectionGroups parent = [gp] ->
  FirewallPolicy.ruleCollectionGroups child = [gc] ->
  List.length (rulesOfGroup gp) = 1%nat ->
  List.length (rulesOfGroup gc) = 1%nat ->
  In rp (emittedRules (processFirewallPolicy child (Some parent))) ->
  In rc (emittedRules (processFirewallPolicy child (Some parent))) ->
  ProcessedRule.isParentPolicy rp = true ->
  ProcessedRule.isParentPolicy rc = false ->
  ProcessedRule.processingOrder rp <= ProcessedRule.processingOrder rc.
Proof.
  intros Hp Hc Lp _ Hrp Hrc Fp Fc.
  unfold processFirewallPolicy, collectGroups in Hrp, Hrc.
  rewrite Hp, Hc in Hrp, Hrc.
  cbn [map app JS.sortWith JS.sortBy JS.insertBy compareGroups snd fst
       andb negb Z.leb Z.compare Z.opp mapGroups] in Hrp, Hrc.
  rewrite emittedRules_groupRules in Hrp, Hrc.
  cbn [flat_map] in Hrp, Hrc. rewrite app_nil_r in Hrp, Hrc.
  set (s2 := getMaxProcessingOrder (processRuleCollectionGroup gp true 1) + 1)
    in *.
  assert (Hs2 : 1 <= s2) by apply group_next_start.
  assert (H1 : (1 <= 1)%Z) by lia.
  assert (Bp : ProcessedRule.processingOrder rp <= 1).
  { apply in_app_or in Hrp as [Hrp|Hrp].
    - apply (group_rule_bounds gp true 1 rp H1) in Hrp as [Hb _].
      pose proof (filter_length_le knownKindb (rulesOfGroup gp)). lia.
    - apply (group_rule_bounds gc false s2 rp Hs2) in Hrp as (_ & E & _).
      congruence. }
  assert (Bc : 1 <= ProcessedRule.processingOrder rc).
  { apply in_app_or in Hrc as [Hrc|Hrc].
    - now apply (group_rule_bounds gp true 1 rc H1) in Hrc as [Hb _].
    - now apply (group_rule_bounds gc false s2 rc Hs2) in Hrc as [Hb _]. }
  lia.
Qed.

Lemma parent_precedes_child_witness :
  ProcessedRule.processingOrder (processedMinimalRule true)
  <= ProcessedRule.processingOrder (processedMinimalRule false).
Proof.
  apply (parent_precedes_child minimalPolicy minimalPolicy minimalGroup
           minimalGroup).
  - reflexivity.
  - reflexivity.
  - reflexivity.
  - reflexivity.
  - vm_compute. left. reflexivity.
  - vm_compute. right. left. reflexivity.
  - reflexivity.
  - reflexivity.
Defined.

End OrderingClaims.


(* ================================================================== *)
(** * The analyzer: overlap tests and the pair loop *)
(* ================================================================== *)

Section OverlapFacts.
Import RuleAnalyzer Vocabulary.
Local Open Scope list_scope.

Lemma arrayIncludes_In (arr : list string) (item : string) :
  JS.arrayIncludes arr item = true <-> In item arr.
Proof.
  unfold JS.arrayIncludes. rewrite existsb_exists. split.
  - intros [x [Hin E]]. apply String.eqb_eq in E. now subst.
  - intros Hin. exists item. split; [exact Hin|apply String.eqb_refl].
Qed.

Lemma hasArrayOverlap_spec (a b : list string) :
  hasArrayOverlap a b = true <-> overlaps a b.
Proof.
  unfold hasArrayOverlap, overlaps.
  destruct a as [|x a]; [simpl; tauto|].
  destruct b as [|y b]; [simpl; tauto|].
  cbn [List.length Nat.eqb orb].
  rewrite existsb_exists. split.
  - intros [z [Hz Hin]]. apply arrayIncludes_In in Hin. eauto.
  - intros [H|[H|[z [Hz Hin]]]]; try discriminate.
    exists z. split; [exact Hz|now apply arrayIncludes_In].
Qed.

Lemma hasOverlappingTrafficPattern_spec (fp1 fp2 : RuleFingerprint.t) :
  hasOverlappingTrafficPattern fp1 fp2 = true <->
  overlaps (RuleFingerprint.sourceAddresses fp1)
           (RuleFingerprint.sourceAddresses fp2)
  /\ overlaps (fingerprintDestinations fp1) (fingerprintDestinations fp2)
  /\ overlaps (RuleFingerprint.destinationPorts fp1)
              (RuleFingerprint.destinationPorts fp2)
  /\ overlaps (RuleFingerprint.ipProtocols fp1)
              (RuleFingerprint.ipProtocols fp2).
Proof.
  rewrite <- !hasArrayOverlap_spec.
  unfold hasOverlappingTrafficPattern, fingerprintDestinations.
  destruct (hasArrayOverlap (RuleFingerprint.sourceAddresses fp1) _);
    cbn [negb]; [|intuition discriminate].
  destruct (hasArrayOverlap (_ ++ _) _); cbn [negb];
    [|intuition discriminate].
  destruct (hasArrayOverlap (RuleFingerprint.destinationPorts fp1) _);
    cbn [negb]; [|intuition discriminate].
  destruct (hasArrayOverlap (RuleFingerprint.ipProtocols fp1) _);
    cbn [negb]; intuition discriminate.
Qed.

Lemma detect_not_overlapping (rule1 rule2 : ProcessedRule.t) :
  hasOverlappingTrafficPattern (generateRuleFingerprint rule1)
    (generateRuleFingerprint rule2) = false ->
  detectConflictBetweenRules rule1 rule2 = None.
Proof.
  intros H. unfold detectConflictBetweenRules. rewrite H.
  now destruct (negb _).
Qed.

Lemma detect_some_inv (rule1 rule2 : ProcessedRule.t)
    (v : ConflictType * Severity) :
  detectConflictBetweenRules rule1 rule2 = Some v ->
  ProcessedRule.ruleType rule1 = ProcessedRule.ruleType rule2
  /\ hasOverlappingTrafficPattern (generateRuleFingerprint rule1)
       (generateRuleFingerprint rule2) = true.
Proof.
  unfold detectConflictBetweenRules.
  destruct (String.eqb_spec (ProcessedRule.ruleType rule1)
              (ProcessedRule.ruleType rule2)) as [E|NE];
    cbn [negb]; [|discriminate].
  destruct (hasOverlappingTrafficPattern _ _); cbn [negb];
    [auto|discriminate].
Qed.

Lemma detect_allow_deny (rule1 rule2 : ProcessedRule.t) :
  ProcessedRule.ruleType rule1 = "NetworkRule"%string ->
  ProcessedRule.ruleType rule2 = "NetworkRule"%string ->
  hasOverlappingTrafficPattern (generateRuleFingerprint rule1)
    (generateRuleFingerprint rule2) = true ->
  getRuleAction rule1 <> getRuleAction rule2 ->
  detectConflictBetweenRules rule1 rule2 = Some (allow_deny_conflict, high).
Proof.
  intros T1 T2 Hov Hact. unfold detectConflictBetweenRules.
  rewrite T1, T2, Hov, String.eqb_refl. cbn [negb orb andb].
  apply String.eqb_neq in Hact. now rewrite Hact.
Qed.

End OverlapFacts.

Section LoopFacts.
Import RuleAnalyzer Vocabulary.
Local Open Scope list_scope.

Lemma comparePair_verdict (rule1 rule2 : ProcessedRule.t)
    (st : conflictState) :
  map verdict (fst (comparePair rule1 rule2 st))
  = map verdict (fst st) ++ pairVerdict (rule1, rule2).
Proof.
  unfold comparePair, pairVerdict. cbn [fst snd].
  destruct (detectConflictBetweenRules rule1 rule2) as [[ty sev]|].
  - cbn [fst]. rewrite map_app. reflexivity.
  - now rewrite app_nil_r.
Qed.

Lemma innerLoop_verdict (rule1 : ProcessedRule.t)
    (later : list ProcessedRule.t) (st : conflictState) :
  map verdict (fst (innerLoop rule1 later st))
  = map verdict (fst st) ++ flat_map pairVerdict (map (pair rule1) later).
Proof.
  revert st. induction later as [|rule2 later IH]; intros st; simpl.
  - now rewrite app_nil_r.
  - now rewrite IH, comparePair_verdict, <- app_assoc.
Qed.

Lemma outerLoop_verdict (sortedRules : list ProcessedRule.t)
    (st : conflictState) :
  map verdict (fst (outerLoop sortedRules st))
  = map verdict (fst st) ++ flat_map pairVerdict (allPairs sortedRules).
Proof.
  revert st. induction sortedRules as [|rule1 later IH]; intros st; simpl.
  - now rewrite app_nil_r.
  - now rewrite IH, innerLoop_verdict, flat_map_app, <- app_assoc.
Qed.

(** The conflicts reported are, in order, what [detectConflictBetweenRules]
    says of each pair [i < j] of the rules sorted by processing order. *)
Lemma findRuleConflicts_verdicts (rules : list ProcessedRule.t) :
  map verdict (findRuleConflicts rules)
  = flat_map pairVerdict (allPairs (sortByProcessingOrder rules)).
Proof. unfold findRuleConflicts. now rewrite outerLoop_verdict. Qed.

Lemma conflict_from_pair (rules : list ProcessedRule.t) (c : RuleConflict.t) :
  In c (findRuleConflicts rules) ->
  In (RuleConflict.primary c, RuleConflict.conflicting c)
     (allPairs (sortByProcessingOrder rules))
  /\ detectConflictBetweenRules (RuleConflict.primary c)
       (RuleConflict.conflicting c)
     = Some (RuleConflict.conflictType c, RuleConflict.severity c).
Proof.
  intros Hin. apply (in_map verdict) in Hin.
  rewrite findRuleConflicts_verdicts in Hin.
  apply in_flat_map in Hin as ([r1 r2] & Hp & Hv).
  unfold pairVerdict in Hv. cbn [fst snd] in Hv.
  destruct (detectConflictBetweenRules r1 r2) as [[ty sev]|] eqn:Hd;
    [|contradiction].
  destruct Hv as [Hv|[]]. unfold verdict in Hv.
  injection Hv as -> -> -> ->. auto.
Qed.

Lemma pair_reported (rules : list ProcessedRule.t)
    (rule1 rule2 : ProcessedRule.t) (ty : ConflictType) (sev : Severity) :
  In (rule1, rule2) (allPairs (sortByProcessingOrder rules)) ->
  detectConflictBetweenRules rule1 rule2 = Some (ty, sev) ->
  exists c, In c (findRuleConflicts rules)
            /\ verdict c = (ty, sev, rule1, rule2).
Proof.
  intros Hp Hd.
  assert (Hin : In (ty, sev, rule1, rule2)
                   (map verdict (findRuleConflicts rules))).
  { rewrite findRuleConflicts_verdicts. apply in_flat_map.
    exists (rule1, rule2). split; [exact Hp|].
    unfold pairVerdict. cbn [fst snd]. rewrite Hd. now left. }
  apply in_map_iff in Hin as (c & Hv & Hc). eauto.
Qed.

Lemma allPairs_In (l1 l2 l3 : list ProcessedRule.t)
    (rule1 rule2 : ProcessedRule.t) :
  In (rule1, rule2) (allPairs (l1 ++ rule1 :: l2 ++ rule2 :: l3)).
Proof.
  induction l1 as [|x l1 IH]; simpl.
  - apply in_or_app. left. apply in_map, in_or_app. right. now left.
  - apply in_or_app. now right.
Qed.

Lemma pairVerdict_length (p : ProcessedRule.t * ProcessedRule.t) :
  (List.length (pairVerdict p) <= 1)%nat.
Proof.
  unfold pairVerdict.
  destruct (detectConflictBetweenRules _ _) as [[ty sev]|]; simpl; lia.
Qed.

Lemma flat_map_length_le {A B : Type} (f : A -> list B) (l : list A) :
  (forall x, List.length (f x) <= 1)%nat ->
  (List.length (flat_map f l) <= List.length l)%nat.
Proof.
  intros Hf. induction l as [|x l IH]; simpl; [lia|].
  rewrite length_app. specialize (Hf x). lia.
Qed.

(** At most one record per visited pair. *)
Lemma findRuleConflicts_length (rules : list ProcessedRule.t) :
  (List.length (findRuleConflicts rules)
   <= List.length (allPairs (sortByProcessingOrder rules)))%nat.
Proof.
  rewrite <- (length_map verdict), findRuleConflicts_verdicts.
  apply flat_map_length_le, pairVerdict_length.
Qed.

End LoopFacts.


Section CaseFacts.
Import Vocabulary.
Local Open Scope string_scope.

Lemma toLowerCase_app (a b : string) :
  JS.toLowerCase (a ++ b) = JS.toLowerCase a ++ JS.toLowerCase b.
Proof.
  induction a as [|c a IH]; simpl; [reflexivity|]. now rewrite IH.
Qed.

Lemma toLowerCase_app_inv (s a b : string) :
  JS.toLowerCase s = a ++ b ->
  exists s1 s2,
    s = s1 ++ s2 /\ JS.toLowerCase s1 = a /\ JS.toLowerCase s2 = b.
Proof.
  revert s. induction a as [|c a IH]; intros s H; simpl in H.
  - exists "", s. auto.
  - destruct s as [|d s]; simpl in H; [discriminate|].
    injection H as Hc H.
    apply IH in H as (s1 & s2 & -> & H1 & H2).
    exists (String d s1), s2. simpl. rewrite Hc, H1. auto.
Qed.

(** The test [s.toLowerCase().includes(w)] is the case-insensitive
    occurrence of [w] in [s]. *)
Lemma includes_ignoring_case (s w : string) :
  JS.includes (JS.toLowerCase s) w = true <-> containsIgnoringCase s w.
Proof.
  rewrite includes_spec. unfold containsIgnoringCase. split.
  - intros (pre & post & H).
    apply toLowerCase_app_inv in H as (s1 & s2 & -> & _ & H2).
    apply toLowerCase_app_inv in H2 as (m & q & -> & Hm & _).
    now exists s1, m, q.
  - intros (pre & mid & post & -> & Hm).
    exists (JS.toLowerCase pre), (JS.toLowerCase post).
    now rewrite !toLowerCase_app, Hm.
Qed.

End CaseFacts.

Section SortedFacts.
Import Vocabulary.

Lemma insertBy_HdRel (x y : string) (l : list string) :
  String.leb y x = true ->
  HdRel (fun a b => String.leb a b = true) y l ->
  HdRel (fun a b => String.leb a b = true) y (JS.insertBy String.leb x l).
Proof.
  intros Hyx Hd. destruct l as [|z l]; simpl.
  - now constructor.
  - destruct (String.leb x z); constructor; auto.
    now inversion Hd.
Qed.

Lemma insertBy_ascending (x : string) (l : list string) :
  ascending l -> ascending (JS.insertBy String.leb x l).
Proof.
  unfold ascending. induction 1 as [|y l Hs IH Hd]; simpl.
  - repeat constructor.
  - destruct (String.leb x y) eqn:Hxy.
    + constructor; [now constructor|now constructor].
    + constructor; [exact IH|].
      apply insertBy_HdRel; [|exact Hd].
      destruct (String.leb_total x y); congruence.
Qed.

Lemma sortStrings_ascending (l : list string) : ascending (JS.sortStrings l).
Proof.
  unfold JS.sortStrings. induction l as [|x l IH]; simpl.
  - constructor.
  - now apply insertBy_ascending.
Qed.

(** The normalised list holds the normalised strings, in ascending
    order; two lists normalise to the same list exactly when they agree up
    to normalisation and order. *)
Lemma normalised_eq_iff (norm : string -> string) (l1 l2 : list string) :
  JS.sortStrings (map norm l1) = JS.sortStrings (map norm l2)
  <-> sameUpTo norm l1 l2.
Proof.
  unfold sameUpTo. split.
  - intros E.
    eapply perm_trans; [apply sortStrings_perm|].
    rewrite E. apply Permutation_sym, sortStrings_perm.
  - apply sortStrings_perm_eq.
Qed.

End SortedFacts.


Section IdenticalPatterns.
Import RuleAnalyzer Vocabulary.
Local Open Scope list_scope.

Lemma arraysEqual_spec (a b : list string) :
  arraysEqual a b = true <-> List.length a = List.length b /\ incl a b.
Proof.
  unfold arraysEqual.
  destruct (Nat.eqb_spec (List.length a) (List.length b)) as [E|NE];
    cbn [negb].
  - rewrite forallb_forall. split.
    + intros H. split; [exact E|].
      intros x Hx. now apply arrayIncludes_In, H.
    + intros [_ H] x Hx. now apply arrayIncludes_In, H.
  - split; [discriminate|tauto].
Qed.

Lemma arraysEqual_refl (a : list string) : arraysEqual a a = true.
Proof. apply arraysEqual_spec. split; [reflexivity|apply incl_refl]. Qed.

Lemma insertBy_head (x : string) (l : list string) :
  HdRel (fun a b => String.leb a b = true) x l ->
  JS.insertBy String.leb x l = x :: l.
Proof.
  destruct l as [|y l]; simpl; [reflexivity|].
  intros H. inversion H as [|? ? Hxy]; subst. now rewrite Hxy.
Qed.

Lemma sortStrings_fixed (l : list string) :
  ascending l -> JS.sortStrings l = l.
Proof.
  unfold ascending, JS.sortStrings.
  induction 1 as [|x l Hs IH Hd]; simpl; [reflexivity|].
  rewrite IH. now apply insertBy_head.
Qed.

(** On sorted arrays the first of which has no repeated entry,
    [arraysEqual] is equality. *)
Lemma arraysEqual_without_repeats (a b : list string) :
  ascending a -> ascending b -> NoDup a ->
  arraysEqual a b = true -> a = b.
Proof.
  intros Sa Sb Na H. apply arraysEqual_spec in H as [Hlen Hincl].
  assert (Nb : NoDup b).
  { apply (NoDup_incl_NoDup Na); [lia|exact Hincl]. }
  assert (Hback : incl b a).
  { apply (NoDup_length_incl Na); [lia|exact Hincl]. }
  assert (P : Permutation a b).
  { apply NoDup_Permutation; auto. intros x. split; auto. }
  rewrite <- (sortStrings_fixed a Sa), <- (sortStrings_fixed b Sb).
  now apply sortStrings_perm_eq.
Qed.

Lemma equal_fingerprints_identical (fp1 fp2 : RuleFingerprint.t) :
  fp1 = fp2 -> areTrafficPatternsIdentical fp1 fp2 = true.
Proof.
  intros ->. unfold areTrafficPatternsIdentical.
  now rewrite !arraysEqual_refl.
Qed.

(** For rules of one kind, when the earlier fingerprint holds no repeated
    entry, [areTrafficPatternsIdentical] is equality of fingerprints. *)
Lemma identical_iff_equal_without_repeats (rule1 rule2 : ProcessedRule.t) :
  ProcessedRule.ruleType rule1 = ProcessedRule.ruleType rule2 ->
  withoutRepeats (generateRuleFingerprint rule1) ->
  areTrafficPatternsIdentical (generateRuleFingerprint rule1)
    (generateRuleFingerprint rule2) = true
  <-> generateRuleFingerprint rule1 = generateRuleFingerprint rule2.
Proof.
  intros Hty (N1 & N2 & N3 & N4 & N5).
  split; [|apply equal_fingerprints_identical].
  unfold areTrafficPatternsIdentical. rewrite !andb_true_iff.
  intros [[[[E1 E2] E3] E4] E5].
  revert N1 N2 N3 N4 N5 E1 E2 E3 E4 E5.
  unfold generateRuleFingerprint, normalizeAddresses, normalizePorts,
    normalizeProtocols, normalizeFqdns;
    cbn [RuleFingerprint.sourceAddresses
         RuleFingerprint.destinationAddresses RuleFingerprint.destinationPorts
         RuleFingerprint.ipProtocols RuleFingerprint.targetFqdns].
  intros N1 N2 N3 N4 N5 E1 E2 E3 E4 E5.
  apply arraysEqual_without_repeats in E1, E2, E3, E4, E5;
    try apply sortStrings_ascending; try assumption.
  now rewrite E1, E2, E3, E4, E5, Hty.
Qed.

(** How an overlapping pair of one kind is classified. *)
Lemma detect_classification (rule1 rule2 : ProcessedRule.t) :
  ProcessedRule.ruleType rule1 = ProcessedRule.ruleType rule2 ->
  hasOverlappingTrafficPattern (generateRuleFingerprint rule1)
    (generateRuleFingerprint rule2) = true ->
  detectConflictBetweenRules rule1 rule2 <> Some (allow_deny_conflict, high) ->
  (ProcessedRule.processingOrder rule1 < ProcessedRule.processingOrder rule2)%Z
  /\ areTrafficPatternsIdentical (generateRuleFingerprint rule1)
       (generateRuleFingerprint rule2) = true
  /\ detectConflictBetweenRules rule1 rule2 = Some (priority_conflict, medium)
  \/ ~ ((ProcessedRule.processingOrder rule1
         < ProcessedRule.processingOrder rule2)%Z
        /\ areTrafficPatternsIdentical (generateRuleFingerprint rule1)
             (generateRuleFingerprint rule2) = true)
     /\ detectConflictBetweenRules rule1 rule2 = Some (overlapping_rules, low).
Proof.
  intros Hty Hov. unfold detectConflictBetweenRules.
  rewrite Hty, String.eqb_refl, Hov. cbn [negb].
  destruct (_ && negb _)%bool; [congruence|]. intros _.
  destruct (Z.ltb_spec (ProcessedRule.processingOrder rule1)
              (ProcessedRule.processingOrder rule2)) as [Hlt|Hge];
    cbn [andb].
  - destruct (areTrafficPatternsIdentical _ _) eqn:Hid.
    + left. auto.
    + right. split; [|reflexivity]. intros [_ H]. discriminate.
  - right. split; [|reflexivity]. intros [H _]. lia.
Qed.

End IdenticalPatterns.


(* ================================================================== *)
(** * Properties of the analyzer *)
(* ================================================================== *)

Section AnalyzerClaims.
Import RuleAnalyzer Vocabulary Fixtures.
Local Open Scope string_scope.
Local Open Scope Z_scope.
Local Open Scope list_scope.

Lemma fingerprint_neq_by_dec (a b : RuleFingerprint.t) :
  (if RuleFingerprint.eq_dec a b then false else true) = true -> a <> b.
Proof. destruct (RuleFingerprint.eq_dec a b); [discriminate|auto]. Qed.

(** C5 (as amended).  An empty array on either side of a dimension counts
    as overlapping, otherwise the two arrays must share a string.  Two
    rules are traffic-overlapping exactly when the four dimensions of their
    fingerprints overlap: source addresses, destination addresses together
    with target FQDNs, destination ports, ip protocols.  A pair that is not
    traffic-overlapping gets no conflict, and every conflict record of
    [findRuleConflicts] joins two rules of the same kind that are
    traffic-overlapping. *)
Theorem traffic_overlap_gates_conflicts :
  (forall a b : list string, hasArrayOverlap a b = true <-> overlaps a b)
  /\ (forall rule1 rule2 : ProcessedRule.t,
        let fp1 := generateRuleFingerprint rule1 in
        let fp2 := generateRuleFingerprint rule2 in
        hasOverlappingTrafficPattern fp1 fp2 = true <->
        overlaps (RuleFingerprint.sourceAddresses fp1)
                 (RuleFingerprint.sourceAddresses fp2)
        /\ overlaps (RuleFingerprint.destinationAddresses fp1
                     ++ RuleFingerprint.targetFqdns fp1)
                    (RuleFingerprint.destinationAddresses fp2
                     ++ RuleFingerprint.targetFqdns fp2)
        /\ overlaps (RuleFingerprint.destinationPorts fp1)
                    (RuleFingerprint.destinationPorts fp2)
        /\ overlaps (RuleFingerprint.ipProtocols fp1)
                    (RuleFingerprint.ipProtocols fp2))
  /\ (forall rule1 rule2 : ProcessedRule.t,
        hasOverlappingTrafficPattern (generateRuleFingerprint rule1)
          (generateRuleFingerprint rule2) = false ->
        detectConflictBetweenRules rule1 rule2 = None)
  /\ (forall (rules : list ProcessedRule.t) (c : RuleConflict.t),
        In c (findRuleConflicts rules) ->
        ProcessedRule.ruleType (RuleConflict.primary c)
        = ProcessedRule.ruleType (RuleConflict.conflicting c)
        /\ hasOverlappingTrafficPattern
             (generateRuleFingerprint (RuleConflict.primary c))
             (generateRuleFingerprint (RuleConflict.conflicting c)) = true).
Proof.
  split; [exact hasArrayOverlap_spec|]. split.
  - intros rule1 rule2. cbv zeta. apply hasOverlappingTrafficPattern_spec.
  - split; [exact detect_not_overlapping|].
    intros rules c Hin.
    apply conflict_from_pair in Hin as [_ Hd].
    now apply detect_some_inv in Hd.
Qed.

Lemma traffic_overlap_gates_conflicts_witness :
  detectConflictBetweenRules fromLeft fromRight = None.
Proof.
  apply (proj1 (proj2 (proj2 traffic_overlap_gates_conflicts))).
  vm_compute. reflexivity.
Defined.

(** C5 (counterexample).  [toSiteA] and [toSiteB] are Network rules whose
    destination addresses together with destination FQDNs are the disjoint
    non-empty sets {a.example.com} and {b.example.com}; the analyzer still
    reports the pair, because it compares target FQDNs, which Network rules
    do not carry. *)
Lemma destination_fqdns_not_compared :
  ProcessedRule.ruleType toSiteA = ProcessedRule.ruleType toSiteB
  /\ ~ overlaps (specDestinations toSiteA) (specDestinations toSiteB)
  /\ map verdict (findRuleConflicts [toSiteA; toSiteB])
     = [(priority_conflict, medium, toSiteA, toSiteB)].
Proof.
  split; [reflexivity|]. split.
  - unfold overlaps.
    assert (EA : specDestinations toSiteA = ["a.example.com"])
      by (vm_compute; reflexivity).
    assert (EB : specDestinations toSiteB = ["b.example.com"])
      by (vm_compute; reflexivity).
    rewrite EA, EB.
    intros [H|[H|[x [[<-|[]] [H|[]]]]]]; discriminate.
  - vm_compute. reflexivity.
Qed.

(** C6 (evaluation at a failing input).  [allowA] and [allowB] are
    traffic-overlapping Network rules, both inferred Allow, with processing
    orders 1 and 2; their fingerprints differ (sources [a; a] against
    [a; b]), yet the pair is reported as a priority conflict of medium
    severity: [arraysEqual] compares lengths and checks inclusion in one
    direction only. *)
Theorem priority_conflict_on_unequal_fingerprints :
  generateRuleFingerprint allowA <> generateRuleFingerprint allowB
  /\ arraysEqual
       (RuleFingerprint.sourceAddresses (generateRuleFingerprint allowA))
       (RuleFingerprint.sourceAddresses (generateRuleFingerprint allowB))
     = true
  /\ findRuleConflicts [allowA; allowB]
     = [ {| RuleConflict.id := "conflict_1";
            RuleConflict.conflictType := priority_conflict;
            RuleConflict.primary := allowA;
            RuleConflict.conflicting := allowB;
            RuleConflict.severity := medium |} ].
Proof.
  split; [apply fingerprint_neq_by_dec; vm_compute; reflexivity|].
  split; vm_compute; reflexivity.
Qed.

(** C9 (as amended).  The inferred action of a rule is "Deny" when its
    name or its collection name contains "deny" or "block", case ignored,
    and "Allow" otherwise.  Whenever two Network rules stand at positions
    [i < j] of the rules sorted by processing order, the four dimensions of
    their fingerprints overlap (source addresses, destination addresses
    together with target FQDNs, destination ports, ip protocols; the
    destination FQDNs of the rules are not looked at) and their inferred
    actions differ, [findRuleConflicts] reports the pair as an
    allow_deny_conflict of high severity. *)
Theorem inferred_action_and_allow_deny_conflict :
  (forall rule : ProcessedRule.t,
     (mentionsDenyOrBlock rule /\ getRuleAction rule = "Deny")
     \/ (~ mentionsDenyOrBlock rule /\ getRuleAction rule = "Allow"))
  /\ (forall (rules l1 l2 l3 : list ProcessedRule.t)
             (rule1 rule2 : ProcessedRule.t),
        let fp1 := generateRuleFingerprint rule1 in
        let fp2 := generateRuleFingerprint rule2 in
        sortByProcessingOrder rules = l1 ++ rule1 :: l2 ++ rule2 :: l3 ->
        ProcessedRule.ruleType rule1 = "NetworkRule" ->
        ProcessedRule.ruleType rule2 = "NetworkRule" ->
        overlaps (RuleFingerprint.sourceAddresses fp1)
                 (RuleFingerprint.sourceAddresses fp2) ->
        overlaps (fingerprintDestinations fp1) (fingerprintDestinations fp2) ->
        overlaps (RuleFingerprint.destinationPorts fp1)
                 (RuleFingerprint.destinationPorts fp2) ->
        overlaps (RuleFingerprint.ipProtocols fp1)
                 (RuleFingerprint.ipProtocols fp2) ->
        getRuleAction rule1 <> getRuleAction rule2 ->
        exists c : RuleConflict.t,
          In c (findRuleConflicts rules)
          /\ RuleConflict.primary c = rule1
          /\ RuleConflict.conflicting c = rule2
          /\ RuleConflict.conflictType c = allow_deny_conflict
          /\ RuleConflict.severity c = high).
Proof.
  split.
  - intros rule. unfold mentionsDenyOrBlock, getRuleAction.
    rewrite <- !includes_ignoring_case.
    destruct (JS.includes (JS.toLowerCase (ProcessedRule.name rule)) "deny");
      [left; auto|].
    destruct (JS.includes (JS.toLowerCase (ProcessedRule.name rule)) "block");
      [left; auto|].
    destruct (JS.includes
                (JS.toLowerCase (ProcessedRule.collectionName rule)) "deny");
      [left; auto|].
    destruct (JS.includes
                (JS.toLowerCase (ProcessedRule.collectionName rule)) "block");
      [left; auto|].
    right. split; [|reflexivity]. intuition discriminate.
  - intros rules l1 l2 l3 rule1 rule2 fp1 fp2 Hs T1 T2 Hsrc Hdst Hport Hproto
      Hact.
    assert (Hov : hasOverlappingTrafficPattern fp1 fp2 = true).
    { apply hasOverlappingTrafficPattern_spec. auto. }
    pose proof (allPairs_In l1 l2 l3 rule1 rule2) as Hp.
    rewrite <- Hs in Hp.
    destruct (pair_reported rules rule1 rule2 allow_deny_conflict high Hp
                (detect_allow_deny rule1 rule2 T1 T2 Hov Hact))
      as (c & Hin & Hv).
    exists c. unfold verdict in Hv. injection Hv as -> -> -> ->. auto.
Qed.

Lemma inferred_action_and_allow_deny_conflict_witness :
  exists c : RuleConflict.t,
    In c (findRuleConflicts [allowWeb; denyWeb])
    /\ RuleConflict.primary c = allowWeb
    /\ RuleConflict.conflicting c = denyWeb
    /\ RuleConflict.conflictType c = allow_deny_conflict
    /\ RuleConflict.severity c = high.
Proof.
  apply (proj2 inferred_action_and_allow_deny_conflict
           [allowWeb; denyWeb] [] [] []).
  - vm_compute. reflexivity.
  - reflexivity.
  - reflexivity.
  - right. right. exists "10.0.0.0/8". vm_compute. auto.
  - right. right. exists "*". vm_compute. auto.
  - right. right. exists "80". vm_compute. auto.
  - right. right. exists "tcp". vm_compute. auto.
  - vm_compute. discriminate.
Defined.

(** C9 (counterexample).  [allowX] and [denyX] are Network rules with the
    inferred actions Allow and Deny that overlap in the four dimensions of
    the claim: they share the source 10.0.0.0/8, the destination FQDN
    site.example.com, the port 443 and the protocol TCP.  Their
    destination addresses differ and are all the analyzer looks at for the
    destination, so it reports no conflict for the pair. *)
Lemma shared_destination_fqdn_gives_no_conflict :
  ProcessedRule.ruleType allowX = "NetworkRule"
  /\ ProcessedRule.ruleType denyX = "NetworkRule"
  /\ getRuleAction allowX = "Allow"
  /\ getRuleAction denyX = "Deny"
  /\ overlaps (RuleFingerprint.sourceAddresses (specFingerprint allowX))
              (RuleFingerprint.sourceAddresses (specFingerprint denyX))
  /\ overlaps (specDestinations allowX) (specDestinations denyX)
  /\ overlaps (RuleFingerprint.destinationPorts (specFingerprint allowX))
              (RuleFingerprint.destinationPorts (specFingerprint denyX))
  /\ overlaps (RuleFingerprint.ipProtocols (specFingerprint allowX))
              (RuleFingerprint.ipProtocols (specFingerprint denyX))
  /\ findRuleConflicts [allowX; denyX] = [].
Proof.
  split; [reflexivity|]. split; [reflexivity|].
  split; [vm_compute; reflexivity|]. split; [vm_compute; reflexivity|].
  split; [right; right; exists "10.0.0.0/8"; vm_compute; auto|].
  split; [right; right; exists "site.example.com"; vm_compute; auto|].
  split; [right; right; exists "443"; vm_compute; auto|].
  split; [right; right; exists "tcp"; vm_compute; auto|].
  vm_compute. reflexivity.
Qed.

(** C7 (as amended).  The fingerprint pairs the rule's kind with five
    lists: source addresses, destination addresses, ip protocols and target
    FQDNs lower-cased then trimmed, destination ports trimmed only, each
    list sorted in ascending order.  Two rules have the same fingerprint
    exactly when they are of the same kind, their addresses, protocols and
    target FQDNs agree up to case, surrounding white space and order, and
    their destination ports agree up to surrounding white space and
    order. *)
Theorem fingerprint_normalisation (rule1 rule2 : ProcessedRule.t) :
  let fp1 := generateRuleFingerprint rule1 in
  (ascending (RuleFingerprint.sourceAddresses fp1)
   /\ Permutation (map canon (JS.orEmpty (ProcessedRule.sourceAddresses rule1)))
        (RuleFingerprint.sourceAddresses fp1)
   /\ ascending (RuleFingerprint.destinationAddresses fp1)
   /\ Permutation
        (map canon (JS.orEmpty (ProcessedRule.destinationAddresses rule1)))
        (RuleFingerprint.destinationAddresses fp1)
   /\ ascending (RuleFingerprint.destinationPorts fp1)
   /\ Permutation
        (map JS.trim (JS.orEmpty (ProcessedRule.destinationPorts rule1)))
        (RuleFingerprint.destinationPorts fp1)
   /\ ascending (RuleFingerprint.ipProtocols fp1)
   /\ Permutation (map canon (JS.orEmpty (ProcessedRule.ipProtocols rule1)))
        (RuleFingerprint.ipProtocols fp1)
   /\ ascending (RuleFingerprint.targetFqdns fp1)
   /\ Permutation (map canon (JS.orEmpty (ProcessedRule.targetFqdns rule1)))
        (RuleFingerprint.targetFqdns fp1)
   /\ RuleFingerprint.ruleType fp1 = ProcessedRule.ruleType rule1)
  /\ (generateRuleFingerprint rule1 = generateRuleFingerprint rule2 <->
      ProcessedRule.ruleType rule1 = ProcessedRule.ruleType rule2
      /\ sameUpTo canon (JS.orEmpty (ProcessedRule.sourceAddresses rule1))
           (JS.orEmpty (ProcessedRule.sourceAddresses rule2))
      /\ sameUpTo canon (JS.orEmpty (ProcessedRule.destinationAddresses rule1))
           (JS.orEmpty (ProcessedRule.destinationAddresses rule2))
      /\ sameUpTo JS.trim (JS.orEmpty (ProcessedRule.destinationPorts rule1))
           (JS.orEmpty (ProcessedRule.destinationPorts rule2))
      /\ sameUpTo canon (JS.orEmpty (ProcessedRule.ipProtocols rule1))
           (JS.orEmpty (ProcessedRule.ipProtocols rule2))
      /\ sameUpTo canon (JS.orEmpty (ProcessedRule.targetFqdns rule1))
           (JS.orEmpty (ProcessedRule.targetFqdns rule2))).
Proof.
  cbv zeta. split.
  - unfold generateRuleFingerprint, normalizeAddresses, normalizePorts,
      normalizeProtocols, normalizeFqdns; cbn [RuleFingerprint.sourceAddresses
      RuleFingerprint.destinationAddresses RuleFingerprint.destinationPorts
      RuleFingerprint.ipProtocols RuleFingerprint.targetFqdns
      RuleFingerprint.ruleType].
    repeat split;
      first [ apply sortStrings_ascending | apply sortStrings_perm ].
  - rewrite <- !normalised_eq_iff.
    unfold generateRuleFingerprint, normalizeAddresses, normalizePorts,
      normalizeProtocols, normalizeFqdns, canon.
    split.
    + intros E. injection E as E1 E2 E3 E4 E5 E6.
      repeat split; assumption.
    + intros (E6 & E1 & E2 & E3 & E4 & E5).
      f_equal; assumption.
Qed.

Lemma fingerprint_normalisation_witness :
  generateRuleFingerprint tidyRule = generateRuleFingerprint untidyRule.
Proof.
  apply (proj2 (fingerprint_normalisation tidyRule untidyRule)).
  unfold sameUpTo. repeat split; vm_compute;
    first [ reflexivity | apply Permutation_refl | apply perm_swap ].
Defined.

(** C7 (counterexample).  [portUpper] and [portLower] are rules of the same
    kind whose fields agree up to case, white space and order (their ports
    are "HTTPS" and "https"); their fingerprints differ, and the port in
    the fingerprint of [portUpper] is not lower-cased. *)
Lemma ports_keep_their_case :
  ProcessedRule.ruleType portUpper = ProcessedRule.ruleType portLower
  /\ sameUpTo canon (JS.orEmpty (ProcessedRule.sourceAddresses portUpper))
       (JS.orEmpty (ProcessedRule.sourceAddresses portLower))
  /\ sameUpTo canon (JS.orEmpty (ProcessedRule.destinationAddresses portUpper))
       (JS.orEmpty (ProcessedRule.destinationAddresses portLower))
  /\ sameUpTo canon (JS.orEmpty (ProcessedRule.destinationPorts portUpper))
       (JS.orEmpty (ProcessedRule.destinationPorts portLower))
  /\ sameUpTo canon (JS.orEmpty (ProcessedRule.ipProtocols portUpper))
       (JS.orEmpty (ProcessedRule.ipProtocols portLower))
  /\ sameUpTo canon (JS.orEmpty (ProcessedRule.targetFqdns portUpper))
       (JS.orEmpty (ProcessedRule.targetFqdns portLower))
  /\ generateRuleFingerprint portUpper <> generateRuleFingerprint portLower
  /\ RuleFingerprint.destinationPorts (generateRuleFingerprint portUpper)
     = ["HTTPS"]
  /\ generateRuleFingerprint portUpper <> specFingerprint portUpper.
Proof.
  unfold sameUpTo.
  repeat split;
    first [ apply fingerprint_neq_by_dec; vm_compute; reflexivity
          | vm_compute; first [ reflexivity | apply Permutation_refl ] ].
Qed.

End AnalyzerClaims.


(* ================================================================== *)
(** * The statistics of [analyzeRules] *)
(* ================================================================== *)

Section StatisticsFacts.
Import RuleAnalyzer Vocabulary.
Local Open Scope list_scope.

Lemma collectDuplicates_members
    (entries : list (RuleFingerprint.t * list ProcessedRule.t)) (n : nat) :
  Forall (fun group => 2 <= memberCount group) (collectDuplicates entries n).
Proof.
  revert n. induction entries as [|[k groupRules] entries IH]; intros n; simpl.
  - constructor.
  - destruct (Nat.ltb_spec 1 (List.length groupRules)) as [Hlt|Hge].
    + constructor; [unfold memberCount; simpl; lia|apply IH].
    + apply IH.
Qed.

Lemma sum_of_members (groups : list DuplicateGroup.t) (start : nat) :
  fold_left (fun sum group => sum + List.length (DuplicateGroup.rules group))
            groups start
  = start + list_sum (map memberCount groups).
Proof.
  revert start. induction groups as [|group groups IH]; intros start; simpl.
  - lia.
  - rewrite IH. unfold memberCount at 2. lia.
Qed.

Lemma twice_the_groups (groups : list DuplicateGroup.t) :
  Forall (fun group => 2 <= memberCount group) groups ->
  2 * List.length groups <= list_sum (map memberCount groups).
Proof. induction 1; simpl; lia. Qed.

Lemma nodup_length_le (xs : list string) :
  List.length (nodup string_dec xs) <= List.length xs.
Proof.
  induction xs as [|x xs IH]; simpl; [lia|].
  destruct (in_dec string_dec x xs); simpl; lia.
Qed.

End StatisticsFacts.

Section StatisticsClaim.
Import RuleAnalyzer Vocabulary.
Local Open Scope list_scope.

(** C10.  In the result of [analyzeRules], [duplicateGroups] is the number
    of duplicate groups returned and [conflicts] the number of conflict
    records returned; [duplicateRules] is the sum of the member counts of
    the groups, every group has at least two members, hence
    [duplicateRules >= 2 * duplicateGroups]; [conflictingRules] is the
    number of distinct rule ids that occur as primary or conflicting in
    the conflict records, hence [conflictingRules <= 2 * conflicts]. *)
Theorem statistics_are_consistent
    (groups : list ProcessedRuleCollectionGroup.t) :
  let analysis := analyzeRules groups in
  let stats := RuleAnalysis.statistics analysis in
  RuleAnalysis.duplicates analysis
  = findDuplicateRules (getAllRulesFlat groups)
  /\ RuleAnalysis.conflicts analysis
     = findRuleConflicts (getAllRulesFlat groups)
  /\ Statistics.duplicateGroups stats
     = List.length (RuleAnalysis.duplicates analysis)
  /\ Statistics.conflicts stats
     = List.length (RuleAnalysis.conflicts analysis)
  /\ Statistics.duplicateRules stats
     = list_sum (map memberCount (RuleAnalysis.duplicates analysis))
  /\ Forall (fun group => 2 <= memberCount group)
            (RuleAnalysis.duplicates analysis)
  /\ 2 * Statistics.duplicateGroups stats <= Statistics.duplicateRules stats
  /\ (exists ids : list string,
        NoDup ids
        /\ (forall x : string,
              In x ids <->
              exists c : RuleConflict.t,
                In c (RuleAnalysis.conflicts analysis)
                /\ (x = ProcessedRule.id (RuleConflict.primary c)
                    \/ x = ProcessedRule.id (RuleConflict.conflicting c)))
        /\ Statistics.conflictingRules stats = List.length ids)
  /\ Statistics.conflictingRules stats <= 2 * Statistics.conflicts stats.
Proof.
  cbv zeta. unfold analyzeRules.
  cbn [RuleAnalysis.statistics RuleAnalysis.duplicates RuleAnalysis.conflicts
       Statistics.duplicateGroups Statistics.conflicts
       Statistics.duplicateRules Statistics.conflictingRules].
  set (allRules := getAllRulesFlat groups).
  set (conflicts := findRuleConflicts allRules).
  assert (Hmem : Forall (fun group => 2 <= memberCount group)
                        (findDuplicateRules allRules))
    by apply collectDuplicates_members.
  repeat (split; [reflexivity|]).
  split; [apply (sum_of_members _ 0)|].
  split; [exact Hmem|].
  split; [rewrite (sum_of_members _ 0); now apply twice_the_groups|].
  split.
  - eexists. split; [apply NoDup_nodup|]. split; [|reflexivity].
    intros x. rewrite nodup_In, in_app_iff, !in_map_iff. split.
    + intros [(c & E & Hc)|(c & E & Hc)]; exists c; auto.
    + intros (c & Hc & [E|E]); [left|right]; exists c; auto.
  - unfold setSize.
    etransitivity; [apply nodup_length_le|].
    rewrite length_app, !length_map. lia.
Qed.

End StatisticsClaim.


(* ================================================================== *)
(** * Sorting: order and stability *)
(* ================================================================== *)

Section StableSort.
Context {A : Type} (le : A -> A -> bool).

Lemma filter_insertBy_out (P : A -> bool) (x : A) (l : list A) :
  P x = false -> filter P (JS.insertBy le x l) = filter P l.
Proof.
  intros Hx. induction l as [|y l IH]; simpl.
  - now rewrite Hx.
  - destruct (le x y); simpl.
    + now rewrite Hx.
    + now rewrite IH.
Qed.

Lemma filter_insertBy_in (P : A -> bool) (x : A) (l : list A) :
  (forall a b, P a = true -> P b = true -> le a b = true) ->
  P x = true -> filter P (JS.insertBy le x l) = x :: filter P l.
Proof.
  intros Hclass Hx. induction l as [|y l IH]; simpl.
  - now rewrite Hx.
  - destruct (le x y) eqn:Hxy; simpl.
    + now rewrite Hx.
    + destruct (P y) eqn:Hy.
      * rewrite (Hclass x y Hx Hy) in Hxy. discriminate.
      * exact IH.
Qed.

(** Elements that the order does not tell apart keep their relative
    positions. *)
Lemma sortBy_stable (P : A -> bool) (l : list A) :
  (forall a b, P a = true -> P b = true -> le a b = true) ->
  filter P (JS.sortBy le l) = filter P l.
Proof.
  intros Hclass. induction l as [|x l IH]; simpl; [reflexivity|].
  destruct (P x) eqn:Hx.
  - rewrite filter_insertBy_in; auto. now rewrite IH.
  - rewrite filter_insertBy_out; auto.
Qed.

Hypothesis le_total : forall a b, le a b = true \/ le b a = true.
Hypothesis le_trans :
  forall a b c, le a b = true -> le b c = true -> le a c = true.

Lemma insertBy_HdRel_gen (x y : A) (l : list A) :
  le y x = true ->
  HdRel (fun a b => le a b = true) y l ->
  HdRel (fun a b => le a b = true) y (JS.insertBy le x l).
Proof.
  intros Hyx Hd. destruct l as [|z l]; simpl.
  - now constructor.
  - destruct (le x z); constructor; auto. now inversion Hd.
Qed.

Lemma insertBy_Sorted (x : A) (l : list A) :
  Sorted (fun a b => le a b = true) l ->
  Sorted (fun a b => le a b = true) (JS.insertBy le x l).
Proof.
  induction 1 as [|y l Hs IH Hd]; simpl.
  - repeat constructor.
  - destruct (le x y) eqn:Hxy.
    + constructor; [now constructor|now constructor].
    + constructor; [exact IH|].
      apply insertBy_HdRel_gen; [|exact Hd].
      destruct (le_total x y); congruence.
Qed.

Lemma sortBy_Sorted (l : list A) :
  Sorted (fun a b => le a b = true) (JS.sortBy le l).
Proof.
  induction l as [|x l IH]; simpl; [constructor|].
  now apply insertBy_Sorted.
Qed.

Lemma sortBy_StronglySorted (l : list A) :
  StronglySorted (fun a b => le a b = true) (JS.sortBy le l).
Proof.
  apply Sorted_StronglySorted; [|apply sortBy_Sorted].
  intros a b c. apply le_trans.
Qed.

End StableSort.

Section SortedLists.
Context {A : Type}.

Lemma StronglySorted_impl (R S : A -> A -> Prop) (l : list A) :
  (forall a b, R a b -> S a b) ->
  StronglySorted R l -> StronglySorted S l.
Proof.
  intros HRS. induction 1 as [|x l Hs IH Hall]; constructor; auto.
  eapply Forall_impl; [|exact Hall]. auto.
Qed.

Lemma StronglySorted_app (R : A -> A -> Prop) (l1 l2 : list A) :
  StronglySorted R l1 -> StronglySorted R l2 ->
  (forall a b, In a l1 -> In b l2 -> R a b) ->
  StronglySorted R (l1 ++ l2).
Proof.
  intros H1 H2 Hc. induction H1 as [|x l1 Hs IH Hall]; simpl; [exact H2|].
  constructor.
  - apply IH. intros a b Ha Hb. apply Hc; [now right|exact Hb].
  - apply Forall_app. split; [exact Hall|].
    apply Forall_forall. intros b Hb. apply Hc; [now left|exact Hb].
Qed.

Lemma StronglySorted_map {B : Type} (f : A -> B) (R : B -> B -> Prop)
    (l : list A) :
  StronglySorted (fun a b => R (f a) (f b)) l ->
  StronglySorted R (map f l).
Proof.
  induction 1 as [|x l Hs IH Hall]; simpl; constructor; auto.
  apply Forall_map. exact Hall.
Qed.

End SortedLists.

Section KeySort.
Context {A : Type} (key : A -> Z).
Local Open Scope Z_scope.

(** [arr.sort((a, b) => key(a) - key(b))]: ascending keys. *)
Lemma sortWith_key_StronglySorted (l : list A) :
  StronglySorted (fun a b => key a <= key b)
    (JS.sortWith (fun a b => key a - key b) l).
Proof.
  unfold JS.sortWith.
  apply StronglySorted_impl
    with (R := fun a b => (key a - key b <=? 0) = true).
  - intros a b H. apply Z.leb_le in H. lia.
  - apply sortBy_StronglySorted.
    + intros a b. rewrite !Z.leb_le. lia.
    + intros a b c. rewrite !Z.leb_le. lia.
Qed.

Lemma sortWith_key_stable (k : Z) (l : list A) :
  filter (fun a => key a =? k) (JS.sortWith (fun a b => key a - key b) l)
  = filter (fun a => key a =? k) l.
Proof.
  unfold JS.sortWith. apply sortBy_stable.
  intros a b Ha Hb. apply Z.eqb_eq in Ha, Hb. apply Z.leb_le. lia.
Qed.

Lemma sortWith_key_perm (l : list A) :
  Permutation l (JS.sortWith (fun a b => key a - key b) l).
Proof. apply sortBy_perm. Qed.

End KeySort.

Section SortedMapInv.
Context {A B : Type}.

Lemma StronglySorted_map_inv (f : A -> B) (R : B -> B -> Prop) (l : list A) :
  StronglySorted R (map f l) ->
  StronglySorted (fun a b => R (f a) (f b)) l.
Proof.
  induction l as [|x l IH]; simpl; intros H; [constructor|].
  inversion H as [|? ? Hs Hall]; subst. constructor; [auto|].
  rewrite Forall_map in Hall. exact Hall.
Qed.

End SortedMapInv.


(* ================================================================== *)
(** * The ordering engine: what is emitted, and with which orders *)
(* ================================================================== *)

Section CountFrom.
Import Vocabulary.
Local Open Scope Z_scope.

Lemma countFrom_length (s : Z) (n : nat) : List.length (countFrom s n) = n.
Proof. revert s. induction n; intros s; simpl; auto. Qed.

Lemma countFrom_app (s : Z) (a b : nat) :
  countFrom s (a + b) = countFrom s a ++ countFrom (s + Z.of_nat a) b.
Proof.
  revert s. induction a as [|a IH]; intros s.
  - simpl. f_equal. lia.
  - cbn [Nat.add countFrom app]. rewrite IH. do 3 f_equal. lia.
Qed.

Lemma countFrom_In (s : Z) (n : nat) (x : Z) :
  In x (countFrom s n) <-> s <= x < s + Z.of_nat n.
Proof.
  revert s. induction n as [|n IH]; intros s.
  - simpl. lia.
  - cbn [countFrom In]. rewrite IH. lia.
Qed.

Lemma countFrom_consecutive (s : Z) (n : nat) : consecutive (countFrom s n).
Proof.
  revert s. induction n as [|n IH]; intros s; [exact I|].
  cbn [countFrom]. specialize (IH (s + 1)).
  destruct n as [|n]; [exact I|].
  cbn [countFrom] in *. cbn [consecutive]. split; [reflexivity|exact IH].
Qed.

Lemma countFrom_NoDup (s : Z) (n : nat) : NoDup (countFrom s n).
Proof.
  revert s. induction n as [|n IH]; intros s; simpl; constructor.
  - rewrite countFrom_In. lia.
  - apply IH.
Qed.

Lemma fold_max_countFrom (s m : Z) (n : nat) :
  (0 < n)%nat -> m <= s + Z.of_nat n - 1 ->
  fold_left Z.max (countFrom s n) m = s + Z.of_nat n - 1.
Proof.
  revert s m. induction n as [|n IH]; intros s m Hn Hm; [lia|].
  cbn [countFrom fold_left].
  destruct n as [|n].
  - simpl. lia.
  - rewrite IH; lia.
Qed.

End CountFrom.

Section StageExact.
Import RuleProcessor Vocabulary.
Local Open Scope Z_scope.

Variables (cat : RuleCategory) (gname : string) (gprio : Z) (isP : bool).

Lemma mapRules_orders (c : RuleCollection.t) (rules : list FirewallRule.t)
    (idx : nat) (s : Z) :
  map ProcessedRule.processingOrder
      (fst (mapRules cat gname gprio isP c rules idx s))
  = countFrom s (List.length rules).
Proof.
  revert idx s. induction rules as [|r rules IH]; intros idx s.
  - reflexivity.
  - cbn [mapRules]. specialize (IH (S idx) (s + 1)).
    destruct (mapRules cat gname gprio isP c rules (S idx) (s + 1))
      as [prs o]. simpl in *. now rewrite IH.
Qed.

(** The rules of [relevantRules.map(...)]: each stems from a rule of the
    array, and each rule of the array yields one. *)
Lemma mapRules_In (c : RuleCollection.t) (rules : list FirewallRule.t)
    (idx : nat) (s : Z) (pr : ProcessedRule.t) :
  In pr (fst (mapRules cat gname gprio isP c rules idx s)) ->
  exists rule i o,
    In rule rules /\ pr = processRule cat gname gprio isP c rule i o.
Proof.
  revert idx s. induction rules as [|r rules IH]; intros idx s.
  - simpl. tauto.
  - cbn [mapRules]. specialize (IH (S idx) (s + 1)).
    destruct (mapRules cat gname gprio isP c rules (S idx) (s + 1))
      as [prs o]. simpl fst in *. intros [<-|Hin].
    + exists r, idx, s. split; [now left|reflexivity].
    + destruct (IH Hin) as (rule & i & o' & Hr & E).
      exists rule, i, o'. split; [now right|exact E].
Qed.

Lemma mapRules_complete (c : RuleCollection.t) (rules : list FirewallRule.t)
    (idx : nat) (s : Z) (rule : FirewallRule.t) :
  In rule rules ->
  exists i o,
    In (processRule cat gname gprio isP c rule i o)
       (fst (mapRules cat gname gprio isP c rules idx s)).
Proof.
  revert idx s. induction rules as [|r rules IH]; intros idx s.
  - simpl. tauto.
  - cbn [mapRules]. specialize (IH (S idx) (s + 1)).
    destruct (mapRules cat gname gprio isP c rules (S idx) (s + 1))
      as [prs o]. simpl fst in *. intros [->|Hin].
    + exists idx, s. now left.
    + destruct (IH Hin) as (i & o' & H). exists i, o'. now right.
Qed.

Lemma mapCollections_sources (cols : list RuleCollection.t) (s : Z) :
  map ProcessedRuleCollection.collection
      (fst (mapCollections cat gname gprio isP cols s)) = cols
  /\ Forall (builtFrom cat gname gprio isP) (fst (mapCollections cat gname gprio isP cols s)).
Proof.
  revert s. induction cols as [|c cols IH]; intros s.
  - split; [reflexivity|constructor].
  - cbn [mapCollections].
    destruct (mapRules cat gname gprio isP c
                (filter (isRelevant cat) (RuleCollection.rules c)) 0 s)
      as [prs o] eqn:E.
    specialize (IH o).
    destruct (mapCollections cat gname gprio isP cols o) as [pcs o'].
    simpl fst in *. destruct IH as [IH1 IH2]. split.
    + simpl. now rewrite IH1.
    + constructor; [|exact IH2].
      unfold builtFrom. simpl. repeat split. exists s. now rewrite E.
Qed.

Lemma mapCollections_orders (cols : list RuleCollection.t) (s : Z) :
  map ProcessedRule.processingOrder
      (flatRules (fst (mapCollections cat gname gprio isP cols s)))
  = countFrom s (relevantCount cat cols).
Proof.
  revert s. induction cols as [|c cols IH]; intros s.
  - reflexivity.
  - cbn [mapCollections].
    pose proof (mapRules_snd cat gname gprio isP c
                  (filter (isRelevant cat) (RuleCollection.rules c)) 0 s)
      as Hs.
    pose proof (mapRules_orders c
                  (filter (isRelevant cat) (RuleCollection.rules c)) 0 s)
      as Ho.
    destruct (mapRules cat gname gprio isP c
                (filter (isRelevant cat) (RuleCollection.rules c)) 0 s)
      as [prs o]. simpl in Hs, Ho.
    specialize (IH o).
    destruct (mapCollections cat gname gprio isP cols o) as [pcs o'].
    simpl fst in *. unfold flatRules in *. simpl.
    rewrite map_app, Ho, IH, Hs.
    change (relevantCount cat (c :: cols))
      with (List.length (filter (isRelevant cat) (RuleCollection.rules c))
            + relevantCount cat cols)%nat.
    now rewrite countFrom_app.
Qed.

(** The orders of a stage are consecutive from its starting order. *)
Lemma byType_orders (cols : list RuleCollection.t) (s : Z) :
  map ProcessedRule.processingOrder
      (flatRules (processRuleCollectionsByType cols cat gname gprio isP s))
  = countFrom s (relevantCount cat cols).
Proof.
  unfold processRuleCollectionsByType, JS.sortWith.
  rewrite mapCollections_orders. f_equal.
  symmetry. apply relevantCount_perm, sortBy_perm.
Qed.

(** The counter recomputed after a stage: the old counter advanced by the
    rules emitted, or 1 when the stage emitted nothing. *)
Lemma byType_next (cols : list RuleCollection.t) (s : Z) :
  1 <= s ->
  getMaxProcessingOrderFromCollections
    (processRuleCollectionsByType cols cat gname gprio isP s) + 1
  = if (relevantCount cat cols =? 0)%nat then 1
    else s + Z.of_nat (relevantCount cat cols).
Proof.
  intros Hs. rewrite getMax_fold, byType_orders.
  destruct (Nat.eqb_spec (relevantCount cat cols) 0) as [E|NE].
  - rewrite E. reflexivity.
  - rewrite fold_max_countFrom; lia.
Qed.

End StageExact.


Section GroupExact.
Import RuleProcessor Vocabulary.
Local Open Scope string_scope.
Local Open Scope Z_scope.
Local Open Scope list_scope.

Variables (g : RuleCollectionGroup.t) (isP : bool) (s : Z).

Let cols := RuleCollectionGroup.ruleCollections g.
Let cD := relevantCount DNAT cols.
Let cN := relevantCount Network cols.
Let cA := relevantCount Application cols.

Lemma networkStart_exact :
  1 <= s ->
  networkStart g isP s = if (cD =? 0)%nat then 1 else s + Z.of_nat cD.
Proof.
  intros Hs. unfold networkStart, dnatStage.
  rewrite byType_next by exact Hs.
  now rewrite (relevantCount_bucket DNAT "NatRule") by reflexivity.
Qed.

Lemma applicationStart_exact :
  1 <= s ->
  applicationStart g isP s
  = if (cN =? 0)%nat then 1 else networkStart g isP s + Z.of_nat cN.
Proof.
  intros Hs. unfold applicationStart, networkStage.
  rewrite byType_next by (apply networkStart_bounds; exact Hs).
  now rewrite (relevantCount_bucket Network "NetworkRule") by reflexivity.
Qed.

Lemma group_orders_exact :
  map ProcessedRule.processingOrder
      (groupRules (processRuleCollectionGroup g isP s))
  = countFrom s cD ++ countFrom (networkStart g isP s) cN
    ++ countFrom (applicationStart g isP s) cA.
Proof.
  rewrite groupRules_stages, !map_app.
  unfold dnatStage at 1, networkStage at 1, applicationStage at 1.
  rewrite !byType_orders.
  rewrite (relevantCount_bucket DNAT "NatRule") by reflexivity.
  rewrite (relevantCount_bucket Network "NetworkRule") by reflexivity.
  rewrite (relevantCount_bucket Application "ApplicationRule")
    by reflexivity.
  reflexivity.
Qed.

(** A group that holds a NAT rule and a Network rule numbers its rules
    consecutively from its starting order and hands on the order after its
    last rule. *)
Lemma group_contiguous :
  1 <= s -> (0 < cD)%nat -> (0 < cN)%nat ->
  map ProcessedRule.processingOrder
      (groupRules (processRuleCollectionGroup g isP s))
  = countFrom s (List.length
                   (groupRules (processRuleCollectionGroup g isP s)))
  /\ getMaxProcessingOrder (processRuleCollectionGroup g isP s) + 1
     = s + Z.of_nat (List.length
                       (groupRules (processRuleCollectionGroup g isP s))).
Proof.
  intros Hs HD HN.
  assert (Hlen : List.length
                   (groupRules (processRuleCollectionGroup g isP s))
                 = (cD + cN + cA)%nat).
  { rewrite <- (length_map ProcessedRule.processingOrder),
      group_orders_exact, !length_app, !countFrom_length. lia. }
  assert (Ho : map ProcessedRule.processingOrder
                 (groupRules (processRuleCollectionGroup g isP s))
               = countFrom s (cD + cN + cA)).
  { rewrite group_orders_exact, applicationStart_exact,
      networkStart_exact by exact Hs.
    destruct (Nat.eqb_spec cD 0); [lia|].
    destruct (Nat.eqb_spec cN 0); [lia|].
    rewrite !countFrom_app, <- app_assoc.
    f_equal. f_equal. f_equal. lia. }
  rewrite Hlen. split; [exact Ho|].
  rewrite getMaxProcessingOrder_group, getMax_fold.
  change (flatRules
            (ProcessedRuleCollectionGroup.processedCollections
               (processRuleCollectionGroup g isP s)))
    with (groupRules (processRuleCollectionGroup g isP s)).
  rewrite Ho, fold_max_countFrom; lia.
Qed.

End GroupExact.


Section StageMembers.
Import RuleProcessor Vocabulary.
Local Open Scope string_scope.
Local Open Scope Z_scope.
Local Open Scope list_scope.

Lemma isRelevant_category (cat : RuleCategory) (rule : FirewallRule.t) :
  isRelevant cat rule = true
  <-> categoryOfKind (FirewallRule.ruleType rule) = Some cat.
Proof.
  unfold isRelevant, hasRuleType, categoryOfKind.
  destruct (String.eqb_spec (FirewallRule.ruleType rule) "NatRule")
    as [E|N1].
  - rewrite E. destruct cat; simpl; split; congruence.
  - destruct (String.eqb_spec (FirewallRule.ruleType rule) "NetworkRule")
      as [E|N2].
    + rewrite E. destruct cat; simpl; split; congruence.
    + destruct (String.eqb_spec (FirewallRule.ruleType rule)
                  "ApplicationRule") as [E|N3].
      * destruct cat; simpl; split; congruence.
      * destruct cat; split; intros H; try discriminate;
          apply String.eqb_eq in H; congruence.
Qed.

Lemma processRule_stems (cat : RuleCategory) (g : RuleCollectionGroup.t)
    (isP : bool) (c : RuleCollection.t) (rule : FirewallRule.t) (i : nat)
    (o : Z) :
  isRelevant cat rule = true ->
  stemsFrom (processRule cat (RuleCollectionGroup.name g)
               (RuleCollectionGroup.priority g) isP c rule i o)
            g isP c rule.
Proof.
  intros H. apply isRelevant_category in H.
  unfold stemsFrom, processRule. simpl. repeat split; auto.
Qed.

Variables (cat : RuleCategory) (gname : string) (gprio : Z) (isP : bool).

Lemma byType_sources (cols : list RuleCollection.t) (s : Z) :
  map ProcessedRuleCollection.collection
      (processRuleCollectionsByType cols cat gname gprio isP s)
  = JS.sortWith (fun a b => RuleCollection.priority a
                            - RuleCollection.priority b) cols
  /\ Forall (builtFrom cat gname gprio isP)
            (processRuleCollectionsByType cols cat gname gprio isP s).
Proof. unfold processRuleCollectionsByType. apply mapCollections_sources. Qed.

Lemma byType_collection_In (cols : list RuleCollection.t) (s : Z)
    (pc : ProcessedRuleCollection.t) :
  In pc (processRuleCollectionsByType cols cat gname gprio isP s) ->
  In (ProcessedRuleCollection.collection pc) cols
  /\ builtFrom cat gname gprio isP pc.
Proof.
  intros Hin. destruct (byType_sources cols s) as [Hsrc Hb]. split.
  - apply (in_map ProcessedRuleCollection.collection) in Hin.
    rewrite Hsrc in Hin. unfold JS.sortWith in Hin.
    now apply sortBy_In in Hin.
  - rewrite Forall_forall in Hb. now apply Hb.
Qed.

Lemma byType_rule_In (cols : list RuleCollection.t) (s : Z)
    (pr : ProcessedRule.t) :
  In pr (flatRules (processRuleCollectionsByType cols cat gname gprio isP s))
  -> exists c rule i o,
       In c cols /\ In rule (RuleCollection.rules c)
       /\ isRelevant cat rule = true
       /\ pr = processRule cat gname gprio isP c rule i o.
Proof.
  intros Hin. unfold flatRules in Hin.
  apply in_flat_map in Hin as (pc & Hpc & Hpr).
  apply byType_collection_In in Hpc as [Hc (_ & _ & _ & s' & Hrules)].
  rewrite Hrules in Hpr.
  apply mapRules_In in Hpr as (rule & i & o & Hr & E).
  apply filter_In in Hr as [Hr Hrel].
  exists (ProcessedRuleCollection.collection pc), rule, i, o. auto.
Qed.

Lemma byType_rule_complete (cols : list RuleCollection.t) (s : Z)
    (c : RuleCollection.t) (rule : FirewallRule.t) :
  In c cols -> In rule (RuleCollection.rules c) ->
  isRelevant cat rule = true ->
  exists i o,
    In (processRule cat gname gprio isP c rule i o)
       (flatRules (processRuleCollectionsByType cols cat gname gprio isP s)).
Proof.
  intros Hc Hr Hrel. destruct (byType_sources cols s) as [Hsrc Hb].
  assert (Hcs : In c (map ProcessedRuleCollection.collection
                        (processRuleCollectionsByType cols cat gname gprio
                           isP s))).
  { rewrite Hsrc. unfold JS.sortWith. now apply sortBy_In. }
  apply in_map_iff in Hcs as (pc & <- & Hpc).
  rewrite Forall_forall in Hb.
  destruct (Hb pc Hpc) as (_ & _ & _ & s' & Hrules).
  destruct (mapRules_complete cat gname gprio isP
              (ProcessedRuleCollection.collection pc)
              (filter (isRelevant cat)
                 (RuleCollection.rules
                    (ProcessedRuleCollection.collection pc)))
              0 s' rule) as (i & o & Hin).
  { apply filter_In. auto. }
  exists i, o. unfold flatRules. apply in_flat_map.
  exists pc. split; [exact Hpc|]. now rewrite Hrules.
Qed.

End StageMembers.

Section PolicyMembers.
Import RuleProcessor Vocabulary.
Local Open Scope string_scope.
Local Open Scope Z_scope.
Local Open Scope list_scope.

Lemma collectGroups_In (policy : FirewallPolicy.t)
    (parentPolicy : option FirewallPolicy.t) (g : RuleCollectionGroup.t)
    (isP : bool) :
  In (g, isP) (collectGroups policy parentPolicy)
  <-> groupOf policy parentPolicy g isP.
Proof.
  unfold collectGroups, groupOf. rewrite in_app_iff, !in_map_iff. split.
  - intros [H|(g' & E & Hin)].
    + destruct parentPolicy as [parent|]; [|contradiction].
      apply in_map_iff in H as (g' & E & Hin).
      injection E as -> <-. left. split; [reflexivity|].
      exists parent. auto.
    + injection E as -> <-. right. auto.
  - intros [[-> (parent & -> & Hin)]|[-> Hin]].
    + left. apply in_map_iff. exists g. auto.
    + right. exists g. auto.
Qed.

Lemma mapGroups_complete (gs : list (RuleCollectionGroup.t * bool)) (s : Z)
    (g : RuleCollectionGroup.t) (isP : bool) :
  1 <= s -> In (g, isP) gs ->
  exists s', 1 <= s' /\ In (processRuleCollectionGroup g isP s')
                           (mapGroups gs s).
Proof.
  revert s. induction gs as [|[g' isP'] gs IH]; intros s Hs Hin.
  - contradiction.
  - cbn [mapGroups]. destruct Hin as [E|Hin].
    + injection E as -> ->. exists s. split; [exact Hs|now left].
    + destruct (IH _ (group_next_start g' isP' s) Hin) as (s' & Hs' & H).
      exists s'. split; [exact Hs'|now right].
Qed.

Lemma processFirewallPolicy_complete (policy : FirewallPolicy.t)
    (parentPolicy : option FirewallPolicy.t) (g : RuleCollectionGroup.t)
    (isP : bool) :
  groupOf policy parentPolicy g isP ->
  exists s', 1 <= s'
             /\ In (processRuleCollectionGroup g isP s')
                   (processFirewallPolicy policy parentPolicy).
Proof.
  intros Hg. apply collectGroups_In in Hg.
  unfold processFirewallPolicy. apply mapGroups_complete; [lia|].
  unfold JS.sortWith. now apply sortBy_In.
Qed.

Lemma group_rule_In (g : RuleCollectionGroup.t) (isP : bool) (s : Z)
    (pr : ProcessedRule.t) :
  In pr (groupRules (processRuleCollectionGroup g isP s)) ->
  exists c r,
    In c (RuleCollectionGroup.ruleCollections g)
    /\ In r (RuleCollection.rules c) /\ stemsFrom pr g isP c r.
Proof.
  rewrite groupRules_stages. intros Hin.
  assert (H : exists cat ty,
            In pr (flatRules
                     (processRuleCollectionsByType
                        (filter (hasSome ty)
                           (RuleCollectionGroup.ruleCollections g))
                        cat (RuleCollectionGroup.name g)
                        (RuleCollectionGroup.priority g) isP
                        (match cat with
                         | DNAT => s
                         | Network => networkStart g isP s
                         | Application => applicationStart g isP s
                         end)))).
  { apply in_app_or in Hin as [Hin|Hin];
      [|apply in_app_or in Hin as [Hin|Hin]].
    - exists DNAT, "NatRule". exact Hin.
    - exists Network, "NetworkRule". exact Hin.
    - exists Application, "ApplicationRule". exact Hin. }
  destruct H as (cat & ty & H).
  apply byType_rule_In in H as (c & r & i & o & Hc & Hr & Hrel & ->).
  apply filter_In in Hc as [Hc _].
  exists c, r. repeat split; auto. now apply processRule_stems.
Qed.

Lemma group_rule_complete (g : RuleCollectionGroup.t) (isP : bool) (s : Z)
    (c : RuleCollection.t) (r : FirewallRule.t) :
  In c (RuleCollectionGroup.ruleCollections g) ->
  In r (RuleCollection.rules c) ->
  knownKind (FirewallRule.ruleType r) ->
  exists pr, In pr (groupRules (processRuleCollectionGroup g isP s))
             /\ stemsFrom pr g isP c r.
Proof.
  intros Hc Hr Hk. rewrite groupRules_stages.
  assert (Hcat : exists cat ty,
            isRelevant cat r = true
            /\ (forall x, isRelevant cat x = hasRuleType ty x)
            /\ (forall l1 l2 l3 : list ProcessedRule.t,
                  forall pr,
                    In pr (match cat with
                           | DNAT => l1 | Network => l2 | Application => l3
                           end) -> In pr (l1 ++ l2 ++ l3))
            /\ forall isP s,
                 match cat with
                 | DNAT => flatRules (dnatStage g isP s)
                 | Network => flatRules (networkStage g isP s)
                 | Application => flatRules (applicationStage g isP s)
                 end
                 = flatRules
                     (processRuleCollectionsByType
                        (filter (hasSome ty)
                           (RuleCollectionGroup.ruleCollections g))
                        cat (RuleCollectionGroup.name g)
                        (RuleCollectionGroup.priority g) isP
                        (match cat with
                         | DNAT => s
                         | Network => networkStart g isP s
                         | Application => applicationStart g isP s
                         end))).
  { destruct Hk as [E|[E|E]].
    - exists DNAT, "NatRule". repeat split.
      + unfold isRelevant, hasRuleType. rewrite E. reflexivity.
      + intros. apply in_or_app. now left.
    - exists Network, "NetworkRule". repeat split.
      + unfold isRelevant, hasRuleType. rewrite E. reflexivity.
      + intros. apply in_or_app. right. apply in_or_app. now left.
    - exists Application, "ApplicationRule". repeat split.
      + unfold isRelevant, hasRuleType. rewrite E. reflexivity.
      + intros. apply in_or_app. right. apply in_or_app. now right. }
  destruct Hcat as (cat & ty & Hrel & Hty & Hplace & Hstage).
  assert (Hbucket : In c (filter (hasSome ty)
                            (RuleCollectionGroup.ruleCollections g))).
  { apply filter_In. split; [exact Hc|].
    unfold hasSome. apply existsb_exists. exists r. split; [exact Hr|].
    now rewrite <- Hty. }
  destruct (byType_rule_complete cat (RuleCollectionGroup.name g)
              (RuleCollectionGroup.priority g) isP _
              (match cat with
               | DNAT => s
               | Network => networkStart g isP s
               | Application => applicationStart g isP s
               end) c r Hbucket Hr Hrel) as (i & o & Hin).
  rewrite <- Hstage in Hin.
  eexists. split; [apply Hplace; exact Hin|].
  now apply processRule_stems.
Qed.

End PolicyMembers.


Section GroupShape.
Import RuleProcessor Vocabulary.
Local Open Scope string_scope.
Local Open Scope Z_scope.
Local Open Scope list_scope.

Lemma existsb_filter_nonempty {A : Type} (f : A -> bool) (l : list A) :
  existsb f l = true -> filter f l <> [].
Proof.
  intros H. apply existsb_exists in H as (x & Hx & Hf).
  intros E. assert (Hin : In x (filter f l)) by (apply filter_In; auto).
  rewrite E in Hin. contradiction.
Qed.

(** A processed collection of a group belongs to one of the three stages;
    it is built from a collection of the group's bucket for that stage. *)
Lemma group_collection_In (g : RuleCollectionGroup.t) (isP : bool) (s : Z)
    (pc : ProcessedRuleCollection.t) :
  In pc (ProcessedRuleCollectionGroup.processedCollections
           (processRuleCollectionGroup g isP s)) ->
  exists cat,
    builtFrom cat (RuleCollectionGroup.name g)
      (RuleCollectionGroup.priority g) isP pc
    /\ In (ProcessedRuleCollection.collection pc)
          (RuleCollectionGroup.ruleCollections g)
    /\ existsb (isRelevant cat)
         (RuleCollection.rules (ProcessedRuleCollection.collection pc))
       = true.
Proof.
  rewrite group_collections. intros Hin.
  apply in_app_or in Hin as [Hin|Hin];
    [|apply in_app_or in Hin as [Hin|Hin]];
    apply byType_collection_In in Hin as [Hc Hb];
    apply filter_In in Hc as [Hc Hs].
  - exists DNAT. auto.
  - exists Network. auto.
  - exists Application. auto.
Qed.

End GroupShape.

(* ================================================================== *)
(** * Further properties of the ordering engine *)
(* ================================================================== *)

Section EngineProperties.
Import RuleProcessor Vocabulary Fixtures.
Local Open Scope string_scope.
Local Open Scope Z_scope.
Local Open Scope list_scope.

(** X1.  Every rule emitted by [processFirewallPolicy] stems from a rule of
    a collection of a group of the policy or of the parent policy: it has
    that rule's kind, name and addresses, the names and priorities of that
    collection and group, the parent flag of the policy the group came
    from, and the category that goes with its kind. *)
Theorem emitted_rules_stem_from_input
    (policy : FirewallPolicy.t) (parentPolicy : option FirewallPolicy.t)
    (pr : ProcessedRule.t) :
  In pr (emittedRules (processFirewallPolicy policy parentPolicy)) ->
  exists g isP c r,
    groupOf policy parentPolicy g isP
    /\ In c (RuleCollectionGroup.ruleCollections g)
    /\ In r (RuleCollection.rules c)
    /\ stemsFrom pr g isP c r.
Proof.
  intros Hin. rewrite emittedRules_groupRules in Hin.
  apply in_flat_map in Hin as (pg & Hpg & Hin).
  apply processFirewallPolicy_In in Hpg as (g & isP & s & Hg & _ & ->).
  apply group_rule_In in Hin as (c & r & Hc & Hr & Hst).
  exists g, isP, c, r. split; [now apply collectGroups_In|auto].
Qed.

Lemma emitted_rules_stem_from_input_witness :
  exists g isP c r,
    groupOf minimalPolicy None g isP
    /\ In c (RuleCollectionGroup.ruleCollections g)
    /\ In r (RuleCollection.rules c)
    /\ stemsFrom (processedMinimalRule false) g isP c r.
Proof.
  apply (emitted_rules_stem_from_input minimalPolicy None
           (processedMinimalRule false)).
  vm_compute. left. reflexivity.
Defined.

(** X2.  Every rule of a recognised kind, in any collection of any group of
    the policy or of the parent policy, is emitted by
    [processFirewallPolicy], labelled with its collection, its group, the
    parent flag and the category of its kind. *)
Theorem known_rules_are_emitted
    (policy : FirewallPolicy.t) (parentPolicy : option FirewallPolicy.t)
    (g : RuleCollectionGroup.t) (isP : bool) (c : RuleCollection.t)
    (r : FirewallRule.t) :
  groupOf policy parentPolicy g isP ->
  In c (RuleCollectionGroup.ruleCollections g) ->
  In r (RuleCollection.rules c) ->
  knownKind (FirewallRule.ruleType r) ->
  exists pr,
    In pr (emittedRules (processFirewallPolicy policy parentPolicy))
    /\ stemsFrom pr g isP c r.
Proof.
  intros Hg Hc Hr Hk.
  destruct (processFirewallPolicy_complete policy parentPolicy g isP Hg)
    as (s & _ & Hpg).
  destruct (group_rule_complete g isP s c r Hc Hr Hk) as (pr & Hin & Hst).
  exists pr. split; [|exact Hst].
  rewrite emittedRules_groupRules. apply in_flat_map. eauto.
Qed.

Lemma known_rules_are_emitted_witness :
  exists pr,
    In pr (emittedRules (processFirewallPolicy minimalPolicy None))
    /\ stemsFrom pr minimalGroup false minimalCollection allowHTTP.
Proof.
  apply (known_rules_are_emitted minimalPolicy None minimalGroup false
           minimalCollection allowHTTP).
  - right. split; [reflexivity|]. simpl. auto.
  - simpl. auto.
  - simpl. auto.
  - right. left. reflexivity.
Defined.

(** X3.  No processed collection of the output is empty; its rules all
    carry the collection's category and name, it carries the name of its
    group, and it is built from one of the group's input collections. *)
Theorem processed_collections_are_never_empty
    (policy : FirewallPolicy.t) (parentPolicy : option FirewallPolicy.t)
    (pg : ProcessedRuleCollectionGroup.t) (pc : ProcessedRuleCollection.t) :
  In pg (processFirewallPolicy policy parentPolicy) ->
  In pc (ProcessedRuleCollectionGroup.processedCollections pg) ->
  ProcessedRuleCollection.processedRules pc <> []
  /\ (forall r, In r (ProcessedRuleCollection.processedRules pc) ->
                ProcessedRule.ruleCategory r
                = ProcessedRuleCollection.ruleCategory pc
                /\ ProcessedRule.collectionName r
                   = ProcessedRuleCollection.name pc)
  /\ ProcessedRuleCollection.groupName pc
     = ProcessedRuleCollectionGroup.name pg
  /\ In (ProcessedRuleCollection.collection pc)
        (ProcessedRuleCollectionGroup.ruleCollections pg).
Proof.
  intros Hpg Hpc.
  apply processFirewallPolicy_In in Hpg as (g & isP & s & _ & _ & ->).
  apply group_collection_In in Hpc
    as (cat & (Hcat & Hgn & _ & s' & Hrules) & Hc & Hsome).
  split; [|split; [|split]].
  - intros E. apply (f_equal (@List.length _)) in E.
    rewrite Hrules, mapRules_length in E.
    apply length_zero_iff_nil in E.
    now apply (existsb_filter_nonempty _ _ Hsome).
  - intros r Hr. rewrite Hrules in Hr.
    apply mapRules_In in Hr as (rule & i & o & _ & ->).
    rewrite Hcat. split; reflexivity.
  - exact Hgn.
  - exact Hc.
Qed.

Lemma processed_collections_are_never_empty_witness :
  ProcessedRuleCollection.processedRules processedDnatRules <> []
  /\ (forall r, In r (ProcessedRuleCollection.processedRules
                        processedDnatRules) ->
                ProcessedRule.ruleCategory r
                = ProcessedRuleCollection.ruleCategory processedDnatRules
                /\ ProcessedRule.collectionName r
                   = ProcessedRuleCollection.name processedDnatRules)
  /\ ProcessedRuleCollection.groupName processedDnatRules
     = ProcessedRuleCollectionGroup.name processedHighPriorityGroup
  /\ In (ProcessedRuleCollection.collection processedDnatRules)
        (ProcessedRuleCollectionGroup.ruleCollections
           processedHighPriorityGroup).
Proof.
  apply (processed_collections_are_never_empty
           (complexPolicy 100 200 300 100) None).
  - vm_compute. left. reflexivity.
  - vm_compute. left. reflexivity.
Defined.

End EngineProperties.


Section GroupOrderFacts.
Import RuleProcessor Vocabulary.
Local Open Scope string_scope.
Local Open Scope Z_scope.
Local Open Scope list_scope.

Lemma groupsLe_total (a b : RuleCollectionGroup.t * bool) :
  groupsLe a b = true \/ groupsLe b a = true.
Proof.
  unfold groupsLe, compareGroups.
  destruct (snd a), (snd b); simpl; rewrite ?Z.leb_le; lia.
Qed.

Lemma groupsLe_trans (a b c : RuleCollectionGroup.t * bool) :
  groupsLe a b = true -> groupsLe b c = true -> groupsLe a c = true.
Proof.
  unfold groupsLe, compareGroups.
  destruct (snd a), (snd b), (snd c); simpl; rewrite ?Z.leb_le; lia.
Qed.

Lemma groupsLe_tierLe (a b : RuleCollectionGroup.t * bool) :
  groupsLe a b = true -> tierLe (taggedSummary a) (taggedSummary b).
Proof.
  unfold groupsLe, compareGroups, tierLe, taggedSummary.
  destruct (snd a), (snd b); simpl; rewrite ?Z.leb_le; intros H;
    first [ left; split; reflexivity | right; split; [reflexivity|lia]
          | lia ].
Qed.

Lemma mapGroups_summary (gs : list (RuleCollectionGroup.t * bool)) (s : Z) :
  map groupSummary (mapGroups gs s) = map taggedSummary gs.
Proof.
  revert s. induction gs as [|[g isP] gs IH]; intros s; [reflexivity|].
  cbn [mapGroups map]. now rewrite IH.
Qed.

Lemma filter_map_comm {A B : Type} (f : B -> bool) (h : A -> B)
    (l : list A) :
  filter f (map h l) = map h (filter (fun a => f (h a)) l).
Proof.
  induction l as [|x l IH]; simpl; [reflexivity|].
  destruct (f (h x)); simpl; now rewrite IH.
Qed.

Lemma StronglySorted_Forall {A : Type} (R : A -> A -> Prop) (P : A -> Prop)
    (l : list A) :
  StronglySorted R l -> Forall P l ->
  StronglySorted (fun a b => R a b /\ P a /\ P b) l.
Proof.
  induction 1 as [|x l Hs IH Hall]; intros HP; constructor.
  - apply IH. now inversion HP.
  - inversion HP as [|? ? Px Pl]; subst.
    rewrite Forall_forall in *. intros y Hy. auto.
Qed.

Lemma existsb_pointwise {A : Type} (f h : A -> bool) (l : list A) :
  (forall x, f x = h x) -> existsb f l = existsb h l.
Proof.
  intros E. induction l as [|x l IH]; simpl; [reflexivity|].
  now rewrite E, IH.
Qed.

Lemma filter_all_false {A : Type} (f : A -> bool) (l : list A) :
  (forall x, In x l -> f x = false) -> filter f l = [].
Proof.
  induction l as [|x l IH]; simpl; intros H; [reflexivity|].
  rewrite (H x) by now left. apply IH. intros y Hy. apply H. now right.
Qed.

Variables (cat : RuleCategory) (ty : string)
          (gname : string) (gprio : Z) (isP : bool).
Hypothesis Hty : forall x, isRelevant cat x = hasRuleType ty x.

Lemma stage_category (cols : list RuleCollection.t) (s : Z) :
  Forall (fun pc => ProcessedRuleCollection.ruleCategory pc = cat)
         (processRuleCollectionsByType cols cat gname gprio isP s).
Proof.
  destruct (byType_sources cat gname gprio isP cols s) as [_ Hb].
  eapply Forall_impl; [|exact Hb]. intros pc H. apply H.
Qed.

Lemma stage_sorted (cols : list RuleCollection.t) (s : Z) :
  StronglySorted collectionLe
    (processRuleCollectionsByType cols cat gname gprio isP s).
Proof.
  destruct (byType_sources cat gname gprio isP cols s) as [Hsrc _].
  pose proof (sortWith_key_StronglySorted RuleCollection.priority cols) as H.
  rewrite <- Hsrc in H. apply StronglySorted_map_inv in H.
  pose proof (StronglySorted_Forall _ _ _ H (stage_category cols s)) as H'.
  eapply StronglySorted_impl; [|exact H'].
  intros a b (Hp & Ha & Hb). right. split; [congruence|exact Hp].
Qed.

Lemma bucket_filter (cols : list RuleCollection.t) (k : Z) :
  filter (fun c => RuleCollection.priority c =? k)
         (filter (hasSome ty) cols)
  = filter (fun c => existsb (isRelevant cat) (RuleCollection.rules c)
                     && (RuleCollection.priority c =? k)) cols.
Proof.
  induction cols as [|c cols' IH]; simpl; [reflexivity|].
  unfold hasSome at 1.
  rewrite (existsb_pointwise _ _ _ (fun x => eq_sym (Hty x))).
  destruct (existsb (isRelevant cat) (RuleCollection.rules c)); simpl.
  - destruct (RuleCollection.priority c =? k); now rewrite IH.
  - exact IH.
Qed.

(** The processed collections of a stage that have priority [k] are built
    from the bucket's collections of priority [k], in declaration order. *)
Lemma stage_stable (cols : list RuleCollection.t) (s k : Z)
    (wanted : RuleCategory) :
  map ProcessedRuleCollection.collection
      (filter (fun pc =>
                 RuleCategory_eqb (ProcessedRuleCollection.ruleCategory pc)
                   wanted
                 && (ProcessedRuleCollection.priority pc =? k))
         (processRuleCollectionsByType (filter (hasSome ty) cols) cat gname
            gprio isP s))
  = if RuleCategory_eqb cat wanted
    then filter (fun c => existsb (isRelevant cat) (RuleCollection.rules c)
                          && (RuleCollection.priority c =? k)) cols
    else [].
Proof.
  set (stage := processRuleCollectionsByType (filter (hasSome ty) cols) cat
                  gname gprio isP s).
  pose proof (stage_category (filter (hasSome ty) cols) s) as Hcat.
  fold stage in Hcat. rewrite Forall_forall in Hcat.
  destruct (RuleCategory_eqb cat wanted) eqn:Hw.
  - rewrite (filter_ext_in _
               (fun pc => RuleCollection.priority
                            (ProcessedRuleCollection.collection pc) =? k)).
    + rewrite <- (filter_map_comm
                    (fun c => RuleCollection.priority c =? k)
                    ProcessedRuleCollection.collection).
      unfold stage.
      rewrite (proj1 (byType_sources cat gname gprio isP _ s)).
      rewrite sortWith_key_stable.
      apply bucket_filter.
    + intros pc Hpc. rewrite (Hcat pc Hpc), Hw. reflexivity.
  - rewrite filter_all_false; [reflexivity|].
    intros pc Hpc. now rewrite (Hcat pc Hpc), Hw.
Qed.

End GroupOrderFacts.


Section OrderProperties.
Import RuleProcessor Vocabulary Fixtures.
Local Open Scope string_scope.
Local Open Scope Z_scope.
Local Open Scope list_scope.

(** X4.  The processed groups come out with all parent-policy groups before
    all groups of the policy itself and, within either tier, in ascending
    priority; they are the input groups, each once, with name, priority and
    parent flag unchanged; groups of the same tier and priority keep the
    order in which they were declared. *)
Theorem groups_sorted_by_tier_then_priority
    (policy : FirewallPolicy.t) (parentPolicy : option FirewallPolicy.t) :
  let out := processFirewallPolicy policy parentPolicy in
  let declared := map taggedSummary (collectGroups policy parentPolicy) in
  StronglySorted tierLe (map groupSummary out)
  /\ Permutation declared (map groupSummary out)
  /\ forall (isP : bool) (priority : Z),
       filter (sameTier isP priority) (map groupSummary out)
       = filter (sameTier isP priority) declared.
Proof.
  cbv zeta. unfold processFirewallPolicy, JS.sortWith.
  rewrite mapGroups_summary.
  change (fun a b => compareGroups a b <=? 0) with groupsLe.
  split; [|split].
  - apply StronglySorted_map.
    eapply StronglySorted_impl; [exact groupsLe_tierLe|].
    apply sortBy_StronglySorted;
      [exact groupsLe_total|exact groupsLe_trans].
  - apply Permutation_map, sortBy_perm.
  - intros isP priority. rewrite !filter_map_comm. f_equal.
    apply sortBy_stable. intros a b Ha Hb.
    unfold sameTier, taggedSummary in Ha, Hb. simpl in Ha, Hb.
    apply andb_true_iff in Ha as [Ta Pa], Hb as [Tb Pb].
    apply Bool.eqb_prop in Ta, Tb. apply Z.eqb_eq in Pa, Pb.
    unfold groupsLe, compareGroups. rewrite Ta, Tb.
    destruct isP; simpl; apply Z.leb_le; lia.
Qed.

(** X5.  In every processed group the processed collections come in the
    order DNAT, Network, Application and, within one category, in ascending
    priority; the collections of one category and one priority are built
    from the group's collections of that priority that hold a rule of the
    category, in declaration order. *)
Theorem collections_sorted_by_category_then_priority
    (policy : FirewallPolicy.t) (parentPolicy : option FirewallPolicy.t)
    (pg : ProcessedRuleCollectionGroup.t) :
  In pg (processFirewallPolicy policy parentPolicy) ->
  StronglySorted collectionLe
    (ProcessedRuleCollectionGroup.processedCollections pg)
  /\ forall (cat : RuleCategory) (priority : Z),
       map ProcessedRuleCollection.collection
           (filter (fun pc =>
                      RuleCategory_eqb
                        (ProcessedRuleCollection.ruleCategory pc) cat
                      && (ProcessedRuleCollection.priority pc =? priority))
              (ProcessedRuleCollectionGroup.processedCollections pg))
       = filter (fun c =>
                   existsb (isRelevant cat) (RuleCollection.rules c)
                   && (RuleCollection.priority c =? priority))
                (ProcessedRuleCollectionGroup.ruleCollections pg).
Proof.
  intros Hpg.
  apply processFirewallPolicy_In in Hpg as (g & isP & s & _ & _ & ->).
  rewrite group_collections.
  cbn [ProcessedRuleCollectionGroup.ruleCollections
       processRuleCollectionGroup].
  assert (FD : forall a, In a (dnatStage g isP s) ->
                         ProcessedRuleCollection.ruleCategory a = DNAT)
    by (apply Forall_forall, stage_category).
  assert (FN : forall a, In a (networkStage g isP s) ->
                         ProcessedRuleCollection.ruleCategory a = Network)
    by (apply Forall_forall, stage_category).
  assert (FA : forall a, In a (applicationStage g isP s) ->
                         ProcessedRuleCollection.ruleCategory a = Application)
    by (apply Forall_forall, stage_category).
  split.
  - apply StronglySorted_app; [apply stage_sorted| |].
    + apply StronglySorted_app; [apply stage_sorted|apply stage_sorted|].
      intros a b Ha Hb. left. rewrite (FN _ Ha), (FA _ Hb). reflexivity.
    + intros a b Ha Hb. left. rewrite (FD _ Ha).
      apply in_app_or in Hb as [Hb|Hb];
        [rewrite (FN _ Hb)|rewrite (FA _ Hb)]; reflexivity.
  - intros cat priority.
    rewrite !filter_app, !map_app.
    unfold dnatStage, networkStage, applicationStage.
    rewrite (stage_stable DNAT "NatRule") by reflexivity.
    rewrite (stage_stable Network "NetworkRule") by reflexivity.
    rewrite (stage_stable Application "ApplicationRule") by reflexivity.
    destruct cat; simpl; rewrite ?app_nil_r; reflexivity.
Qed.

Lemma collections_sorted_by_category_then_priority_witness :
  StronglySorted collectionLe
    (ProcessedRuleCollectionGroup.processedCollections
       processedHighPriorityGroup)
  /\ forall (cat : RuleCategory) (priority : Z),
       map ProcessedRuleCollection.collection
           (filter (fun pc =>
                      RuleCategory_eqb
                        (ProcessedRuleCollection.ruleCategory pc) cat
                      && (ProcessedRuleCollection.priority pc =? priority))
              (ProcessedRuleCollectionGroup.processedCollections
                 processedHighPriorityGroup))
       = filter (fun c =>
                   existsb (isRelevant cat) (RuleCollection.rules c)
                   && (RuleCollection.priority c =? priority))
                (ProcessedRuleCollectionGroup.ruleCollections
                   processedHighPriorityGroup).
Proof.
  apply (collections_sorted_by_category_then_priority
           (complexPolicy 100 200 300 100) None).
  vm_compute. left. reflexivity.
Defined.

(** X6.  A group processed from a starting order [s >= 1] numbers its DNAT
    rules consecutively from [s]; its Network rules consecutively from
    [s + (number of DNAT rules)], or from 1 when the group has no DNAT
    rule; its Application rules consecutively from the Network start plus
    the number of Network rules, or from 1 when the group has no Network
    rule. *)
Theorem stage_handover (g : RuleCollectionGroup.t) (isP : bool) (s : Z) :
  1 <= s ->
  let cols := RuleCollectionGroup.ruleCollections g in
  let cD := relevantCount DNAT cols in
  let cN := relevantCount Network cols in
  let cA := relevantCount Application cols in
  let networkFrom := if (cD =? 0)%nat then 1 else s + Z.of_nat cD in
  let applicationFrom :=
    if (cN =? 0)%nat then 1 else networkFrom + Z.of_nat cN in
  map ProcessedRule.processingOrder
      (groupRules (processRuleCollectionGroup g isP s))
  = countFrom s cD ++ countFrom networkFrom cN
    ++ countFrom applicationFrom cA.
Proof.
  intros Hs. cbv zeta.
  rewrite group_orders_exact, applicationStart_exact, networkStart_exact
    by exact Hs.
  reflexivity.
Qed.

Lemma stage_handover_witness :
  map ProcessedRule.processingOrder
      (groupRules (processRuleCollectionGroup (lowPriorityGroup 100) false 5))
  = [1].
Proof.
  apply (stage_handover (lowPriorityGroup 100) false 5). lia.
Defined.

End OrderProperties.


Section Contiguous.
Import RuleProcessor Vocabulary Fixtures.
Local Open Scope string_scope.
Local Open Scope Z_scope.
Local Open Scope list_scope.

Lemma holdsKind_count (cat : RuleCategory) (ty : string)
    (g : RuleCollectionGroup.t) :
  (forall x, isRelevant cat x = hasRuleType ty x) ->
  holdsKind ty g ->
  (0 < relevantCount cat (RuleCollectionGroup.ruleCollections g))%nat.
Proof.
  intros Hty (c & r & Hc & Hr & E). unfold relevantCount.
  induction (RuleCollectionGroup.ruleCollections g) as [|c' cols IH];
    [contradiction|].
  simpl. destruct Hc as [->|Hc].
  - assert (Hin : In r (filter (isRelevant cat) (RuleCollection.rules c))).
    { apply filter_In. split; [exact Hr|].
      rewrite Hty. unfold hasRuleType. rewrite E. apply String.eqb_refl. }
    destruct (filter (isRelevant cat) (RuleCollection.rules c));
      [contradiction|simpl; lia].
  - specialize (IH Hc). lia.
Qed.

Lemma mapGroups_contiguous (gs : list (RuleCollectionGroup.t * bool))
    (s : Z) :
  1 <= s ->
  Forall (fun p => holdsKind "NatRule" (fst p)
                   /\ holdsKind "NetworkRule" (fst p)) gs ->
  map ProcessedRule.processingOrder (emittedRules (mapGroups gs s))
  = countFrom s (List.length (emittedRules (mapGroups gs s))).
Proof.
  revert s. induction gs as [|[g isP] gs IH]; intros s Hs Hall.
  - reflexivity.
  - inversion Hall as [|? ? [HD HN] Hrest]; subst. simpl fst in *.
    cbn [mapGroups]. rewrite emittedRules_groupRules. cbn [flat_map].
    rewrite <- emittedRules_groupRules.
    destruct (group_contiguous g isP s Hs
                (holdsKind_count DNAT "NatRule" g (fun _ => eq_refl) HD)
                (holdsKind_count Network "NetworkRule" g (fun _ => eq_refl)
                   HN)) as [Ho Hnext].
    rewrite map_app, length_app, countFrom_app, Ho, Hnext.
    f_equal. apply IH; [|exact Hrest].
    rewrite <- Hnext. apply group_next_start.
Qed.

(** X7.  When every group handed to [processFirewallPolicy] holds a NAT
    rule and a Network rule, the processing orders read in emission order
    are exactly 1, 2, ..., n. *)
Theorem orders_contiguous_when_groups_hold_nat_and_network
    (policy : FirewallPolicy.t) (parentPolicy : option FirewallPolicy.t) :
  (forall g isP, groupOf policy parentPolicy g isP ->
                 holdsKind "NatRule" g /\ holdsKind "NetworkRule" g) ->
  let emitted := emittedRules (processFirewallPolicy policy parentPolicy) in
  map ProcessedRule.processingOrder emitted
  = countFrom 1 (List.length emitted).
Proof.
  intros Hall. cbv zeta. unfold processFirewallPolicy.
  apply mapGroups_contiguous; [lia|].
  apply Forall_forall. intros [g isP] Hin.
  unfold JS.sortWith in Hin. apply sortBy_In in Hin.
  apply collectGroups_In in Hin. exact (Hall g isP Hin).
Qed.

Lemma orders_contiguous_when_groups_hold_nat_and_network_witness :
  map ProcessedRule.processingOrder
      (emittedRules (processFirewallPolicy highOnlyPolicy None))
  = countFrom 1
      (List.length (emittedRules (processFirewallPolicy highOnlyPolicy None))).
Proof.
  apply (orders_contiguous_when_groups_hold_nat_and_network
           highOnlyPolicy None).
  intros g isP [[_ (parent & E & _)]|[_ Hin]]; [discriminate|].
  destruct Hin as [<-|[]]. split.
  - exists (dnatRulesCollection 100), webServerNAT. simpl. auto.
  - exists (networkRulesCollection 200), allowHTTP. simpl. auto 6.
Defined.

End Contiguous.

(* ================================================================== *)
(** * The query helpers of RuleProcessor *)
(* ================================================================== *)

Section QueryProperties.
Import RuleProcessor Vocabulary Fixtures.
Local Open Scope string_scope.
Local Open Scope Z_scope.
Local Open Scope list_scope.

(** X8.  [getAllRulesInProcessingOrder] returns the rules of the groups,
    each once, in ascending processing order; rules that share a
    processing order keep their emission order. *)
Theorem all_rules_sorted_and_stable
    (groups : list ProcessedRuleCollectionGroup.t) :
  let sorted := getAllRulesInProcessingOrder groups in
  Permutation (emittedRules groups) sorted
  /\ StronglySorted (fun a b => ProcessedRule.processingOrder a
                               <= ProcessedRule.processingOrder b) sorted
  /\ forall k : Z,
       filter (fun r => ProcessedRule.processingOrder r =? k) sorted
       = filter (fun r => ProcessedRule.processingOrder r =? k)
           (emittedRules groups).
Proof.
  cbv zeta. unfold getAllRulesInProcessingOrder. split; [|split].
  - apply sortWith_key_perm.
  - apply sortWith_key_StronglySorted.
  - intros k. apply sortWith_key_stable.
Qed.

Lemma RuleCategory_eqb_eq (a b : RuleCategory) :
  RuleCategory_eqb a b = true <-> a = b.
Proof. destruct a, b; simpl; split; congruence. Qed.

Lemma StronglySorted_filter {A : Type} (R : A -> A -> Prop) (f : A -> bool)
    (l : list A) :
  StronglySorted R l -> StronglySorted R (filter f l).
Proof.
  induction 1 as [|x l Hs IH Hall]; simpl; [constructor|].
  destruct (f x); [|exact IH]. constructor; [exact IH|].
  rewrite Forall_forall in *. intros y Hy.
  apply filter_In in Hy as [Hy _]. auto.
Qed.

Lemma category_partition (rules : list ProcessedRule.t) :
  (countCategory DNAT rules + countCategory Network rules
   + countCategory Application rules)%nat = List.length rules.
Proof.
  unfold countCategory. induction rules as [|r rules IH]; simpl;
    [reflexivity|].
  destruct (ProcessedRule.ruleCategory r); simpl; lia.
Qed.

Lemma countCategory_perm (cat : RuleCategory) (l1 l2 : list ProcessedRule.t) :
  Permutation l1 l2 -> countCategory cat l1 = countCategory cat l2.
Proof.
  unfold countCategory. induction 1; simpl.
  - reflexivity.
  - destruct (RuleCategory_eqb _ _); simpl; lia.
  - destruct (RuleCategory_eqb (ProcessedRule.ruleCategory x) cat),
      (RuleCategory_eqb (ProcessedRule.ruleCategory y) cat); reflexivity.
  - lia.
Qed.

(** X9.  [getRulesByCategory] returns exactly the rules of the groups that
    carry the category, in ascending processing order; the three
    categories split the rules of the groups between them. *)
Theorem rules_by_category_partition
    (groups : list ProcessedRuleCollectionGroup.t) :
  (forall (cat : RuleCategory) (r : ProcessedRule.t),
     In r (getRulesByCategory groups cat)
     <-> In r (emittedRules groups) /\ ProcessedRule.ruleCategory r = cat)
  /\ (forall cat : RuleCategory,
        StronglySorted (fun a b => ProcessedRule.processingOrder a
                                   <= ProcessedRule.processingOrder b)
          (getRulesByCategory groups cat))
  /\ (List.length (getRulesByCategory groups DNAT)
      + List.length (getRulesByCategory groups Network)
      + List.length (getRulesByCategory groups Application))%nat
     = List.length (emittedRules groups).
Proof.
  split; [|split].
  - intros cat r. unfold getRulesByCategory.
    rewrite filter_In, RuleCategory_eqb_eq.
    unfold getAllRulesInProcessingOrder, JS.sortWith.
    now rewrite sortBy_In.
  - intros cat. unfold getRulesByCategory.
    apply StronglySorted_filter.
    unfold getAllRulesInProcessingOrder. apply sortWith_key_StronglySorted.
  - unfold getRulesByCategory.
    change (fun rule => RuleCategory_eqb (ProcessedRule.ruleCategory rule)
                          DNAT)
      with (fun r => RuleCategory_eqb (ProcessedRule.ruleCategory r) DNAT).
    pose proof (category_partition (getAllRulesInProcessingOrder groups))
      as H. unfold countCategory in H. rewrite H.
    symmetry. apply Permutation_length.
    unfold getAllRulesInProcessingOrder. apply sortWith_key_perm.
Qed.

Lemma findInCollections_find (pcs : list ProcessedRuleCollection.t)
    (ruleId : string) :
  findInCollections pcs ruleId
  = find (fun r => String.eqb (ProcessedRule.id r) ruleId) (flatRules pcs).
Proof.
  induction pcs as [|pc pcs IH]; simpl; [reflexivity|].
  unfold flatRules in *. simpl.
  induction (ProcessedRuleCollection.processedRules pc) as [|r rs IHr];
    simpl; [exact IH|].
  destruct (String.eqb (ProcessedRule.id r) ruleId); [reflexivity|exact IHr].
Qed.

Lemma find_app {A : Type} (f : A -> bool) (l1 l2 : list A) :
  find f (l1 ++ l2)
  = match find f l1 with Some x => Some x | None => find f l2 end.
Proof.
  induction l1 as [|x l1 IH]; simpl; [reflexivity|].
  destruct (f x); [reflexivity|exact IH].
Qed.

Lemma findRuleById_find (groups : list ProcessedRuleCollectionGroup.t)
    (ruleId : string) :
  findRuleById groups ruleId
  = find (fun r => String.eqb (ProcessedRule.id r) ruleId)
         (emittedRules groups).
Proof.
  induction groups as [|g groups IH]; simpl; [reflexivity|].
  rewrite find_app, findInCollections_find, IH. reflexivity.
Qed.

Lemma find_first {A : Type} (f : A -> bool) (l : list A) (x : A) :
  find f l = Some x ->
  f x = true
  /\ exists l1 l2, l = l1 ++ x :: l2 /\ forall y, In y l1 -> f y = false.
Proof.
  induction l as [|a l IH]; simpl; [discriminate|].
  destruct (f a) eqn:Ha.
  - intros E. injection E as ->. split; [exact Ha|].
    exists [], l. split; [reflexivity|intros y []].
  - intros E. destruct (IH E) as (Hx & l1 & l2 & -> & Hl1).
    split; [exact Hx|]. exists (a :: l1), l2. split; [reflexivity|].
    intros y [<-|Hy]; auto.
Qed.

(** X10.  [findRuleById] returns the first rule of the groups, in emission
    order, whose id is the one asked for, and [null] exactly when no rule
    of the groups has that id; looking up the id of a rule of the groups
    always finds a rule with that id. *)
Theorem find_rule_by_id_first_match
    (groups : list ProcessedRuleCollectionGroup.t) (ruleId : string) :
  (forall r, findRuleById groups ruleId = Some r ->
             ProcessedRule.id r = ruleId
             /\ exists before after,
                  emittedRules groups = before ++ r :: after
                  /\ forall x, In x before -> ProcessedRule.id x <> ruleId)
  /\ (findRuleById groups ruleId = None
      <-> forall x, In x (emittedRules groups) ->
                    ProcessedRule.id x <> ruleId)
  /\ (forall x, In x (emittedRules groups) ->
                exists r, findRuleById groups (ProcessedRule.id x) = Some r
                          /\ ProcessedRule.id r = ProcessedRule.id x).
Proof.
  split; [|split].
  - intros r H. rewrite findRuleById_find in H.
    apply find_first in H as (Hid & l1 & l2 & E & Hl1).
    apply String.eqb_eq in Hid. split; [exact Hid|].
    exists l1, l2. split; [exact E|].
    intros x Hx. apply String.eqb_neq. now apply Hl1.
  - rewrite findRuleById_find. split.
    + intros H x Hx. apply String.eqb_neq.
      now apply (find_none _ _ H).
    + intros H.
      destruct (find _ (emittedRules groups)) as [r|] eqn:E; [|reflexivity].
      apply find_some in E as [Hin Hid]. apply String.eqb_eq in Hid.
      now apply H in Hin.
  - intros x Hx. rewrite findRuleById_find.
    destruct (find (fun r => String.eqb (ProcessedRule.id r)
                               (ProcessedRule.id x))
                   (emittedRules groups)) as [r|] eqn:E.
    + exists r. split; [reflexivity|].
      apply find_some in E as [_ Hid]. now apply String.eqb_eq.
    + apply (find_none _ _ E) in Hx. now rewrite String.eqb_refl in Hx.
Qed.

End QueryProperties.


Section StatisticsOfGroups.
Import RuleProcessor Vocabulary Fixtures.
Local Open Scope Z_scope.
Local Open Scope list_scope.

Lemma countCategory_app (cat : RuleCategory) (l1 l2 : list ProcessedRule.t) :
  countCategory cat (l1 ++ l2)
  = (countCategory cat l1 + countCategory cat l2)%nat.
Proof. unfold countCategory. now rewrite filter_app, length_app. Qed.

Lemma bump_fold (rules : list ProcessedRule.t) (rb : RulesByCategory) :
  fold_left bump rules rb
  = mkRulesByCategory (statDNAT rb + countCategory DNAT rules)
      (statNetwork rb + countCategory Network rules)
      (statApplication rb + countCategory Application rules).
Proof.
  revert rb. induction rules as [|r rules IH]; intros rb.
  - destruct rb. simpl. unfold countCategory. simpl.
    now rewrite !Nat.add_0_r.
  - cbn [fold_left]. rewrite IH. unfold bump, countCategory. simpl.
    destruct (ProcessedRule.ruleCategory r); simpl; f_equal; lia.
Qed.

Lemma statsCollection_fold (pcs : list ProcessedRuleCollection.t)
    (st : ProcessingStatistics) :
  fold_left statsCollection pcs st
  = mkProcessingStatistics (totalGroups st) (totalCollections st)
      (totalRules st + List.length (flatRules pcs))
      (parentPolicyGroups st) (childPolicyGroups st)
      (mkRulesByCategory
         (statDNAT (rulesByCategory st) + countCategory DNAT (flatRules pcs))
         (statNetwork (rulesByCategory st)
          + countCategory Network (flatRules pcs))
         (statApplication (rulesByCategory st)
          + countCategory Application (flatRules pcs))).
Proof.
  revert st. induction pcs as [|pc pcs IH]; intros st.
  - destruct st as [a b c d e [x y z]]. simpl. unfold countCategory. simpl.
    now rewrite !Nat.add_0_r.
  - cbn [fold_left]. rewrite IH. unfold statsCollection. simpl.
    rewrite bump_fold. unfold flatRules. simpl.
    rewrite length_app, !countCategory_app. simpl. f_equal; [lia|].
    f_equal; lia.
Qed.

Lemma statsGroup_fold (groups : list ProcessedRuleCollectionGroup.t)
    (st : ProcessingStatistics) :
  fold_left statsGroup groups st
  = mkProcessingStatistics (totalGroups st)
      (totalCollections st + List.length (allCollections groups))
      (totalRules st + List.length (emittedRules groups))
      (parentPolicyGroups st + flagged true groups)
      (childPolicyGroups st + flagged false groups)
      (mkRulesByCategory
         (statDNAT (rulesByCategory st)
          + countCategory DNAT (emittedRules groups))
         (statNetwork (rulesByCategory st)
          + countCategory Network (emittedRules groups))
         (statApplication (rulesByCategory st)
          + countCategory Application (emittedRules groups))).
Proof.
  revert st. induction groups as [|g groups IH]; intros st.
  - destruct st as [a b c d e [x y z]]. simpl.
    unfold countCategory, flagged. simpl. now rewrite !Nat.add_0_r.
  - cbn [fold_left]. rewrite IH. unfold statsGroup.
    rewrite statsCollection_fold. simpl.
    unfold allCollections, flagged. simpl.
    rewrite !length_app, !countCategory_app.
    fold (flatRules (ProcessedRuleCollectionGroup.processedCollections g)).
    destruct (ProcessedRuleCollectionGroup.isParentPolicy g); simpl;
      f_equal; try lia; f_equal; lia.
Qed.

(** X11.  [getProcessingStatistics] counts what the groups hold: the
    groups, their processed collections, their processed rules, the groups
    flagged parent and not, and the rules of each category; parent and
    child groups add up to the groups and the three categories to the
    rules. *)
Theorem processing_statistics_count_the_output
    (groups : list ProcessedRuleCollectionGroup.t) :
  let stats := getProcessingStatistics groups in
  totalGroups stats = List.length groups
  /\ totalCollections stats = List.length (allCollections groups)
  /\ totalRules stats = List.length (emittedRules groups)
  /\ parentPolicyGroups stats = flagged true groups
  /\ childPolicyGroups stats = flagged false groups
  /\ (parentPolicyGroups stats + childPolicyGroups stats)%nat
     = totalGroups stats
  /\ statDNAT (rulesByCategory stats)
     = countCategory DNAT (emittedRules groups)
  /\ statNetwork (rulesByCategory stats)
     = countCategory Network (emittedRules groups)
  /\ statApplication (rulesByCategory stats)
     = countCategory Application (emittedRules groups)
  /\ (statDNAT (rulesByCategory stats) + statNetwork (rulesByCategory stats)
      + statApplication (rulesByCategory stats))%nat
     = totalRules stats.
Proof.
  cbv zeta. unfold getProcessingStatistics. rewrite statsGroup_fold. simpl.
  repeat split.
  - unfold flagged.
    induction groups as [|g groups IH]; simpl; [reflexivity|].
    destruct (ProcessedRuleCollectionGroup.isParentPolicy g); simpl; lia.
  - apply category_partition.
Qed.

Lemma narrowAll_finite (zs : list Z) (lo hi : Z) (seen : list Z) :
  In lo seen -> In hi seen -> (forall z, In z seen -> lo <= z <= hi) ->
  exists lo' hi',
    narrowAll zs (mkPriorityRange (Finite lo) (Finite hi))
    = mkPriorityRange (Finite lo') (Finite hi')
    /\ In lo' (seen ++ zs) /\ In hi' (seen ++ zs)
    /\ forall z, In z (seen ++ zs) -> lo' <= z <= hi'.
Proof.
  revert lo hi seen. induction zs as [|x zs IH]; intros lo hi seen Hlo Hhi Hb.
  - exists lo, hi. rewrite app_nil_r. auto.
  - cbn [narrowAll fold_left]. unfold narrow at 2. simpl.
    destruct (IH (Z.min lo x) (Z.max hi x) (seen ++ [x]))
      as (lo' & hi' & E & H1 & H2 & H3).
    + apply in_or_app.
      destruct (Z.min_spec lo x) as [[_ ->]|[_ ->]]; [left|right]; simpl; auto.
    + apply in_or_app.
      destruct (Z.max_spec hi x) as [[_ ->]|[_ ->]]; [right|left]; simpl; auto.
    + intros z Hz. apply in_app_or in Hz as [Hz|[<-|[]]].
      * specialize (Hb z Hz). lia.
      * lia.
    + rewrite <- app_assoc in H1, H2, H3. simpl in H1, H2, H3.
      exists lo', hi'. auto.
Qed.

Lemma narrowAll_rangeOver (zs : list Z) :
  rangeOver zs (narrowAll zs emptyRange).
Proof.
  destruct zs as [|x zs]; [left; auto|right].
  cbn [narrowAll fold_left]. unfold narrow at 2. simpl.
  destruct (narrowAll_finite zs x x [x]) as (lo & hi & E & H1 & H2 & H3).
  - now left.
  - now left.
  - intros z [<-|[]]. lia.
  - exists lo, hi. auto.
Qed.

Lemma groupPriorityRange_narrowAll
    (groups : list ProcessedRuleCollectionGroup.t) (range : PriorityRange) :
  fold_left (fun range group =>
               narrow range (ProcessedRuleCollectionGroup.priority group))
            groups range
  = narrowAll (map ProcessedRuleCollectionGroup.priority groups) range.
Proof.
  revert range. induction groups as [|g groups IH]; intros range;
    [reflexivity|]. simpl. apply IH.
Qed.

Lemma collectionRange_narrowAll (pcs : list ProcessedRuleCollection.t)
    (range : PriorityRange) :
  fold_left (fun range collection =>
               narrow range (ProcessedRuleCollection.priority collection))
            pcs range
  = narrowAll (map ProcessedRuleCollection.priority pcs) range.
Proof.
  revert range. induction pcs as [|pc pcs IH]; intros range;
    [reflexivity|]. simpl. apply IH.
Qed.

Lemma collectionPriorityRange_narrowAll
    (groups : list ProcessedRuleCollectionGroup.t) (range : PriorityRange) :
  fold_left
    (fun range group =>
       fold_left (fun range collection =>
                    narrow range (ProcessedRuleCollection.priority collection))
                 (ProcessedRuleCollectionGroup.processedCollections group)
                 range)
    groups range
  = narrowAll (map ProcessedRuleCollection.priority (allCollections groups))
      range.
Proof.
  revert range. induction groups as [|g groups IH]; intros range;
    [reflexivity|].
  cbn [fold_left]. rewrite IH, collectionRange_narrowAll.
  unfold allCollections, narrowAll. simpl.
  now rewrite map_app, fold_left_app.
Qed.

(** X12.  The priority ranges of the statistics are the least and the
    greatest priority of the groups, and of their processed collections;
    with no group, or no processed collection, the range stays at
    [{ min: Infinity, max: -Infinity }]. *)
Theorem priority_ranges_are_least_and_greatest
    (groups : list ProcessedRuleCollectionGroup.t) :
  rangeOver (map ProcessedRuleCollectionGroup.priority groups)
            (groupPriorityRange groups)
  /\ rangeOver (map ProcessedRuleCollection.priority (allCollections groups))
               (collectionPriorityRange groups).
Proof.
  unfold groupPriorityRange, collectionPriorityRange.
  rewrite groupPriorityRange_narrowAll, collectionPriorityRange_narrowAll.
  split; apply narrowAll_rangeOver.
Qed.

End StatisticsOfGroups.


(* ================================================================== *)
(** * Grouping by key in insertion order *)
(* ================================================================== *)

Section Grouping.
Import Vocabulary.
Context {K V : Type} (eqb : K -> K -> bool).
Hypothesis eqb_eq : forall a b, eqb a b = true <-> a = b.

Lemma eqb_refl_k (a : K) : eqb a a = true.
Proof. now apply eqb_eq. Qed.

Lemma assoc_push (k1 k : K) (v : V) (m : list (K * list V)) :
  assoc eqb k1 (push eqb k v m)
  = if eqb k k1
    then Some (match assoc eqb k m with
               | Some vs => vs ++ [v]
               | None => [v]
               end)
    else assoc eqb k1 m.
Proof.
  induction m as [|[k' vs] m IH]; simpl.
  - reflexivity.
  - destruct (eqb k' k) eqn:Ek; simpl.
    + apply eqb_eq in Ek. subst k'.
      destruct (eqb k k1); reflexivity.
    + destruct (eqb k' k1) eqn:Ek1.
      * apply eqb_eq in Ek1. subst k'.
        destruct (eqb k k1) eqn:E; [|reflexivity].
        apply eqb_eq in E. subst. rewrite eqb_refl_k in Ek. discriminate.
      * exact IH.
Qed.

Lemma push_keys_In (k k1 : K) (v : V) (m : list (K * list V)) :
  In k1 (map fst (push eqb k v m)) <-> k1 = k \/ In k1 (map fst m).
Proof.
  induction m as [|[k' vs] m IH]; simpl.
  - intuition.
  - destruct (eqb k' k) eqn:Ek; simpl.
    + apply eqb_eq in Ek. subst. intuition.
    + rewrite IH. intuition.
Qed.

Lemma push_NoDup (k : K) (v : V) (m : list (K * list V)) :
  NoDup (map fst m) -> NoDup (map fst (push eqb k v m)).
Proof.
  induction m as [|[k' vs] m IH]; simpl; intros H.
  - repeat constructor. intros [].
  - inversion H as [|? ? Hnot Hrest]; subst.
    destruct (eqb k' k) eqn:Ek; simpl.
    + now constructor.
    + constructor; [|auto].
      rewrite push_keys_In. intros [->|Hin]; [|contradiction].
      rewrite eqb_refl_k in Ek. discriminate.
Qed.

Lemma assoc_In (k : K) (vs : list V) (m : list (K * list V)) :
  NoDup (map fst m) -> (In (k, vs) m <-> assoc eqb k m = Some vs).
Proof.
  induction m as [|[k' vs'] m IH]; simpl; intros H.
  - split; [tauto|discriminate].
  - inversion H as [|? ? Hnot Hrest]; subst.
    destruct (eqb k' k) eqn:Ek.
    + apply eqb_eq in Ek. subst k'. split.
      * intros [E|Hin]; [congruence|].
        exfalso. apply Hnot. apply in_map_iff. now exists (k, vs).
      * intros E. left. congruence.
    + rewrite <- (IH Hrest). split; [|auto].
      intros [E|Hin]; [|exact Hin].
      injection E as -> _. rewrite eqb_refl_k in Ek. discriminate.
Qed.

Lemma fold_push_assoc (items : list (K * V)) (m : list (K * list V))
    (k : K) :
  assoc eqb k (fold_left (fun m x => push eqb (fst x) (snd x) m) items m)
  = extend (assoc eqb k m) (valuesOf eqb k items).
Proof.
  revert m. induction items as [|[kx vx] items IH]; intros m; simpl.
  - reflexivity.
  - rewrite IH, assoc_push. unfold valuesOf. simpl.
    destruct (eqb kx k) eqn:E; simpl; [|reflexivity].
    apply eqb_eq in E. subst kx.
    destruct (assoc eqb k m) as [vs|];
      destruct (map snd (filter (fun x => eqb (fst x) k) items));
      simpl; rewrite <- ?app_assoc; reflexivity.
Qed.

Lemma fold_push_NoDup (items : list (K * V)) (m : list (K * list V)) :
  NoDup (map fst m) ->
  NoDup (map fst (fold_left (fun m x => push eqb (fst x) (snd x) m)
                    items m)).
Proof.
  revert m. induction items as [|x items IH]; intros m H; simpl; [exact H|].
  apply IH. now apply push_NoDup.
Qed.

(** The entries of the map filled from [items]: one per key that occurs,
    holding the values filed under the key, in order. *)
Lemma grouped_entries (items : list (K * V)) (k : K) (vs : list V) :
  In (k, vs) (fold_left (fun m x => push eqb (fst x) (snd x) m) items [])
  <-> vs = valuesOf eqb k items /\ vs <> [].
Proof.
  rewrite assoc_In by (apply fold_push_NoDup; constructor).
  rewrite fold_push_assoc. simpl.
  destruct (valuesOf eqb k items) as [|v l]; simpl.
  - split; [discriminate|]. intros [-> H]. now elim H.
  - split.
    + intros E. injection E as <-. split; [reflexivity|discriminate].
    + intros [-> _]. reflexivity.
Qed.

End Grouping.


(* ================================================================== *)
(** * validateProcessingOrder *)
(* ================================================================== *)

Section ValidateFacts.
Import RuleProcessor Vocabulary Fixtures.
Local Open Scope string_scope.
Local Open Scope Z_scope.
Local Open Scope list_scope.

Lemma gapLoop_types (previous : ProcessedRule.t)
    (remaining : list ProcessedRule.t) :
  Forall (fun w => ValidationWarning.type w = "processing_gap")
         (gapLoop previous remaining).
Proof.
  revert previous. induction remaining as [|cur rest IH]; intros previous;
    simpl; [constructor|].
  destruct (negb _); [constructor; [reflexivity|]|]; apply IH.
Qed.

Lemma duplicatePriorities_types (m : list (Z * list string)) :
  Forall (fun w => ValidationWarning.type w = "duplicate_priority")
         (duplicatePriorities m).
Proof.
  induction m as [|[p names] m IH]; simpl; [constructor|].
  destruct (1 <? List.length names)%nat; [constructor; [reflexivity|]|];
    exact IH.
Qed.

Lemma gapLoop_nil (previous : ProcessedRule.t)
    (remaining : list ProcessedRule.t) :
  gapLoop previous remaining = []
  <-> consecutive (ProcessedRule.processingOrder previous
                   :: map ProcessedRule.processingOrder remaining).
Proof.
  revert previous. induction remaining as [|cur rest IH]; intros previous.
  - simpl. tauto.
  - cbn [gapLoop map consecutive].
    destruct (Z.eqb_spec (ProcessedRule.processingOrder cur)
                (ProcessedRule.processingOrder previous + 1)) as [E|NE];
      cbn [negb].
    + rewrite IH. tauto.
    + split; [discriminate|]. intros [H _]. contradiction.
Qed.

Lemma processingGaps_nil (allRules : list ProcessedRule.t) :
  processingGaps allRules = []
  <-> consecutive (map ProcessedRule.processingOrder allRules).
Proof.
  destruct allRules as [|first rest]; [simpl; tauto|].
  apply gapLoop_nil.
Qed.

Lemma filter_all_true {A : Type} (f : A -> bool) (l : list A) :
  Forall (fun x => f x = true) l -> filter f l = l.
Proof.
  induction 1 as [|x l Hx Hl IH]; simpl; [reflexivity|].
  now rewrite Hx, IH.
Qed.

Lemma warnings_split (groups : list ProcessedRuleCollectionGroup.t) :
  warningsOfType "processing_gap" (validateProcessingOrder groups)
  = processingGaps (getAllRulesInProcessingOrder groups)
  /\ warningsOfType "duplicate_priority" (validateProcessingOrder groups)
     = duplicatePriorities (collectGroupPriorities groups).
Proof.
  unfold warningsOfType, validateProcessingOrder.
  assert (HG : Forall (fun w => ValidationWarning.type w = "processing_gap")
                 (processingGaps (getAllRulesInProcessingOrder groups))).
  { unfold processingGaps.
    destruct (getAllRulesInProcessingOrder groups);
      [constructor|apply gapLoop_types]. }
  pose proof (duplicatePriorities_types (collectGroupPriorities groups))
    as HD.
  rewrite !filter_app. split.
  - rewrite filter_all_true, filter_all_false, app_nil_r; auto.
    + rewrite Forall_forall in HD. intros w Hw.
      now rewrite (HD w Hw).
    + eapply Forall_impl; [|exact HG]. intros w ->. reflexivity.
  - rewrite filter_all_false, filter_all_true; auto.
    + eapply Forall_impl; [|exact HD]. intros w ->. reflexivity.
    + rewrite Forall_forall in HG. intros w Hw.
      now rewrite (HG w Hw).
Qed.

Lemma Z_eqb_eq (a b : Z) : (a =? b) = true <-> a = b.
Proof. apply Z.eqb_eq. Qed.

Lemma pushName_push (priority : Z) (name : string)
    (m : list (Z * list string)) :
  pushName priority name m = push Z.eqb priority name m.
Proof.
  induction m as [|[p names] m IH]; simpl; [reflexivity|].
  now rewrite IH.
Qed.

Lemma collectGroupPriorities_push
    (groups : list ProcessedRuleCollectionGroup.t) :
  collectGroupPriorities groups
  = fold_left (fun m x => push Z.eqb (fst x) (snd x) m)
              (map priorityAndName groups) [].
Proof.
  unfold collectGroupPriorities. generalize (@nil (Z * list string)).
  induction groups as [|g groups IH]; intros m; simpl; [reflexivity|].
  now rewrite IH, pushName_push.
Qed.

Lemma valuesOf_length (p : Z) (groups : list ProcessedRuleCollectionGroup.t) :
  List.length (valuesOf Z.eqb p (map priorityAndName groups))
  = count_occ Z.eq_dec (map ProcessedRuleCollectionGroup.priority groups) p.
Proof.
  unfold valuesOf. rewrite length_map.
  induction groups as [|g groups IH]; simpl; [reflexivity|].
  destruct (Z.eqb_spec (ProcessedRuleCollectionGroup.priority g) p) as [E|NE];
    destruct (Z.eq_dec (ProcessedRuleCollectionGroup.priority g) p);
    simpl; try congruence; now rewrite IH.
Qed.

Lemma duplicatePriorities_nil (m : list (Z * list string)) :
  duplicatePriorities m = []
  <-> forall p names, In (p, names) m -> (List.length names <= 1)%nat.
Proof.
  induction m as [|[p names] m IH]; simpl.
  - split; [intros _ ? ? []|reflexivity].
  - destruct (Nat.ltb_spec 1 (List.length names)) as [Hlt|Hge].
    + split; [discriminate|].
      intros H. specialize (H p names (or_introl eq_refl)). lia.
    + rewrite IH. split.
      * intros H q ns [E|Hin];
          [injection E as <- <-; exact Hge|exact (H q ns Hin)].
      * intros H q ns Hin. apply (H q ns). now right.
Qed.

End ValidateFacts.

Section ValidateProperties.
Import RuleProcessor Vocabulary Fixtures.
Local Open Scope string_scope.
Local Open Scope Z_scope.
Local Open Scope list_scope.

(** X13.  Every warning of [validateProcessingOrder] is a processing_gap or
    a duplicate_priority warning, and no processing_gap warning is issued
    exactly when the processing orders of the rules, sorted, are
    consecutive: each is the one before it plus one. *)
Theorem gap_warnings_iff_not_consecutive
    (groups : list ProcessedRuleCollectionGroup.t) :
  let ws := validateProcessingOrder groups in
  (forall w, In w ws ->
             ValidationWarning.type w = "processing_gap"
             \/ ValidationWarning.type w = "duplicate_priority")
  /\ (warningsOfType "processing_gap" ws = []
      <-> consecutive (map ProcessedRule.processingOrder
                         (getAllRulesInProcessingOrder groups))).
Proof.
  cbv zeta. split.
  - intros w Hw. unfold validateProcessingOrder in Hw.
    apply in_app_or in Hw as [Hw|Hw].
    + left. unfold processingGaps in Hw.
      destruct (getAllRulesInProcessingOrder groups) as [|first rest];
        [contradiction|].
      pose proof (gapLoop_types first rest) as H.
      rewrite Forall_forall in H. now apply H.
    + right. pose proof (duplicatePriorities_types
                           (collectGroupPriorities groups)) as H.
      rewrite Forall_forall in H. now apply H.
  - rewrite (proj1 (warnings_split groups)). apply processingGaps_nil.
Qed.

(** X14.  [validateProcessingOrder] issues no duplicate_priority warning
    exactly when the priorities of the groups are pairwise different. *)
Theorem duplicate_priority_warnings_iff_shared_priority
    (groups : list ProcessedRuleCollectionGroup.t) :
  warningsOfType "duplicate_priority" (validateProcessingOrder groups) = []
  <-> NoDup (map ProcessedRuleCollectionGroup.priority groups).
Proof.
  rewrite (proj2 (warnings_split groups)), duplicatePriorities_nil,
    collectGroupPriorities_push.
  rewrite (NoDup_count_occ Z.eq_dec). split.
  - intros H p.
    destruct (valuesOf Z.eqb p (map priorityAndName groups)) as [|n ns] eqn:E.
    + rewrite <- valuesOf_length, E. simpl. lia.
    + rewrite <- valuesOf_length.
      apply (H p). apply (grouped_entries Z.eqb Z_eqb_eq).
      split; [reflexivity|]. rewrite E. discriminate.
  - intros H p names Hin.
    apply (grouped_entries Z.eqb Z_eqb_eq) in Hin as [-> _].
    rewrite valuesOf_length. apply H.
Qed.

End ValidateProperties.


(* ================================================================== *)
(** * Policy summary and validation of the parser *)
(* ================================================================== *)

Section CategoryCounts.
Import RuleProcessor Vocabulary.
Local Open Scope string_scope.
Local Open Scope Z_scope.
Local Open Scope list_scope.

Lemma countCategory_uniform (wanted cat : RuleCategory)
    (l : list ProcessedRule.t) :
  Forall (fun r => ProcessedRule.ruleCategory r = cat) l ->
  countCategory wanted l
  = if RuleCategory_eqb cat wanted then List.length l else 0%nat.
Proof.
  unfold countCategory.
  destruct (RuleCategory_eqb cat wanted) eqn:E;
    induction 1 as [|r l Hr Hl IH]; simpl; try reflexivity;
    rewrite Hr, E; simpl; now rewrite ?IH.
Qed.

Lemma stage_countCategory (wanted cat : RuleCategory) (gname : string)
    (gprio : Z) (isP : bool) (cols : list RuleCollection.t) (s : Z) :
  countCategory wanted
    (flatRules (processRuleCollectionsByType cols cat gname gprio isP s))
  = if RuleCategory_eqb cat wanted then relevantCount cat cols else 0%nat.
Proof.
  rewrite (countCategory_uniform wanted cat), byType_count; [reflexivity|].
  eapply Forall_impl; [|apply byType_stamped].
  intros r H. apply H.
Qed.

Lemma group_countCategory (wanted : RuleCategory)
    (g : RuleCollectionGroup.t) (isP : bool) (s : Z) :
  countCategory wanted (groupRules (processRuleCollectionGroup g isP s))
  = relevantCount wanted (RuleCollectionGroup.ruleCollections g).
Proof.
  rewrite groupRules_stages, !countCategory_app.
  unfold dnatStage, networkStage, applicationStage.
  rewrite !stage_countCategory.
  rewrite (relevantCount_bucket DNAT "NatRule") by reflexivity.
  rewrite (relevantCount_bucket Network "NetworkRule") by reflexivity.
  rewrite (relevantCount_bucket Application "ApplicationRule")
    by reflexivity.
  destruct wanted; simpl; lia.
Qed.

Lemma mapGroups_countCategory (wanted : RuleCategory)
    (gs : list (RuleCollectionGroup.t * bool)) (s : Z) :
  countCategory wanted (emittedRules (mapGroups gs s))
  = list_sum (map (relevantOf wanted) gs).
Proof.
  revert s. induction gs as [|[g isP] gs IH]; intros s; [reflexivity|].
  cbn [mapGroups map list_sum].
  rewrite emittedRules_groupRules. cbn [flat_map].
  rewrite countCategory_app, <- emittedRules_groupRules, IH,
    group_countCategory.
  reflexivity.
Qed.

Lemma relevantOf_perm (cat : RuleCategory)
    (l1 l2 : list (RuleCollectionGroup.t * bool)) :
  Permutation l1 l2 ->
  list_sum (map (relevantOf cat) l1) = list_sum (map (relevantOf cat) l2).
Proof. induction 1; simpl; lia. Qed.

(** The rules of a category in the output are the rules of that kind in
    the input. *)
Lemma processFirewallPolicy_countCategory (wanted : RuleCategory)
    (policy : FirewallPolicy.t) :
  countCategory wanted (emittedRules (processFirewallPolicy policy None))
  = list_sum (map (fun g => relevantCount wanted
                              (RuleCollectionGroup.ruleCollections g))
                  (FirewallPolicy.ruleCollectionGroups policy)).
Proof.
  unfold processFirewallPolicy, JS.sortWith.
  rewrite mapGroups_countCategory.
  rewrite <- (relevantOf_perm wanted _ _ (sortBy_perm _ _)).
  unfold collectGroups. simpl. rewrite map_map. reflexivity.
Qed.

End CategoryCounts.

Section SummaryFacts.
Import RuleProcessor FirewallPolicyParser Vocabulary.
Local Open Scope string_scope.
Local Open Scope list_scope.

Lemma countRule_fold (rules : list FirewallRule.t) (k : Counters) :
  fold_left countRule rules k
  = mkCounters (FirewallPolicyParser.totalRules k)
      (natRules k + List.length (filter (isRelevant DNAT) rules))
      (networkRules k + List.length (filter (isRelevant Network) rules))
      (applicationRules k
       + List.length (filter (isRelevant Application) rules)).
Proof.
  revert k. induction rules as [|r rules IH]; intros k.
  - destruct k. simpl. now rewrite !Nat.add_0_r.
  - cbn [fold_left]. rewrite IH. unfold countRule, isRelevant, hasRuleType.
    cbn [filter].
    destruct (String.eqb_spec (FirewallRule.ruleType r) "NatRule")
      as [E|N1].
    + rewrite E. simpl. f_equal; lia.
    + destruct (String.eqb_spec (FirewallRule.ruleType r) "NetworkRule")
        as [E|N2].
      * rewrite E. simpl. f_equal; lia.
      * destruct (String.eqb_spec (FirewallRule.ruleType r)
                    "ApplicationRule") as [E|N3]; simpl; f_equal; lia.
Qed.

Lemma countGroups_fold (groups : list RuleCollectionGroup.t) (k : Counters) :
  fold_left countGroup groups k
  = mkCounters
      (FirewallPolicyParser.totalRules k
       + List.length (flat_map rulesOfGroup groups))
      (natRules k
       + list_sum (map (fun g => relevantCount DNAT
                                   (RuleCollectionGroup.ruleCollections g))
                       groups))
      (networkRules k
       + list_sum (map (fun g => relevantCount Network
                                   (RuleCollectionGroup.ruleCollections g))
                       groups))
      (applicationRules k
       + list_sum (map (fun g => relevantCount Application
                                   (RuleCollectionGroup.ruleCollections g))
                       groups)).
Proof.
  assert (Hc : forall cols k,
             fold_left countCollection cols k
             = mkCounters
                 (FirewallPolicyParser.totalRules k
                  + List.length (flat_map RuleCollection.rules cols))
                 (natRules k + relevantCount DNAT cols)
                 (networkRules k + relevantCount Network cols)
                 (applicationRules k + relevantCount Application cols)).
  { induction cols as [|c cols IH]; intros k0.
    - destruct k0. simpl. unfold relevantCount. simpl.
      now rewrite !Nat.add_0_r.
    - cbn [fold_left]. rewrite IH. unfold countCollection.
      rewrite countRule_fold. unfold relevantCount. simpl.
      rewrite length_app. f_equal; lia. }
  revert k. induction groups as [|g groups IH]; intros k.
  - destruct k. simpl. now rewrite !Nat.add_0_r.
  - cbn [fold_left]. rewrite IH. unfold countGroup. rewrite Hc. simpl.
    rewrite length_app. unfold rulesOfGroup at 2. f_equal; lia.
Qed.

End SummaryFacts.

Section ParserProperties.
Import RuleProcessor FirewallPolicyParser Vocabulary Fixtures.
Local Open Scope string_scope.
Local Open Scope list_scope.

Lemma getProcessingStatistics_counts
    (groups : list ProcessedRuleCollectionGroup.t) :
  totalGroups (getProcessingStatistics groups) = List.length groups
  /\ RuleProcessor.totalRules (getProcessingStatistics groups)
     = List.length (emittedRules groups)
  /\ statDNAT (rulesByCategory (getProcessingStatistics groups))
     = countCategory DNAT (emittedRules groups)
  /\ statNetwork (rulesByCategory (getProcessingStatistics groups))
     = countCategory Network (emittedRules groups)
  /\ statApplication (rulesByCategory (getProcessingStatistics groups))
     = countCategory Application (emittedRules groups).
Proof.
  unfold getProcessingStatistics. rewrite statsGroup_fold. simpl.
  repeat split.
Qed.

(** X15.  For a policy processed without a parent, the per-kind counts of
    [getPolicySummary] equal the per-category counts of
    [getProcessingStatistics] on the output of [processFirewallPolicy], and
    the two agree on the number of groups; the summary counts every rule of
    the policy, the statistics only the rules of a recognised kind, so the
    statistics' total never exceeds the summary's. *)
Theorem summary_agrees_with_processing_statistics
    (policy : FirewallPolicy.t) :
  let summary := getPolicySummary policy in
  let stats := getProcessingStatistics (processFirewallPolicy policy None) in
  typeDNAT (rulesByType summary) = statDNAT (rulesByCategory stats)
  /\ typeNetwork (rulesByType summary) = statNetwork (rulesByCategory stats)
  /\ typeApplication (rulesByType summary)
     = statApplication (rulesByCategory stats)
  /\ totalRuleGroups summary = totalGroups stats
  /\ summaryTotalRules summary = List.length (rulesOfPolicy policy)
  /\ RuleProcessor.totalRules stats
     = List.length (filter knownKindb (rulesOfPolicy policy))
  /\ RuleProcessor.totalRules stats <= summaryTotalRules summary.
Proof.
  cbv zeta.
  destruct (getProcessingStatistics_counts
              (processFirewallPolicy policy None))
    as (HG & HR & HD & HN & HA).
  rewrite HD, HN, HA, HG, HR, !processFirewallPolicy_countCategory.
  unfold getPolicySummary. rewrite countGroups_fold. simpl.
  rewrite processFirewallPolicy_count.
  unfold inputRules, rulesOfPolicy. simpl.
  repeat split.
  - unfold processFirewallPolicy, JS.sortWith, collectGroups. simpl.
    rewrite <- (length_map groupSummary), mapGroups_summary, length_map,
      sortBy_length, length_map. reflexivity.
  - apply filter_length_le.
Qed.

Lemma missing_spec (name : string) : missing name = false <-> name <> "".
Proof. unfold missing. apply String.eqb_neq. Qed.

Lemma invalidPriority_spec (priority : Z) :
  invalidPriority priority = false <-> (100 <= priority <= 65000)%Z.
Proof.
  unfold invalidPriority. rewrite orb_false_iff, Z.ltb_ge.
  destruct (Z.gtb_spec priority 65000); split; intros; intuition lia.
Qed.

Lemma validateRuleCollections_spec (groupName : string)
    (collections : list RuleCollection.t) (collectionIndex : nat) :
  validateRuleCollections groupName collections collectionIndex = Returned tt
  <-> Forall wellFormedCollection collections.
Proof.
  revert collectionIndex.
  induction collections as [|c cols IH]; intros idx; simpl.
  - split; [constructor|reflexivity].
  - destruct (missing (RuleCollection.name c)) eqn:Hm.
    + split; [discriminate|]. intros H. inversion H as [|? ? [Hn _] _]; subst.
      apply missing_spec in Hn. congruence.
    + destruct (invalidPriority (RuleCollection.priority c)) eqn:Hp.
      * split; [discriminate|].
        intros H. inversion H as [|? ? [_ Hr] _]; subst.
        apply invalidPriority_spec in Hr. congruence.
      * rewrite IH. apply missing_spec in Hm.
        apply invalidPriority_spec in Hp. split.
        -- intros H. constructor; [split; assumption|exact H].
        -- intros H. now inversion H.
Qed.

Lemma validateRuleCollectionGroups_spec
    (groups : list RuleCollectionGroup.t) (groupIndex : nat) :
  validateRuleCollectionGroups groups groupIndex = Returned tt
  <-> Forall wellFormedGroup groups.
Proof.
  revert groupIndex. induction groups as [|g groups IH]; intros idx; simpl.
  - split; [constructor|reflexivity].
  - destruct (missing (RuleCollectionGroup.name g)) eqn:Hm.
    + split; [discriminate|].
      intros H. inversion H as [|? ? [Hn _] _]; subst.
      apply missing_spec in Hn. congruence.
    + destruct (invalidPriority (RuleCollectionGroup.priority g)) eqn:Hp.
      * split; [discriminate|].
        intros H. inversion H as [|? ? (_ & Hr & _) _]; subst.
        apply invalidPriority_spec in Hr. congruence.
      * apply missing_spec in Hm. apply invalidPriority_spec in Hp.
        destruct (validateRuleCollections (RuleCollectionGroup.name g)
                    (RuleCollectionGroup.ruleCollections g) 0)
          as [[]|message] eqn:Hc.
        -- apply validateRuleCollections_spec in Hc. rewrite IH. split.
           ++ intros H. constructor; [exact (conj Hm (conj Hp Hc))|exact H].
           ++ intros H. now inversion H.
        -- split; [discriminate|].
           intros H. inversion H as [|? ? (_ & _ & Hcs) _]; subst.
           apply validateRuleCollections_spec
             with (groupName := RuleCollectionGroup.name g)
                  (collectionIndex := 0%nat) in Hcs.
           congruence.
Qed.

(** X16.  [validateParsedPolicy] returns without throwing exactly for the
    policies that have a name, at least one rule collection group, and in
    which every group and every collection has a name and a priority
    between 100 and 65000; for every other policy it throws. *)
Theorem validation_accepts_well_formed_policies (policy : FirewallPolicy.t) :
  (validateParsedPolicy policy = Returned tt <-> wellFormedPolicy policy)
  /\ ((exists message, validateParsedPolicy policy = Thrown message)
      <-> ~ wellFormedPolicy policy).
Proof.
  assert (H : validateParsedPolicy policy = Returned tt
              <-> wellFormedPolicy policy).
  { unfold validateParsedPolicy, wellFormedPolicy.
    destruct (missing (FirewallPolicy.name policy)) eqn:Hm.
    - split; [discriminate|]. intros [Hn _].
      apply missing_spec in Hn. congruence.
    - apply missing_spec in Hm.
      destruct (FirewallPolicy.ruleCollectionGroups policy) as [|g gs] eqn:Hg.
      + simpl. split; [discriminate|]. intros (_ & Hne & _). now elim Hne.
      + cbn [List.length Nat.eqb].
        rewrite validateRuleCollectionGroups_spec. split.
        * intros Hall. repeat split; [exact Hm|discriminate|exact Hall].
        * intros (_ & _ & Hall). exact Hall. }
  split; [exact H|].
  rewrite <- H.
  destruct (validateParsedPolicy policy) as [[]|message].
  - split; [intros [m E]; discriminate|intros Hn; now elim Hn].
  - split; [intros _; discriminate|intros _; now exists message].
Qed.

End ParserProperties.


(* ================================================================== *)
(** * Duplicate groups *)
(* ================================================================== *)

Section DuplicateFacts.
Import RuleAnalyzer Vocabulary.
Local Open Scope string_scope.
Local Open Scope list_scope.

Lemma fingerprintEqb_eq (a b : RuleFingerprint.t) :
  fingerprintEqb a b = true <-> a = b.
Proof.
  unfold fingerprintEqb.
  destruct (RuleFingerprint.eq_dec a b); split; congruence.
Qed.

Lemma pushRule_push (k : RuleFingerprint.t) (rule : ProcessedRule.t)
    (m : list (RuleFingerprint.t * list ProcessedRule.t)) :
  pushRule k rule m = push fingerprintEqb k rule m.
Proof.
  induction m as [|[k' rs] m IH]; simpl; [reflexivity|].
  unfold fingerprintEqb at 1.
  destruct (RuleFingerprint.eq_dec k' k); [reflexivity|now rewrite IH].
Qed.

Lemma groupByFingerprint_push (rules : list ProcessedRule.t) :
  groupByFingerprint rules
  = fold_left (fun m x => push fingerprintEqb (fst x) (snd x) m)
              (map keyed rules) [].
Proof.
  unfold groupByFingerprint.
  generalize (@nil (RuleFingerprint.t * list ProcessedRule.t)).
  induction rules as [|r rules IH]; intros m; simpl; [reflexivity|].
  now rewrite IH, pushRule_push.
Qed.

Lemma valuesOf_rulesWith (k : RuleFingerprint.t)
    (rules : list ProcessedRule.t) :
  valuesOf fingerprintEqb k (map keyed rules) = rulesWith k rules.
Proof.
  unfold valuesOf, rulesWith.
  induction rules as [|r rules IH]; simpl; [reflexivity|].
  destruct (fingerprintEqb (generateRuleFingerprint r) k); simpl;
    now rewrite IH.
Qed.

(** The map of the grouping loop: one entry per fingerprint that occurs,
    holding the rules with that fingerprint in input order. *)
Lemma groupByFingerprint_entries (rules : list ProcessedRule.t)
    (k : RuleFingerprint.t) (rs : list ProcessedRule.t) :
  In (k, rs) (groupByFingerprint rules)
  <-> rs = rulesWith k rules /\ rs <> [].
Proof.
  rewrite groupByFingerprint_push,
    (grouped_entries fingerprintEqb fingerprintEqb_eq).
  now rewrite valuesOf_rulesWith.
Qed.

Lemma groupByFingerprint_NoDup (rules : list ProcessedRule.t) :
  NoDup (map fst (groupByFingerprint rules)).
Proof.
  rewrite groupByFingerprint_push.
  apply (fold_push_NoDup fingerprintEqb fingerprintEqb_eq). constructor.
Qed.

Lemma collectDuplicates_In
    (entries : list (RuleFingerprint.t * list ProcessedRule.t)) (n : nat)
    (g : DuplicateGroup.t) :
  In g (collectDuplicates entries n) ->
  In (DuplicateGroup.fingerprint g, DuplicateGroup.rules g) entries
  /\ 2 <= memberCount g
  /\ DuplicateGroup.type g
     = if areRulesExactDuplicates (DuplicateGroup.rules g)
       then exact_duplicate else similar_rules.
Proof.
  revert n. induction entries as [|[k rs] entries IH]; intros n; simpl.
  - tauto.
  - destruct (Nat.ltb_spec 1 (List.length rs)) as [Hlt|Hge].
    + intros [<-|Hin].
      * simpl. unfold memberCount. simpl. auto.
      * destruct (IH _ Hin) as (H1 & H2 & H3). auto.
    + intros Hin. destruct (IH _ Hin) as (H1 & H2 & H3). auto.
Qed.

Lemma collectDuplicates_complete
    (entries : list (RuleFingerprint.t * list ProcessedRule.t)) (n : nat)
    (k : RuleFingerprint.t) (rs : list ProcessedRule.t) :
  In (k, rs) entries -> 2 <= List.length rs ->
  exists g, In g (collectDuplicates entries n)
            /\ DuplicateGroup.fingerprint g = k
            /\ DuplicateGroup.rules g = rs.
Proof.
  revert n. induction entries as [|[k' rs'] entries IH]; intros n Hin Hlen.
  - contradiction.
  - simpl. destruct Hin as [E|Hin].
    + injection E as -> ->.
      destruct (Nat.ltb_spec 1 (List.length rs)) as [Hlt|Hge]; [|lia].
      eexists. split; [now left|]. simpl. auto.
    + destruct (Nat.ltb_spec 1 (List.length rs')) as [Hlt|Hge].
      * destruct (IH (S n) Hin Hlen) as (g & Hg & H). exists g.
        split; [now right|exact H].
      * exact (IH n Hin Hlen).
Qed.

Lemma collectDuplicates_NoDup
    (entries : list (RuleFingerprint.t * list ProcessedRule.t)) (n : nat) :
  NoDup (map fst entries) ->
  NoDup (map DuplicateGroup.fingerprint (collectDuplicates entries n)).
Proof.
  revert n. induction entries as [|[k rs] entries IH]; intros n H; simpl.
  - constructor.
  - inversion H as [|? ? Hnot Hrest]; subst.
    destruct (1 <? List.length rs)%nat; [|now apply IH].
    simpl. constructor; [|now apply IH].
    intros Hin. apply Hnot.
    apply in_map_iff in Hin as (g & E & Hg).
    change (DuplicateGroup.fingerprint g = k) in E. subst k.
    apply collectDuplicates_In in Hg as [Hg _].
    apply in_map_iff. now exists (DuplicateGroup.fingerprint g,
                                  DuplicateGroup.rules g).
Qed.

Lemma collectDuplicates_ids
    (entries : list (RuleFingerprint.t * list ProcessedRule.t)) (n : nat) :
  map DuplicateGroup.id (collectDuplicates entries n)
  = map (fun i => ("duplicate_" ++ JS.showNat i)%string)
        (seq n (List.length (collectDuplicates entries n))).
Proof.
  revert n. induction entries as [|[k rs] entries IH]; intros n; simpl.
  - reflexivity.
  - destruct (1 <? List.length rs)%nat; [|apply IH].
    simpl. now rewrite IH.
Qed.

Lemma rulesWith_In (k : RuleFingerprint.t) (rules : list ProcessedRule.t)
    (r : ProcessedRule.t) :
  In r (rulesWith k rules) <-> In r rules /\ generateRuleFingerprint r = k.
Proof. unfold rulesWith. now rewrite filter_In, fingerprintEqb_eq. Qed.

Lemma areRulesExactDuplicates_spec (rules : list ProcessedRule.t) :
  2 <= List.length rules ->
  (areRulesExactDuplicates rules = true <-> sameNameAndCollection rules).
Proof.
  intros Hlen. unfold areRulesExactDuplicates, sameNameAndCollection.
  destruct (Nat.ltb_spec (List.length rules) 2) as [Hlt|_]; [lia|].
  destruct rules as [|first rest]; [simpl in Hlen; lia|].
  rewrite forallb_forall. split.
  - intros H r1 r2 H1 H2.
    apply H in H1, H2. apply andb_true_iff in H1 as [N1 C1], H2 as [N2 C2].
    apply String.eqb_eq in N1, C1, N2, C2. split; congruence.
  - intros H r Hr.
    destruct (H r first Hr (or_introl eq_refl)) as [N C].
    rewrite N, C, !String.eqb_refl. reflexivity.
Qed.

End DuplicateFacts.

Section DuplicateProperties.
Import RuleAnalyzer Vocabulary Fixtures.
Local Open Scope string_scope.
Local Open Scope list_scope.

(** X17.  Every duplicate group of [findDuplicateRules] holds exactly the
    rules of the input that have the group's fingerprint, in input order,
    and at least two of them; no two groups share a fingerprint; a rule of
    the input belongs to a group exactly when the input holds at least two
    rules with its fingerprint. *)
Theorem duplicate_groups_partition_by_fingerprint
    (rules : list ProcessedRule.t) :
  let groups := findDuplicateRules rules in
  (forall g, In g groups ->
             DuplicateGroup.rules g
             = rulesWith (DuplicateGroup.fingerprint g) rules
             /\ 2 <= memberCount g
             /\ forall r, In r (DuplicateGroup.rules g) ->
                          generateRuleFingerprint r
                          = DuplicateGroup.fingerprint g)
  /\ NoDup (map DuplicateGroup.fingerprint groups)
  /\ (forall r, In r rules ->
                ((exists g, In g groups /\ In r (DuplicateGroup.rules g))
                 <-> 2 <= List.length
                            (rulesWith (generateRuleFingerprint r) rules))).
Proof.
  cbv zeta. unfold findDuplicateRules. split; [|split].
  - intros g Hg. apply collectDuplicates_In in Hg as (He & Hlen & _).
    apply groupByFingerprint_entries in He as [He _].
    split; [exact He|]. split; [exact Hlen|].
    intros r Hr. rewrite He in Hr. now apply rulesWith_In in Hr.
  - apply collectDuplicates_NoDup, groupByFingerprint_NoDup.
  - intros r Hr. split.
    + intros (g & Hg & Hin).
      apply collectDuplicates_In in Hg as (He & Hlen & _).
      apply groupByFingerprint_entries in He as [He _].
      rewrite He in Hin. apply rulesWith_In in Hin as [_ E].
      rewrite E. unfold memberCount in Hlen. now rewrite He in Hlen.
    + intros Hlen.
      destruct (collectDuplicates_complete (groupByFingerprint rules) 1
                  (generateRuleFingerprint r)
                  (rulesWith (generateRuleFingerprint r) rules))
        as (g & Hg & _ & Hrs).
      * apply groupByFingerprint_entries. split; [reflexivity|].
        intros E. rewrite E in Hlen. simpl in Hlen. lia.
      * exact Hlen.
      * exists g. split; [exact Hg|]. rewrite Hrs.
        apply rulesWith_In. auto.
Qed.

(** X18.  A duplicate group is classified exact_duplicate exactly when all
    its members agree on name and collection name, and similar_rules
    otherwise. *)
Theorem exact_duplicate_iff_same_name_and_collection
    (rules : list ProcessedRule.t) (g : DuplicateGroup.t) :
  In g (findDuplicateRules rules) ->
  (DuplicateGroup.type g = exact_duplicate
   <-> sameNameAndCollection (DuplicateGroup.rules g))
  /\ (DuplicateGroup.type g = similar_rules
      <-> ~ sameNameAndCollection (DuplicateGroup.rules g)).
Proof.
  intros Hg. unfold findDuplicateRules in Hg.
  apply collectDuplicates_In in Hg as (_ & Hlen & Hty).
  pose proof (areRulesExactDuplicates_spec (DuplicateGroup.rules g) Hlen)
    as Hspec.
  rewrite Hty.
  destruct (areRulesExactDuplicates (DuplicateGroup.rules g)).
  - assert (S : sameNameAndCollection (DuplicateGroup.rules g))
      by now apply Hspec.
    split; split; intros; try discriminate; try reflexivity;
      try assumption; contradiction.
  - assert (NS : ~ sameNameAndCollection (DuplicateGroup.rules g))
      by (intros H; apply Hspec in H; discriminate).
    split; split; intros; try discriminate; try reflexivity;
      try assumption; contradiction.
Qed.

Lemma exact_duplicate_iff_same_name_and_collection_witness :
  (DuplicateGroup.type tidyGroup = exact_duplicate
   <-> sameNameAndCollection (DuplicateGroup.rules tidyGroup))
  /\ (DuplicateGroup.type tidyGroup = similar_rules
      <-> ~ sameNameAndCollection (DuplicateGroup.rules tidyGroup)).
Proof.
  apply (exact_duplicate_iff_same_name_and_collection
           [tidyRule; untidyRule] tidyGroup).
  vm_compute. left. reflexivity.
Defined.

End DuplicateProperties.


(* ================================================================== *)
(** * Conflict records *)
(* ================================================================== *)

Section ConflictFacts.
Import RuleAnalyzer Vocabulary.
Local Open Scope string_scope.
Local Open Scope list_scope.

Lemma allPairs_members (l : list ProcessedRule.t) (a b : ProcessedRule.t) :
  In (a, b) (allPairs l) -> In a l /\ In b l.
Proof.
  induction l as [|x l IH]; simpl; [tauto|].
  intros H. apply in_app_or in H as [H|H].
  - apply in_map_iff in H as (y & E & Hy). injection E as -> ->. auto.
  - destruct (IH H). auto.
Qed.

Lemma allPairs_sorted (R : ProcessedRule.t -> ProcessedRule.t -> Prop)
    (l : list ProcessedRule.t) (a b : ProcessedRule.t) :
  StronglySorted R l -> In (a, b) (allPairs l) -> R a b.
Proof.
  induction 1 as [|x l Hs IH Hall]; simpl; [tauto|].
  intros H. apply in_app_or in H as [H|H]; [|auto].
  apply in_map_iff in H as (y & E & Hy). injection E as -> ->.
  rewrite Forall_forall in Hall. auto.
Qed.

Lemma allPairs_length (l : list ProcessedRule.t) :
  2 * List.length (allPairs l) = List.length l * (List.length l - 1).
Proof.
  induction l as [|x l IH]; simpl; [reflexivity|].
  rewrite length_app, length_map. nia.
Qed.

Lemma allPairs_NoDup (l : list ProcessedRule.t) :
  NoDup l -> NoDup (allPairs l).
Proof.
  induction 1 as [|x l Hx Hl IH]; simpl; [constructor|].
  apply NoDup_app.
  - apply Finite.Injective_map_NoDup; [|exact Hl].
    intros a b E. now injection E.
  - exact IH.
  - intros [a b] H1 H2.
    apply in_map_iff in H1 as (y & E & _). injection E as <- _.
    apply allPairs_members in H2 as [H2 _]. contradiction.
Qed.

Lemma allPairs_one_way (l : list ProcessedRule.t) (a b : ProcessedRule.t) :
  NoDup l -> In (a, b) (allPairs l) -> ~ In (b, a) (allPairs l).
Proof.
  induction 1 as [|x l Hx Hl IH]; simpl; [tauto|].
  intros H1 H2. apply in_app_or in H1, H2.
  destruct H1 as [H1|H1], H2 as [H2|H2].
  - apply in_map_iff in H1 as (y & E1 & Hy). injection E1 as <- <-.
    apply in_map_iff in H2 as (z & E2 & _). injection E2 as E _.
    subst. contradiction.
  - apply in_map_iff in H1 as (y & E1 & _). injection E1 as <- _.
    apply allPairs_members in H2 as [_ H2]. contradiction.
  - apply in_map_iff in H2 as (y & E2 & _). injection E2 as <- _.
    apply allPairs_members in H1 as [_ H1]. contradiction.
  - exact (IH H1 H2).
Qed.

Lemma pairs_of_conflicts (rules : list ProcessedRule.t) :
  map pairOf (findRuleConflicts rules)
  = filter inConflict (allPairs (sortByProcessingOrder rules)).
Proof.
  assert (E : map pairOf (findRuleConflicts rules)
              = map (fun v => (snd (fst v), snd v))
                    (map verdict (findRuleConflicts rules))).
  { rewrite map_map. apply map_ext. intros c. reflexivity. }
  rewrite E, findRuleConflicts_verdicts.
  induction (allPairs (sortByProcessingOrder rules)) as [|[r1 r2] ps IH];
    simpl; [reflexivity|].
  rewrite map_app, IH. unfold pairVerdict, inConflict. cbn [fst snd].
  destruct (detectConflictBetweenRules r1 r2) as [[ty sev]|]; reflexivity.
Qed.

Lemma sortByProcessingOrder_sorted (rules : list ProcessedRule.t) :
  StronglySorted (fun a b => (ProcessedRule.processingOrder a
                              <= ProcessedRule.processingOrder b)%Z)
    (sortByProcessingOrder rules).
Proof. apply sortWith_key_StronglySorted. Qed.

Lemma sortByProcessingOrder_In (rules : list ProcessedRule.t)
    (r : ProcessedRule.t) :
  In r (sortByProcessingOrder rules) <-> In r rules.
Proof. apply sortBy_In. Qed.

Lemma detect_shape (rule1 rule2 : ProcessedRule.t) (ty : ConflictType)
    (sev : Severity) :
  detectConflictBetweenRules rule1 rule2 = Some (ty, sev) ->
  sev = severityOf ty
  /\ (ty = allow_deny_conflict ->
      (ProcessedRule.ruleType rule1 = "NetworkRule"
       \/ ProcessedRule.ruleType rule1 = "ApplicationRule")
      /\ getRuleAction rule1 <> getRuleAction rule2)
  /\ (ty = priority_conflict ->
      (ProcessedRule.processingOrder rule1
       < ProcessedRule.processingOrder rule2)%Z).
Proof.
  unfold detectConflictBetweenRules.
  destruct (negb (String.eqb (ProcessedRule.ruleType rule1)
                    (ProcessedRule.ruleType rule2))); [discriminate|].
  destruct (negb (hasOverlappingTrafficPattern _ _)); [discriminate|].
  destruct ((String.eqb (ProcessedRule.ruleType rule1) "NetworkRule"
             || String.eqb (ProcessedRule.ruleType rule1) "ApplicationRule")
            && negb (String.eqb (getRuleAction rule1) (getRuleAction rule2)))
    eqn:Had.
  - intros E. injection E as <- <-. split; [reflexivity|].
    split; [|discriminate]. intros _.
    apply andb_true_iff in Had as [Hk Ha].
    apply orb_true_iff in Hk. rewrite !String.eqb_eq in Hk.
    apply negb_true_iff, String.eqb_neq in Ha. auto.
  - destruct ((ProcessedRule.processingOrder rule1
               <? ProcessedRule.processingOrder rule2)%Z
              && areTrafficPatternsIdentical _ _) eqn:Hpc.
    + intros E. injection E as <- <-. split; [reflexivity|].
      split; [discriminate|]. intros _.
      apply andb_true_iff in Hpc as [Hlt _]. now apply Z.ltb_lt.
    + intros E. injection E as <- <-. split; [reflexivity|].
      split; discriminate.
Qed.

Lemma overlaps_sym (a b : list string) : overlaps a b -> overlaps b a.
Proof.
  unfold overlaps. intros [H|[H|(x & Ha & Hb)]]; auto.
  right. right. now exists x.
Qed.

Lemma hasArrayOverlap_sym (a b : list string) :
  hasArrayOverlap a b = hasArrayOverlap b a.
Proof.
  apply Bool.eq_iff_eq_true. rewrite !hasArrayOverlap_spec.
  split; apply overlaps_sym.
Qed.

Lemma hasArrayOverlap_refl (a : list string) : hasArrayOverlap a a = true.
Proof.
  apply hasArrayOverlap_spec. unfold overlaps.
  destruct a as [|x a]; [now left|].
  right. right. exists x. simpl. auto.
Qed.

Lemma hasOverlappingTrafficPattern_sym (fp1 fp2 : RuleFingerprint.t) :
  hasOverlappingTrafficPattern fp1 fp2 = hasOverlappingTrafficPattern fp2 fp1.
Proof.
  unfold hasOverlappingTrafficPattern.
  rewrite (hasArrayOverlap_sym (RuleFingerprint.sourceAddresses fp1)).
  rewrite (hasArrayOverlap_sym (RuleFingerprint.destinationAddresses fp1
                                ++ RuleFingerprint.targetFqdns fp1)).
  rewrite (hasArrayOverlap_sym (RuleFingerprint.destinationPorts fp1)).
  rewrite (hasArrayOverlap_sym (RuleFingerprint.ipProtocols fp1)).
  reflexivity.
Qed.

Lemma hasOverlappingTrafficPattern_refl (fp : RuleFingerprint.t) :
  hasOverlappingTrafficPattern fp fp = true.
Proof.
  unfold hasOverlappingTrafficPattern.
  now rewrite !hasArrayOverlap_refl.
Qed.

Lemma detect_none_iff (rule1 rule2 : ProcessedRule.t) :
  detectConflictBetweenRules rule1 rule2 = None
  <-> ProcessedRule.ruleType rule1 <> ProcessedRule.ruleType rule2
      \/ hasOverlappingTrafficPattern (generateRuleFingerprint rule1)
           (generateRuleFingerprint rule2) = false.
Proof.
  unfold detectConflictBetweenRules.
  destruct (String.eqb_spec (ProcessedRule.ruleType rule1)
              (ProcessedRule.ruleType rule2)) as [E|NE]; cbn [negb].
  - destruct (hasOverlappingTrafficPattern _ _); cbn [negb].
    + split; [|intros [H|H]; [contradiction|discriminate]].
      destruct (_ && negb _)%bool; [discriminate|].
      destruct (_ && _)%bool; discriminate.
    + split; auto.
  - split; auto.
Qed.

Lemma grows_refl (st : conflictState) : grows st st.
Proof. exists []. rewrite app_nil_r. simpl. auto. Qed.

Lemma grows_trans (a b c : conflictState) :
  grows a b -> grows b c -> grows a c.
Proof.
  intros (x & E1 & N1 & I1) (y & E2 & N2 & I2).
  exists (x ++ y). rewrite E2, E1, N2, N1, length_app, map_app, seq_app,
    map_app, I1, I2, N1, app_assoc.
  repeat split. lia.
Qed.

Lemma comparePair_grows (rule1 rule2 : ProcessedRule.t) (st : conflictState) :
  grows st (comparePair rule1 rule2 st).
Proof.
  unfold comparePair.
  destruct (detectConflictBetweenRules rule1 rule2) as [[ty sev]|];
    [|apply grows_refl].
  eexists [_]. simpl. repeat split. lia.
Qed.

Lemma innerLoop_grows (rule1 : ProcessedRule.t)
    (later : list ProcessedRule.t) (st : conflictState) :
  grows st (innerLoop rule1 later st).
Proof.
  revert st. induction later as [|rule2 later IH]; intros st; simpl.
  - apply grows_refl.
  - eapply grows_trans; [apply comparePair_grows|apply IH].
Qed.

Lemma outerLoop_grows (sortedRules : list ProcessedRule.t)
    (st : conflictState) :
  grows st (outerLoop sortedRules st).
Proof.
  revert st. induction sortedRules as [|rule1 later IH]; intros st; simpl.
  - apply grows_refl.
  - eapply grows_trans; [apply innerLoop_grows|apply IH].
Qed.

Lemma two_members {A : Type} (l : list A) (a b : A) :
  In a l -> In b l -> a <> b -> 2 <= List.length l.
Proof.
  destruct l as [|x [|y l]]; simpl; intros Ha Hb Hne; try tauto; [|lia].
  destruct Ha as [<-|[]], Hb as [<-|[]]. congruence.
Qed.

End ConflictFacts.


(* ================================================================== *)
(** * Properties of the conflict and duplicate queries *)
(* ================================================================== *)

Section ConflictProperties.
Import RuleAnalyzer Vocabulary Fixtures.
Local Open Scope string_scope.
Local Open Scope list_scope.

(** X19.  Every conflict record of [findRuleConflicts] is built from two
    rules of the input, the primary one having the lower or the same
    processing order; its severity is the one that goes with its type;
    an allow_deny_conflict is between Network or Application rules whose
    inferred actions differ, and a priority_conflict is between rules with
    different processing orders. *)
Theorem conflict_records_are_well_formed
    (rules : list ProcessedRule.t) (c : RuleConflict.t) :
  In c (findRuleConflicts rules) ->
  In (RuleConflict.primary c) rules
  /\ In (RuleConflict.conflicting c) rules
  /\ (ProcessedRule.processingOrder (RuleConflict.primary c)
      <= ProcessedRule.processingOrder (RuleConflict.conflicting c))%Z
  /\ ProcessedRule.ruleType (RuleConflict.primary c)
     = ProcessedRule.ruleType (RuleConflict.conflicting c)
  /\ RuleConflict.severity c = severityOf (RuleConflict.conflictType c)
  /\ (RuleConflict.conflictType c = allow_deny_conflict ->
      (ProcessedRule.ruleType (RuleConflict.primary c) = "NetworkRule"
       \/ ProcessedRule.ruleType (RuleConflict.primary c) = "ApplicationRule")
      /\ getRuleAction (RuleConflict.primary c)
         <> getRuleAction (RuleConflict.conflicting c))
  /\ (RuleConflict.conflictType c = priority_conflict ->
      (ProcessedRule.processingOrder (RuleConflict.primary c)
       < ProcessedRule.processingOrder (RuleConflict.conflicting c))%Z).
Proof.
  intros Hc. apply conflict_from_pair in Hc as [Hp Hd].
  pose proof (allPairs_members _ _ _ Hp) as [H1 H2].
  apply -> sortByProcessingOrder_In in H1.
  apply -> sortByProcessingOrder_In in H2.
  pose proof (allPairs_sorted _ _ _ _
                (sortByProcessingOrder_sorted rules) Hp) as Hle.
  pose proof (detect_some_inv _ _ _ Hd) as [Hk _].
  pose proof (detect_shape _ _ _ _ Hd) as (Hs & Had & Hpc).
  exact (conj H1 (conj H2 (conj Hle (conj Hk (conj Hs (conj Had Hpc)))))).
Qed.

Lemma conflict_records_are_well_formed_witness :
  In allowDenyRecord (findRuleConflicts [allowWeb; denyWeb])
  /\ In (RuleConflict.primary allowDenyRecord) [allowWeb; denyWeb]
  /\ In (RuleConflict.conflicting allowDenyRecord) [allowWeb; denyWeb]
  /\ (ProcessedRule.processingOrder (RuleConflict.primary allowDenyRecord)
      <= ProcessedRule.processingOrder
           (RuleConflict.conflicting allowDenyRecord))%Z
  /\ ProcessedRule.ruleType (RuleConflict.primary allowDenyRecord)
     = ProcessedRule.ruleType (RuleConflict.conflicting allowDenyRecord)
  /\ RuleConflict.severity allowDenyRecord
     = severityOf (RuleConflict.conflictType allowDenyRecord)
  /\ (RuleConflict.conflictType allowDenyRecord = allow_deny_conflict ->
      (ProcessedRule.ruleType (RuleConflict.primary allowDenyRecord)
       = "NetworkRule"
       \/ ProcessedRule.ruleType (RuleConflict.primary allowDenyRecord)
          = "ApplicationRule")
      /\ getRuleAction (RuleConflict.primary allowDenyRecord)
         <> getRuleAction (RuleConflict.conflicting allowDenyRecord))
  /\ (RuleConflict.conflictType allowDenyRecord = priority_conflict ->
      (ProcessedRule.processingOrder (RuleConflict.primary allowDenyRecord)
       < ProcessedRule.processingOrder
           (RuleConflict.conflicting allowDenyRecord))%Z).
Proof.
  assert (H : In allowDenyRecord (findRuleConflicts [allowWeb; denyWeb])).
  { vm_compute. left. reflexivity. }
  split; [exact H|].
  exact (conflict_records_are_well_formed [allowWeb; denyWeb]
           allowDenyRecord H).
Defined.

(** X20.  [findRuleConflicts] visits every pair of positions [i < j] of
    the rules sorted by processing order once, and reports exactly the
    pairs for which [detectConflictBetweenRules] is not null, one record
    each, in the order of the loops.  So it returns at most n(n-1)/2
    records for n rules, and when the rules of the input are pairwise
    different no two records name the same two rules, in either order. *)
Theorem conflicts_at_most_one_per_pair (rules : list ProcessedRule.t) :
  let conflicts := findRuleConflicts rules in
  map pairOf conflicts
  = filter inConflict (allPairs (sortByProcessingOrder rules))
  /\ 2 * List.length conflicts
     <= List.length rules * (List.length rules - 1)
  /\ (NoDup rules ->
      NoDup (map pairOf conflicts)
      /\ forall c1 c2, In c1 conflicts -> In c2 conflicts ->
           ~ (RuleConflict.primary c1 = RuleConflict.conflicting c2
              /\ RuleConflict.conflicting c1 = RuleConflict.primary c2)).
Proof.
  cbv zeta. split; [apply pairs_of_conflicts|]. split.
  - assert (Hlen : List.length (sortByProcessingOrder rules)
                   = List.length rules) by apply sortBy_length.
    rewrite <- Hlen, <- allPairs_length.
    rewrite <- (length_map pairOf), pairs_of_conflicts.
    apply Nat.mul_le_mono_l, filter_length_le.
  - intros Hnd.
    assert (Hs : NoDup (sortByProcessingOrder rules)).
    { apply (Permutation_NoDup (sortWith_key_perm _ rules) Hnd). }
    split.
    + rewrite pairs_of_conflicts. apply NoDup_filter, allPairs_NoDup, Hs.
    + intros c1 c2 H1 H2 [E1 E2].
      apply (in_map pairOf) in H1, H2.
      rewrite pairs_of_conflicts in H1, H2.
      apply filter_In in H1 as [H1 _], H2 as [H2 _].
      unfold pairOf in H1, H2. rewrite E1, E2 in H1.
      exact (allPairs_one_way _ _ _ Hs H2 H1).
Qed.

(** X21.  The ids of the duplicate groups are duplicate_1, duplicate_2, ...
    and the ids of the conflict records conflict_1, conflict_2, ..., each in
    the order of the result and without a gap. *)
Theorem result_ids_are_numbered (rules : list ProcessedRule.t) :
  map DuplicateGroup.id (findDuplicateRules rules)
  = numberedIds "duplicate_" (List.length (findDuplicateRules rules))
  /\ map RuleConflict.id (findRuleConflicts rules)
     = numberedIds "conflict_" (List.length (findRuleConflicts rules)).
Proof.
  split.
  - unfold findDuplicateRules, numberedIds. apply collectDuplicates_ids.
  - unfold findRuleConflicts, numberedIds.
    destruct (outerLoop_grows (sortByProcessingOrder rules) ([], 1))
      as (added & E & _ & I).
    simpl in E, I. rewrite E. exact I.
Qed.

(** X22.  Whether [detectConflictBetweenRules] reports a conflict for two
    rules does not depend on which of them is passed first, and a rule's
    traffic pattern overlaps itself. *)
Theorem conflict_detection_is_symmetric (rule1 rule2 : ProcessedRule.t) :
  (detectConflictBetweenRules rule1 rule2 = None
   <-> detectConflictBetweenRules rule2 rule1 = None)
  /\ hasOverlappingTrafficPattern (generateRuleFingerprint rule1)
       (generateRuleFingerprint rule1) = true.
Proof.
  split; [|apply hasOverlappingTrafficPattern_refl].
  rewrite !detect_none_iff.
  rewrite (hasOverlappingTrafficPattern_sym (generateRuleFingerprint rule1)).
  split; (intros [H|H]; [left; congruence|now right]).
Qed.

(** X23.  Two rules with the same fingerprint are always reported as a
    conflict as well: the one that comes first after sorting by processing
    order is the primary rule, and the record is an allow_deny_conflict, a
    priority_conflict when the processing orders differ, or
    overlapping_rules when they are equal. *)
Theorem equal_fingerprints_are_reported_as_conflict
    (rules l1 l2 l3 : list ProcessedRule.t) (rule1 rule2 : ProcessedRule.t) :
  sortByProcessingOrder rules = l1 ++ rule1 :: l2 ++ rule2 :: l3 ->
  generateRuleFingerprint rule1 = generateRuleFingerprint rule2 ->
  exists c,
    In c (findRuleConflicts rules)
    /\ RuleConflict.primary c = rule1
    /\ RuleConflict.conflicting c = rule2
    /\ (RuleConflict.conflictType c = allow_deny_conflict
        \/ (RuleConflict.conflictType c = priority_conflict
            /\ (ProcessedRule.processingOrder rule1
                < ProcessedRule.processingOrder rule2)%Z)
        \/ (RuleConflict.conflictType c = overlapping_rules
            /\ ProcessedRule.processingOrder rule1
               = ProcessedRule.processingOrder rule2)).
Proof.
  intros Hs Hfp.
  assert (Hp : In (rule1, rule2) (allPairs (sortByProcessingOrder rules))).
  { rewrite Hs. apply allPairs_In. }
  pose proof (allPairs_sorted _ _ _ _
                (sortByProcessingOrder_sorted rules) Hp) as Hle.
  cbv beta in Hle.
  assert (Hk : ProcessedRule.ruleType rule1 = ProcessedRule.ruleType rule2).
  { apply (f_equal RuleFingerprint.ruleType) in Hfp. exact Hfp. }
  assert (Ho : hasOverlappingTrafficPattern (generateRuleFingerprint rule1)
                 (generateRuleFingerprint rule2) = true).
  { rewrite <- Hfp. apply hasOverlappingTrafficPattern_refl. }
  pose proof (equal_fingerprints_identical _ _ Hfp) as Hid.
  destruct (detectConflictBetweenRules rule1 rule2) as [[ty sev]|] eqn:Hd.
  - destruct (pair_reported rules rule1 rule2 ty sev Hp Hd) as (c & Hc & Hv).
    unfold verdict in Hv. injection Hv as Hty Hsev H1 H2.
    exists c. repeat split; auto.
    pose proof (detect_shape _ _ _ _ Hd) as (_ & _ & Hpc).
    rewrite Hty. destruct ty.
    + now left.
    + right. left. split; [reflexivity|]. now apply Hpc.
    + right. right. split; [reflexivity|].
      destruct (Z.eq_dec (ProcessedRule.processingOrder rule1)
                  (ProcessedRule.processingOrder rule2)) as [E|NE];
        [exact E|exfalso].
      destruct (detect_classification rule1 rule2 Hk Ho)
        as [(_ & _ & Hd')|(Hn & _)].
      * rewrite Hd. discriminate.
      * rewrite Hd in Hd'. discriminate.
      * apply Hn. split; [lia|exact Hid].
  - apply detect_none_iff in Hd as [Hd|Hd]; [contradiction|].
    rewrite Ho in Hd. discriminate.
Qed.

Lemma equal_fingerprints_are_reported_as_conflict_witness :
  exists c,
    In c (findRuleConflicts [tidyRule; untidyRule])
    /\ RuleConflict.primary c = tidyRule
    /\ RuleConflict.conflicting c = untidyRule
    /\ (RuleConflict.conflictType c = allow_deny_conflict
        \/ (RuleConflict.conflictType c = priority_conflict
            /\ (ProcessedRule.processingOrder tidyRule
                < ProcessedRule.processingOrder untidyRule)%Z)
        \/ (RuleConflict.conflictType c = overlapping_rules
            /\ ProcessedRule.processingOrder tidyRule
               = ProcessedRule.processingOrder untidyRule)).
Proof.
  apply (equal_fingerprints_are_reported_as_conflict
           [tidyRule; untidyRule] [] [] [] tidyRule untidyRule).
  - vm_compute. reflexivity.
  - vm_compute. reflexivity.
Defined.

(** X24.  [findDuplicatesOfRule] agrees with [findDuplicateRules]: for a
    rule of the input, the rules it returns are the members of the rule's
    duplicate group whose id differs from the rule's own. *)
Theorem duplicates_of_rule_are_its_group
    (rule : ProcessedRule.t) (allRules : list ProcessedRule.t)
    (r : ProcessedRule.t) :
  In rule allRules ->
  (In r (findDuplicatesOfRule rule allRules)
   <-> ProcessedRule.id r <> ProcessedRule.id rule
       /\ exists g, In g (findDuplicateRules allRules)
                    /\ In rule (DuplicateGroup.rules g)
                    /\ In r (DuplicateGroup.rules g)).
Proof.
  intros Hrule. unfold findDuplicatesOfRule, serializeFingerprint.
  rewrite filter_In. split.
  - intros [Hr Hf].
    destruct (String.eqb_spec (ProcessedRule.id r) (ProcessedRule.id rule))
      as [E|NE]; [discriminate|].
    destruct (RuleFingerprint.eq_dec (generateRuleFingerprint rule)
                (generateRuleFingerprint r)) as [Efp|]; [|discriminate].
    split; [exact NE|].
    set (k := generateRuleFingerprint rule).
    assert (H1 : In rule (rulesWith k allRules))
      by (apply rulesWith_In; auto).
    assert (H2 : In r (rulesWith k allRules))
      by (apply rulesWith_In; auto).
    destruct (collectDuplicates_complete (groupByFingerprint allRules) 1
                k (rulesWith k allRules)) as (g & Hg & _ & Hrs).
    + apply groupByFingerprint_entries. split; [reflexivity|].
      intros E. rewrite E in H1. contradiction.
    + apply (two_members _ rule r H1 H2). congruence.
    + exists g. split; [exact Hg|]. rewrite Hrs. auto.
  - intros (NE & g & Hg & H1 & H2).
    apply collectDuplicates_In in Hg as (He & _ & _).
    apply groupByFingerprint_entries in He as [He _].
    rewrite He in H1, H2.
    apply rulesWith_In in H1 as [_ E1], H2 as [Hr E2].
    split; [exact Hr|].
    destruct (String.eqb_spec (ProcessedRule.id r) (ProcessedRule.id rule))
      as [E|_]; [contradiction|].
    destruct (RuleFingerprint.eq_dec (generateRuleFingerprint rule)
                (generateRuleFingerprint r)) as [|N]; [reflexivity|].
    congruence.
Qed.

Lemma duplicates_of_rule_are_its_group_witness :
  In untidyRule (findDuplicatesOfRule tidyRule [tidyRule; untidyRule])
  <-> ProcessedRule.id untidyRule <> ProcessedRule.id tidyRule
      /\ exists g, In g (findDuplicateRules [tidyRule; untidyRule])
                   /\ In tidyRule (DuplicateGroup.rules g)
                   /\ In untidyRule (DuplicateGroup.rules g).
Proof.
  apply (duplicates_of_rule_are_its_group tidyRule [tidyRule; untidyRule]
           untidyRule).
  simpl. left. reflexivity.
Defined.

(** X25.  [findConflictsInvolvingRule] returns exactly the records of
    [findRuleConflicts] whose primary or conflicting rule has the id of
    the given rule; every record that names the rule
    itself is among them, and there is none when no rule of the input has
    that id. *)
Theorem conflicts_involving_rule_select_by_id
    (rule : ProcessedRule.t) (allRules : list ProcessedRule.t) :
  (forall c, In c (findConflictsInvolvingRule rule allRules)
             <-> In c (findRuleConflicts allRules)
                 /\ (ProcessedRule.id (RuleConflict.primary c)
                     = ProcessedRule.id rule
                     \/ ProcessedRule.id (RuleConflict.conflicting c)
                        = ProcessedRule.id rule))
  /\ (forall c, In c (findRuleConflicts allRules) ->
                RuleConflict.primary c = rule
                \/ RuleConflict.conflicting c = rule ->
                In c (findConflictsInvolvingRule rule allRules))
  /\ ((forall r, In r allRules ->
                 ProcessedRule.id r <> ProcessedRule.id rule) ->
      findConflictsInvolvingRule rule allRules = []).
Proof.
  assert (Hspec : forall c,
             In c (findConflictsInvolvingRule rule allRules)
             <-> In c (findRuleConflicts allRules)
                 /\ (ProcessedRule.id (RuleConflict.primary c)
                     = ProcessedRule.id rule
                     \/ ProcessedRule.id (RuleConflict.conflicting c)
                        = ProcessedRule.id rule)).
  { intros c. unfold findConflictsInvolvingRule.
    now rewrite filter_In, orb_true_iff, !String.eqb_eq. }
  split; [exact Hspec|]. split.
  - intros c Hc [E|E]; apply Hspec; (split; [exact Hc|]);
      [left|right]; now rewrite E.
  - intros Hnone.
    destruct (findConflictsInvolvingRule rule allRules) as [|c cs];
      [reflexivity|exfalso].
    destruct (proj1 (Hspec c) (or_introl eq_refl)) as [Hc Hid].
    apply conflict_from_pair in Hc as [Hp _].
    apply allPairs_members in Hp as [H1 H2].
    apply -> sortByProcessingOrder_In in H1.
    apply -> sortByProcessingOrder_In in H2.
    destruct Hid as [Hid|Hid]; [exact (Hnone _ H1 Hid)|exact (Hnone _ H2 Hid)].
Qed.

End ConflictProperties.


(* ================================================================== *)
(** * Validation of the engine's own output *)
(* ================================================================== *)

Section SortedInput.
Context {A : Type} (le : A -> A -> bool).

(** Sorting an array that is already in order leaves it as it is. *)
Lemma sortBy_sorted_id (l : list A) :
  StronglySorted (fun a b => le a b = true) l -> JS.sortBy le l = l.
Proof.
  induction 1 as [|x l Hs IH Hall]; simpl; [reflexivity|].
  rewrite IH. destruct l as [|y l]; [reflexivity|].
  simpl. inversion Hall as [|? ? Hxy _]; subst. now rewrite Hxy.
Qed.

End SortedInput.

Section OutputValidation.
Import RuleProcessor Vocabulary Fixtures.
Local Open Scope string_scope.
Local Open Scope Z_scope.
Local Open Scope list_scope.

Lemma countFrom_sorted (s : Z) (n : nat) :
  StronglySorted Z.le (countFrom s n).
Proof.
  revert s. induction n as [|n IH]; intros s; simpl; constructor.
  - apply IH.
  - apply Forall_forall. intros z Hz. apply countFrom_In in Hz. lia.
Qed.

Lemma getAllRules_of_ascending
    (groups : list ProcessedRuleCollectionGroup.t) :
  StronglySorted Z.le
    (map ProcessedRule.processingOrder (emittedRules groups)) ->
  getAllRulesInProcessingOrder groups = emittedRules groups.
Proof.
  intros Hs. unfold getAllRulesInProcessingOrder, JS.sortWith.
  apply sortBy_sorted_id.
  apply StronglySorted_map_inv in Hs.
  revert Hs. apply StronglySorted_impl.
  intros a b Hab. apply Z.leb_le. lia.
Qed.

(** X26.  When every group handed to [processFirewallPolicy] holds a NAT
    rule and a Network rule, the engine's output passes its own check:
    [getAllRulesInProcessingOrder] returns the rules in emission order and
    [validateProcessingOrder] issues no processing_gap warning. *)
Theorem no_gap_warning_when_groups_hold_nat_and_network
    (policy : FirewallPolicy.t) (parentPolicy : option FirewallPolicy.t) :
  (forall g isP, groupOf policy parentPolicy g isP ->
                 holdsKind "NatRule" g /\ holdsKind "NetworkRule" g) ->
  let processed := processFirewallPolicy policy parentPolicy in
  getAllRulesInProcessingOrder processed = emittedRules processed
  /\ warningsOfType "processing_gap" (validateProcessingOrder processed) = [].
Proof.
  intros Hall. cbv zeta.
  assert (Ho : map ProcessedRule.processingOrder
                 (emittedRules (processFirewallPolicy policy parentPolicy))
               = countFrom 1
                   (List.length
                      (emittedRules
                         (processFirewallPolicy policy parentPolicy)))).
  { unfold processFirewallPolicy. apply mapGroups_contiguous; [lia|].
    apply Forall_forall. intros [g isP] Hin.
    unfold JS.sortWith in Hin. apply sortBy_In in Hin.
    apply collectGroups_In in Hin. exact (Hall g isP Hin). }
  assert (Hid : getAllRulesInProcessingOrder
                  (processFirewallPolicy policy parentPolicy)
                = emittedRules (processFirewallPolicy policy parentPolicy)).
  { apply getAllRules_of_ascending. rewrite Ho. apply countFrom_sorted. }
  split; [exact Hid|].
  rewrite (proj1 (warnings_split _)), Hid.
  apply processingGaps_nil. rewrite Ho. apply countFrom_consecutive.
Qed.

Lemma no_gap_warning_when_groups_hold_nat_and_network_witness :
  getAllRulesInProcessingOrder (processFirewallPolicy highOnlyPolicy None)
  = emittedRules (processFirewallPolicy highOnlyPolicy None)
  /\ warningsOfType "processing_gap"
       (validateProcessingOrder (processFirewallPolicy highOnlyPolicy None))
     = [].
Proof.
  apply (no_gap_warning_when_groups_hold_nat_and_network
           highOnlyPolicy None).
  intros g isP [[_ (parent & E & _)]|[_ Hin]]; [discriminate|].
  destruct Hin as [<-|[]]. split.
  - exists (dnatRulesCollection 100), webServerNAT. simpl. auto.
  - exists (networkRulesCollection 200), allowHTTP. simpl. auto 6.
Defined.

End OutputValidation.
